(** * The HPX resource partitioner

    A shallow embedding of [libs/core/resource_partitioner/src/detail_partitioner.cpp]
    (namespace [hpx::resource::detail]) and the properties of it that the
    design document states.

    Conventions of the embedding.
    - [std::size_t] is [N]; arithmetic on it wraps at [2^64] ([wrap]).
    - A [std::vector] is a [list]; indexing is stdpp's lookup [!!], and an
      access outside the vector, which has no defined behaviour in C++, is
      the outcome [Undefined].
    - A member function that mutates the object takes the state and returns
      the new state next to its [outcome]; an exception leaves the state as
      it is at the [throw].
    - [HPX_ASSERT] expands to nothing unless [HPX_DEBUG] is defined; the
      functions are embedded as built for release, and the asserted
      conditions are kept as boolean definitions of their own.  The
      functions of the dynamic pools, whose assertions decide what a build
      with [HPX_DEBUG] does, are embedded a second time as built with
      [HPX_DEBUG] (the definitions named [..._debug]): a failing assertion
      ends the program, which is the outcome [AssertionFailed].
    - The mutex [mtx_] serialises the member functions; each function is
      embedded as one atomic step.  The only place where the lock changes
      what a call does is the [try_lock] of [unassign_pu].
    - Left out: the printing functions and the instance counter of the
      constructor. *)

From Stdlib Require Import NArith Lia DecimalString.
From stdpp Require Import base option list sorting strings gmap.

Local Open Scope N_scope.

(** ** Machine integers *)

Definition size_t_modulus : N := 2 ^ 64.

Definition wrap (n : N) : N := n mod size_t_modulus.

(** [static_cast<std::size_t>(-1)] *)
Definition size_t_minus_one : N := size_t_modulus - 1.

(** Unsigned subtraction [a - b] on [std::size_t]. *)
Definition sub_size_t (a b : N) : N := wrap (a + size_t_modulus - wrap b).

(** ** Exceptions *)

(** One constructor per [throw] of the file. *)
Inductive exception : Type :=
  | empty_pool_name_in_ctor
      (* init_pool_data::init_pool_data, throw_invalid_argument *)
  | pu_index_out_of_bounds
      (* init_pool_data::add_resource, throw_invalid_argument *)
  | pu_without_thread_occupancy (pid : N)
      (* partitioner::fill_topology_vectors, throw_runtime_error *)
  | default_pool_without_threads
      (* partitioner::setup_pools, throw_runtime_error *)
  | empty_pools_not_allowed
      (* partitioner::setup_pools, throw_runtime_error *)
  | bad_queuing_option
      (* partitioner::setup_schedulers, hpx::detail::command_line_error *)
  | empty_pool_name
      (* partitioner::create_thread_pool, std::invalid_argument *)
  | pool_already_exists (pool_name : string)
      (* partitioner::create_thread_pool, std::invalid_argument *)
  | dynamic_pools_not_enabled
      (* partitioner::add_resource, std::invalid_argument *)
  | more_threads_than_os_threads (requested provided : N)
      (* partitioner::add_resource, std::runtime_error *)
  | pu_occupancy_exhausted (pu_id occupancy : N)
      (* partitioner::add_resource, std::runtime_error *)
  | unspecified_scheduler_type (pool_name : string)
      (* partitioner::which_scheduler, std::invalid_argument *)
  | dynamic_pools_not_enabled_for_partitioner
      (* partitioner::shrink_pool, expand_pool: hpx::error::bad_parameter *)
  | no_non_exclusive_pus (pool_name : string)
      (* partitioner::shrink_pool, expand_pool: hpx::error::bad_parameter *)
  | no_pool_of_that_name (pool_name : string)
      (* partitioner::get_pool_index, get_pool_data: throw_invalid_argument *).

(** The C++ class (or HPX error code) an exception is thrown with. *)
Inductive exception_class : Type :=
  | hpx_bad_parameter      (* HPX_THROW_EXCEPTION(hpx::error::bad_parameter) *)
  | hpx_invalid_status     (* HPX_THROW_EXCEPTION(hpx::error::invalid_status) *)
  | hpx_command_line_error (* hpx::detail::command_line_error *)
  | std_invalid_argument
  | std_runtime_error.

Definition class_of (e : exception) : exception_class :=
  match e with
  | empty_pool_name_in_ctor => hpx_bad_parameter
  | pu_index_out_of_bounds => hpx_bad_parameter
  | pu_without_thread_occupancy _ => hpx_invalid_status
  | default_pool_without_threads => hpx_invalid_status
  | empty_pools_not_allowed => hpx_invalid_status
  | bad_queuing_option => hpx_command_line_error
  | empty_pool_name => std_invalid_argument
  | pool_already_exists _ => std_invalid_argument
  | dynamic_pools_not_enabled => std_invalid_argument
  | more_threads_than_os_threads _ _ => std_runtime_error
  | pu_occupancy_exhausted _ _ => std_runtime_error
  | unspecified_scheduler_type _ => std_invalid_argument
  | dynamic_pools_not_enabled_for_partitioner => hpx_bad_parameter
  | no_non_exclusive_pus _ => hpx_bad_parameter
  | no_pool_of_that_name _ => hpx_bad_parameter
  end.

(** The error kinds of the design document. *)
Inductive error_kind : Type :=
  InvalidStatus | BadParameter | CommandLineError | Runtime.

(** An invalid argument, reported through HPX or through the standard
    library, is a [BadParameter]; [std::runtime_error] is [Runtime]. *)
Definition kind_of (e : exception) : error_kind :=
  match class_of e with
  | hpx_bad_parameter | std_invalid_argument => BadParameter
  | hpx_invalid_status => InvalidStatus
  | hpx_command_line_error => CommandLineError
  | std_runtime_error => Runtime
  end.

(** How a call ends. *)
Inductive outcome (A : Type) : Type :=
  | Return (a : A)
  | Throw (e : exception)
  | Undefined.

Arguments Return {A} a.
Arguments Throw {A} e.
Arguments Undefined {A}.

(** The [throw]s of the getters that take the index of a pool, and how
    such a getter ends. *)
Inductive index_exception : Type :=
  | pool_index_too_large (pool_index num_pools : N)
      (* partitioner::get_pool_data(l, pool_index), throw_invalid_argument *)
  | pool_requested_out_of_bounds (index num_pools : N)
      (* partitioner::get_pool_name, throw_invalid_argument *)
  | pool_creator_out_of_bounds
      (* partitioner::get_pool_creator, std::invalid_argument *).

Definition index_class_of (e : index_exception) : exception_class :=
  match e with
  | pool_index_too_large _ _ => hpx_bad_parameter
  | pool_requested_out_of_bounds _ _ => hpx_bad_parameter
  | pool_creator_out_of_bounds => std_invalid_argument
  end.

Inductive indexed (A : Type) : Type :=
  | Found (a : A)
  | OutOfBounds (e : index_exception).

Arguments Found {A} a.
Arguments OutOfBounds {A} e.

(** How a call ends in a build with [HPX_DEBUG]: an [HPX_ASSERT] whose
    condition is false ends the program; otherwise the call ends as it does
    without the assertions. *)
Inductive checked (A : Type) : Type :=
  | Passed (a : A)
  | AssertionFailed.

Arguments Passed {A} a.
Arguments AssertionFailed {A}.

(** ** Bit masks *)

(** Modelled from the spec: [threads::mask_type] and its operations (the
    topology headers are not among the sources).  A PU-mask is a vector of
    bits, one per processing unit; [resize] sets the number of bits, [set]
    raises one bit, [reset] clears every bit and [any] tests for a raised
    bit.  [set] with an index beyond the size is outside the contract of
    the operation; the embedding leaves the mask as it is there. *)
Abbreviation mask_type := (list bool).

(** Modelled from the spec: [threads::resize(mask, n)]. *)
Definition threads_resize (m : mask_type) (n : N) : mask_type :=
  resize (N.to_nat n) false m.

(** Modelled from the spec: [threads::set(mask, idx)]. *)
Definition threads_set (m : mask_type) (idx : N) : mask_type :=
  <[N.to_nat idx := true]> m.

(** Modelled from the spec: [threads::reset(mask)]. *)
Definition threads_reset (m : mask_type) : mask_type :=
  replicate (length m) false.

(** Modelled from the spec: [threads::test(mask, idx)]. *)
Definition threads_test (m : mask_type) (idx : N) : bool :=
  default false (m !! N.to_nat idx).

(** Modelled from the spec: [threads::any(mask)]. *)
Definition threads_any (m : mask_type) : bool := existsb id m.

(** Modelled from the spec: the operators [|] and [&] on masks. *)
Definition mask_or (a b : mask_type) : mask_type := zip_with orb a b.

Definition mask_and (a b : mask_type) : mask_type := zip_with andb a b.

(** ** The configuration store *)

(** Modelled from the spec: the Config Store ([hpx::util::section]), a
    mapping of hierarchical keys to string values.  [get_entry] returns the
    value of a key or the default given; [get_entry_as] reads the value as
    an unsigned decimal number and returns the default when the entry is
    missing, empty or not such a number. *)
Abbreviation section := (gmap string string).

(** Modelled from the spec: [section::get_entry(key, default)]. *)
Definition get_entry (cfg : section) (key dflt : string) : string :=
  default dflt (cfg !! key).

(** Modelled from the spec: [hpx::util::from_string<std::size_t>]. *)
Definition from_string_size_t (s : string) (dflt : N) : N :=
  if decide (s = "") then dflt
  else match NilEmpty.uint_of_string s with
       | Some d => let n := N.of_uint d in
                   if n <? size_t_modulus then n else dflt
       | None => dflt
       end.

(** Modelled from the spec: [util::get_entry_as<std::size_t>]. *)
Definition get_entry_as_size_t (cfg : section) (key : string) (dflt : N) : N :=
  from_string_size_t (get_entry cfg key "") dflt.

(** The entries [runtime_configuration::pre_initialize_ini] adds under
    [hpx] as placeholders "for keys to be added by command line handling"
    (those given as plain values). *)
Definition default_entries : section :=
  list_to_map
    [ ("hpx.cores", "all"); ("hpx.localities", "1"); ("hpx.first_pu", "0");
      ("hpx.runtime_mode", "console");
      ("hpx.scheduler", "local-priority-fifo");
      ("hpx.affinity", "core"); ("hpx.pu_step", "1"); ("hpx.pu_offset", "0");
      ("hpx.numa_sensitive", "0"); ("hpx.loopback_network", "0") ]%string.

(** ** Scheduling policies, modes and closures *)

(** [hpx::resource::scheduling_policy] *)
Inductive scheduling_policy : Type :=
  | user_defined
  | unspecified
  | local
  | local_priority_fifo
  | local_priority_lifo
  | static_
  | static_priority
  | abp_priority_fifo
  | abp_priority_lifo
  | shared_priority
  | local_workrequesting_fifo
  | local_workrequesting_lifo
  | local_workrequesting_mc.

Global Instance scheduling_policy_eq_dec : EqDecision scheduling_policy.
Proof. solve_decision. Defined.

(** [hpx::threads::policies::scheduler_mode], a set of flags. *)
Definition scheduler_mode : Type := N.

(** The partitioner never calls the closures it stores; a closure is
    identified by a tag, and [None] is the empty [hpx::function]. *)
Definition background_work_function : Type := option N.
Definition scheduler_function : Type := option N.

(** Modelled from the spec: [hpx::resource::partitioner_mode], the mode
    flags { default_, allow_oversubscription, allow_dynamic_pools } (the
    enumeration is declared in a header that is not among the sources);
    one bit per flag. *)
Definition partitioner_mode : Type := N.
Definition mode_default_ : partitioner_mode := 0.
Definition allow_oversubscription : partitioner_mode := 1.
Definition allow_dynamic_pools : partitioner_mode := 2.

Definition as_bool (m : partitioner_mode) : bool := negb (m =? 0).

(** ** The topology mirror *)

(** The back pointers ([pu::core_], [core::domain_]) are not followed by
    any function of the file and are left out. *)
Record pu : Type := mk_pu {
  id_ : N;
  thread_occupancy_ : N;
  thread_occupancy_count_ : N   (* mutable *)
}.

Record core : Type := mk_core {
  core_id_ : N;
  pus_ : list pu
}.

Record numa_domain : Type := mk_numa_domain {
  domain_id_ : N;
  cores_ : list core
}.

(** The PUs of the mirror in iteration order: domains in order, the cores
    of a domain in order, the PUs of a core in order. *)
Definition mirror_pus (ds : list numa_domain) : list pu :=
  d ← ds; c ← cores_ d; pus_ c.

(** ** Pool data *)

(** One entry of [assigned_pu_nums_]: [(pu_id, exclusive, assigned)]. *)
Abbreviation pu_entry := (N * bool * bool)%type.

Definition entry_pu_id (e : pu_entry) : N := e.1.1.
Definition entry_exclusive (e : pu_entry) : bool := e.1.2.
Definition entry_assigned (e : pu_entry) : bool := e.2.

Record init_pool_data : Type := mk_init_pool_data {
  pool_name_ : string;
  scheduling_policy_ : scheduling_policy;
  assigned_pus_ : list mask_type;
  assigned_pu_nums_ : list pu_entry;
  num_threads_ : N;
  pool_mode_ : scheduler_mode;             (* init_pool_data::mode_ *)
  create_function_ : scheduler_function;
  background_work_ : background_work_function
}.

Definition set_scheduling_policy_ (sched : scheduling_policy)
    (d : init_pool_data) : init_pool_data :=
  mk_init_pool_data (pool_name_ d) sched (assigned_pus_ d)
    (assigned_pu_nums_ d) (num_threads_ d) (pool_mode_ d)
    (create_function_ d) (background_work_ d).

Definition set_assigned_pu_nums_ (nums : list pu_entry)
    (d : init_pool_data) : init_pool_data :=
  mk_init_pool_data (pool_name_ d) (scheduling_policy_ d) (assigned_pus_ d)
    nums (num_threads_ d) (pool_mode_ d)
    (create_function_ d) (background_work_ d).

Definition set_assignment (masks : list mask_type) (nums : list pu_entry)
    (n : N) (d : init_pool_data) : init_pool_data :=
  mk_init_pool_data (pool_name_ d) (scheduling_policy_ d) masks
    nums n (pool_mode_ d) (create_function_ d) (background_work_ d).

(** ** The affinity map *)

(** Modelled from the spec: the Affinity Map
    ([hpx::threads::policies::detail::affinity_data], not among the
    sources): it "owns the vector of PU-masks and PU-numbers indexed by
    global worker id" and answers "which PU does worker k run on".  The
    thread occupancy of a PU is "how many logical workers a single PU is
    allowed to host": the number of workers whose mask holds the PU.  The
    used-PUs mask is the union of the workers' masks. *)
Record affinity_data : Type := mk_affinity_data {
  affinity_num_threads_ : N;
  affinity_pu_nums_ : list N;
  affinity_masks_ : list mask_type;
  affinity_pus_needed_ : N
}.

(** Modelled from the spec: the setters [reconfigure_affinities] calls. *)
Definition set_num_threads (n : N) (a : affinity_data) : affinity_data :=
  mk_affinity_data n (affinity_pu_nums_ a) (affinity_masks_ a)
    (affinity_pus_needed_ a).

Definition set_pu_nums (nums : list N) (a : affinity_data) : affinity_data :=
  mk_affinity_data (affinity_num_threads_ a) nums (affinity_masks_ a)
    (affinity_pus_needed_ a).

Definition set_affinity_masks (masks : list mask_type) (a : affinity_data)
    : affinity_data :=
  mk_affinity_data (affinity_num_threads_ a) (affinity_pu_nums_ a) masks
    (affinity_pus_needed_ a).

(** Modelled from the spec: [affinity_data::get_num_pus_needed]. *)
Definition get_num_pus_needed (a : affinity_data) : N :=
  affinity_pus_needed_ a.

(** Modelled from the spec: [affinity_data::get_pu_num], the PU number of
    a worker (0 for a worker the map does not know). *)
Definition affinity_get_pu_num (a : affinity_data) (num_thread : N) : N :=
  default 0 (affinity_pu_nums_ a !! N.to_nat num_thread).

(** ** The partitioner *)

(** Modelled from the spec: the Topology Provider ([threads::topology]),
    seen through the operations the partitioner calls. *)
Record topology : Type := mk_topology {
  get_number_of_pus : N;
  get_number_of_numa_nodes : N;
  get_number_of_sockets : N;
  get_number_of_numa_node_cores : N → N;
  get_number_of_core_pus : N → N
}.

(** [num_threads_overall] is the static member of [init_pool_data]; it is
    kept with the state of the one partitioner of the process. *)
Record partitioner : Type := mk_partitioner {
  first_core_ : N;
  pus_needed_ : N;
  mode_ : partitioner_mode;
  topo_ : topology;
  default_scheduler_mode_ : scheduler_mode;
  rtcfg_ : section;
  affinity_data_ : affinity_data;
  numa_domains_ : list numa_domain;
  initial_thread_pools_ : list init_pool_data;
  is_initialized_ : bool;
  num_threads_overall : N
}.

Definition set_initial_thread_pools_ (pools : list init_pool_data)
    (s : partitioner) : partitioner :=
  mk_partitioner (first_core_ s) (pus_needed_ s) (mode_ s) (topo_ s)
    (default_scheduler_mode_ s) (rtcfg_ s) (affinity_data_ s)
    (numa_domains_ s) pools (is_initialized_ s) (num_threads_overall s).

Definition set_num_threads_overall (n : N) (s : partitioner) : partitioner :=
  mk_partitioner (first_core_ s) (pus_needed_ s) (mode_ s) (topo_ s)
    (default_scheduler_mode_ s) (rtcfg_ s) (affinity_data_ s)
    (numa_domains_ s) (initial_thread_pools_ s) (is_initialized_ s) n.

Definition set_numa_domains_ (ds : list numa_domain) (s : partitioner)
    : partitioner :=
  mk_partitioner (first_core_ s) (pus_needed_ s) (mode_ s) (topo_ s)
    (default_scheduler_mode_ s) (rtcfg_ s) (affinity_data_ s)
    ds (initial_thread_pools_ s) (is_initialized_ s) (num_threads_overall s).

Definition set_affinity_data_ (a : affinity_data) (s : partitioner)
    : partitioner :=
  mk_partitioner (first_core_ s) (pus_needed_ s) (mode_ s) (topo_ s)
    (default_scheduler_mode_ s) (rtcfg_ s) a
    (numa_domains_ s) (initial_thread_pools_ s) (is_initialized_ s)
    (num_threads_overall s).

Definition set_first_core_ (n : N) (s : partitioner) : partitioner :=
  mk_partitioner n (pus_needed_ s) (mode_ s) (topo_ s)
    (default_scheduler_mode_ s) (rtcfg_ s) (affinity_data_ s)
    (numa_domains_ s) (initial_thread_pools_ s) (is_initialized_ s)
    (num_threads_overall s).

Definition set_pus_needed_ (n : N) (s : partitioner) : partitioner :=
  mk_partitioner (first_core_ s) n (mode_ s) (topo_ s)
    (default_scheduler_mode_ s) (rtcfg_ s) (affinity_data_ s)
    (numa_domains_ s) (initial_thread_pools_ s) (is_initialized_ s)
    (num_threads_overall s).

Definition set_is_initialized_ (b : bool) (s : partitioner) : partitioner :=
  mk_partitioner (first_core_ s) (pus_needed_ s) (mode_ s) (topo_ s)
    (default_scheduler_mode_ s) (rtcfg_ s) (affinity_data_ s)
    (numa_domains_ s) (initial_thread_pools_ s) b (num_threads_overall s).

Definition dynamic_pools_allowed (s : partitioner) : bool :=
  as_bool (N.land (mode_ s) allow_dynamic_pools).

Definition oversubscription_allowed (s : partitioner) : bool :=
  as_bool (N.land (mode_ s) allow_oversubscription).

(** ** The member functions *)

Section Partitioner.

(** [hpx::threads::hardware_concurrency()], the build option
    [HPX_HAVE_WORK_REQUESTING_SCHEDULERS] and the constant
    [threads::policies::scheduler_mode::default_]. *)
Variable hardware_concurrency : N.
Variable HPX_HAVE_WORK_REQUESTING_SCHEDULERS : bool.
Variable scheduler_mode_default_ : scheduler_mode.

(** *** init_pool_data *)

(** The two constructors: with a scheduling policy, and with a scheduler
    factory (the policy is then [user_defined]). *)
Definition init_pool_data_ctor (name : string) (sched : scheduling_policy)
    (mode : scheduler_mode) (func : background_work_function)
    : outcome init_pool_data :=
  if decide (name = "") then Throw empty_pool_name_in_ctor
  else Return (mk_init_pool_data name sched [] [] 0 mode None func).

Definition init_pool_data_ctor_user (name : string)
    (create_func : scheduler_function) (mode : scheduler_mode)
    (func : background_work_function) : outcome init_pool_data :=
  if decide (name = "") then Throw empty_pool_name_in_ctor
  else Return (mk_init_pool_data name user_defined [] [] 0 mode
                 create_func func).

(** The mask [add_resource] and the queries build: [resize] to the number
    of PUs of the machine, then [set]. *)
Definition one_hot_mask (pu_index : N) : mask_type :=
  threads_set (threads_resize [] hardware_concurrency) pu_index.

(** [init_pool_data::add_resource]; the state is the pool and the static
    counter [num_threads_overall]. *)
Definition init_pool_data_add_resource (pu_index : N) (exclusive : bool)
    (num_threads : N) (st : init_pool_data * N)
    : (init_pool_data * N) * outcome unit :=
  let '(d, overall) := st in
  if hardware_concurrency <=? pu_index then (st, Throw pu_index_out_of_bounds)
  else
    let pu_mask := one_hot_mask pu_index in
    let k := N.to_nat num_threads in
    (set_assignment
       (assigned_pus_ d ++ replicate k pu_mask)
       (assigned_pu_nums_ d ++ replicate k (pu_index, exclusive, false))
       (wrap (num_threads_ d + num_threads)) d,
     wrap (overall + num_threads),
     Return ()).

(** The two assertions of [assign_pu] (and of [unassign_pu], whose second
    assertion is the opposite). *)
Definition assert_virt_core (virt_core : N) (d : init_pool_data) : bool :=
  virt_core <=? N.of_nat (length (assigned_pu_nums_ d)).

Definition assert_not_assigned (virt_core : N) (d : init_pool_data) : bool :=
  match assigned_pu_nums_ d !! N.to_nat virt_core with
  | Some e => negb (entry_assigned e)
  | None => false
  end.

(** [assigned_pu_nums_[virt_core]] designates an element of the vector. *)
Definition access_in_bounds (virt_core : N) (d : init_pool_data) : Prop :=
  virt_core < N.of_nat (length (assigned_pu_nums_ d)).

Definition set_assigned (b : bool) (e : pu_entry) : pu_entry :=
  (entry_pu_id e, entry_exclusive e, b).

Definition init_pool_data_assign_pu (virt_core : N) (d : init_pool_data)
    : init_pool_data * outcome unit :=
  match assigned_pu_nums_ d !! N.to_nat virt_core with
  | Some e =>
      (set_assigned_pu_nums_
         (<[N.to_nat virt_core := set_assigned true e]> (assigned_pu_nums_ d))
         d,
       Return ())
  | None => (d, Undefined)
  end.

Definition init_pool_data_unassign_pu (virt_core : N) (d : init_pool_data)
    : init_pool_data * outcome unit :=
  match assigned_pu_nums_ d !! N.to_nat virt_core with
  | Some e =>
      (set_assigned_pu_nums_
         (<[N.to_nat virt_core := set_assigned false e]> (assigned_pu_nums_ d))
         d,
       Return ())
  | None => (d, Undefined)
  end.

(** [pu_is_exclusive] and [pu_is_assigned] as built without [HPX_DEBUG];
    both assert, in debug builds, that the entry is assigned
    ([pu_is_exclusive_debug] and [pu_is_assigned_debug] below have the
    assertions). *)
Definition pu_is_exclusive (virt_core : N) (d : init_pool_data)
    : outcome bool :=
  match assigned_pu_nums_ d !! N.to_nat virt_core with
  | Some e => Return (entry_exclusive e)
  | None => Undefined
  end.

Definition pu_is_assigned (virt_core : N) (d : init_pool_data)
    : outcome bool :=
  match assigned_pu_nums_ d !! N.to_nat virt_core with
  | Some e => Return (entry_assigned e)
  | None => Undefined
  end.

(** The loop of [assign_first_core]: [count] iterations are left, [i] is
    the loop variable. *)
Fixpoint assign_first_core_loop (first_core : N) (count i : nat)
    (masks : list mask_type) (nums : list pu_entry)
    : option (list mask_type * list pu_entry) :=
  match count with
  | O => Some (masks, nums)
  | S count' =>
      match nums !! i, masks !! i with
      | Some e, Some m =>
          let pu_num := wrap (entry_pu_id e + first_core)
                          mod hardware_concurrency in
          assign_first_core_loop first_core count' (S i)
            (<[i := threads_set (threads_reset m) pu_num]> masks)
            (<[i := (pu_num, entry_exclusive e, entry_assigned e)]> nums)
      | _, _ => None
      end
  end.

Definition assign_first_core (first_core : N) (d : init_pool_data)
    : init_pool_data * outcome unit :=
  match assign_first_core_loop first_core (N.to_nat (num_threads_ d)) 0
          (assigned_pus_ d) (assigned_pu_nums_ d) with
  | Some (masks, nums) => (set_assignment masks nums (num_threads_ d) d, Return ())
  | None => (d, Undefined)
  end.

(** *** partitioner: construction and lookup *)

(** The constructor (without the instance counter and the check of
    [HPX_HAVE_MAX_CPU_COUNT]); the configuration is still empty there, so
    [hpx.default_scheduler_mode] is read as the empty string and the
    default mode stays [scheduler_mode::default_]. *)
Definition partitioner_ctor (topo : topology) : partitioner :=
  let rtcfg : section := ∅ in
  let default_scheduler_mode_str :=
    get_entry rtcfg "hpx.default_scheduler_mode" "" in
  let default_scheduler_mode :=
    if decide (default_scheduler_mode_str = "") then scheduler_mode_default_
    else from_string_size_t default_scheduler_mode_str 0 in
  mk_partitioner size_t_minus_one size_t_minus_one mode_default_ topo
    default_scheduler_mode rtcfg
    (mk_affinity_data 0 [] [] 0) []
    [mk_init_pool_data "default" unspecified [] [] 0 default_scheduler_mode
       None None]
    false 0.

(** Modelled from the spec: [get_default_pool_name] (defined in the class
    declaration, which is not among the sources).  The default pool is the
    pool at index 0; it "may be renamed but is still addressable as
    "default"": its name is the name stored at index 0. *)
Definition get_default_pool_name (s : partitioner) : string :=
  match initial_thread_pools_ s with
  | d :: _ => pool_name_ d
  | [] => "default"
  end.

(** [get_pool_data(l, pool_name)]: [std::find_if] by name.  The reference
    it returns is the position of the pool in [initial_thread_pools_]. *)
Definition get_pool_data (pool_name : string) (s : partitioner)
    : outcome (nat * init_pool_data) :=
  match list_find (λ itp, pool_name_ itp = pool_name)
          (initial_thread_pools_ s) with
  | Some found => Return found
  | None => Throw (no_pool_of_that_name pool_name)
  end.

Definition get_pool_index (pool_name : string) (s : partitioner)
    : outcome N :=
  if decide (pool_name = "default") then Return 0
  else
    match list_find (λ itp, pool_name_ itp = pool_name)
            (initial_thread_pools_ s) with
    | Some (i, _) => Return (N.of_nat i)
    | None => Throw (no_pool_of_that_name pool_name)
    end.

(** Writing through the reference [get_pool_data] returned. *)
Definition put_pool_data (i : nat) (d : init_pool_data) (s : partitioner)
    : partitioner :=
  set_initial_thread_pools_ (<[i := d]> (initial_thread_pools_ s)) s.

(** *** partitioner: pools and resources *)

(** The loop of [create_thread_pool] that looks for a pool of the same
    name, from index 1 on. *)
Definition name_taken (pool_name : string) (s : partitioner) : bool :=
  bool_decide (pool_name ∈ pool_name_ <$> drop 1 (initial_thread_pools_ s)).

Definition create_thread_pool (pool_name : string) (sched : scheduling_policy)
    (mode : scheduler_mode) (func : background_work_function)
    (s : partitioner) : partitioner * outcome unit :=
  if decide (pool_name = "") then (s, Throw empty_pool_name)
  else if decide (pool_name = get_default_pool_name s) then
    match init_pool_data_ctor (get_default_pool_name s) sched mode func with
    | Return d =>
        match initial_thread_pools_ s with
        | [] => (s, Undefined)
        | _ :: _ => (put_pool_data 0 d s, Return ())
        end
    | Throw e => (s, Throw e)
    | Undefined => (s, Undefined)
    end
  else if name_taken pool_name s then (s, Throw (pool_already_exists pool_name))
  else
    match init_pool_data_ctor pool_name sched mode func with
    | Return d =>
        (set_initial_thread_pools_ (initial_thread_pools_ s ++ [d]) s,
         Return ())
    | Throw e => (s, Throw e)
    | Undefined => (s, Undefined)
    end.

Definition create_thread_pool_user (pool_name : string)
    (scheduler_creation : scheduler_function)
    (func : background_work_function)
    (s : partitioner) : partitioner * outcome unit :=
  if decide (pool_name = "") then (s, Throw empty_pool_name)
  else if decide (pool_name = get_default_pool_name s) then
    match init_pool_data_ctor_user (get_default_pool_name s)
            scheduler_creation (default_scheduler_mode_ s) func with
    | Return d =>
        match initial_thread_pools_ s with
        | [] => (s, Undefined)
        | _ :: _ => (put_pool_data 0 d s, Return ())
        end
    | Throw e => (s, Throw e)
    | Undefined => (s, Undefined)
    end
  else if name_taken pool_name s then (s, Throw (pool_already_exists pool_name))
  else
    match init_pool_data_ctor_user pool_name scheduler_creation
            (default_scheduler_mode_ s) func with
    | Return d =>
        (set_initial_thread_pools_ (initial_thread_pools_ s ++ [d]) s,
         Return ())
    | Throw e => (s, Throw e)
    | Undefined => (s, Undefined)
    end.

(** [get_pool_data(l, pool_name).add_resource(p.id_, exclusive, num_threads)] *)
Definition add_resource_to_pool (pu_index : N) (pool_name : string)
    (exclusive : bool) (num_threads : N) (s : partitioner)
    : partitioner * outcome unit :=
  match get_pool_data pool_name s with
  | Return (i, d) =>
      let '(d', overall', r) :=
        init_pool_data_add_resource pu_index exclusive num_threads
          (d, num_threads_overall s) in
      (set_num_threads_overall overall' (put_pool_data i d' s), r)
  | Throw e => (s, Throw e)
  | Undefined => (s, Undefined)
  end.

(** [++p.thread_occupancy_count_] *)
Definition increment_occupancy_count (p : pu) : pu :=
  mk_pu (id_ p) (thread_occupancy_ p) (wrap (thread_occupancy_count_ p + 1)).

(** [partitioner::add_resource(pu const& p, ...)].  The PU is passed by
    reference and its counter is [mutable]: the state of the call is the PU
    and the partitioner. *)
Definition add_resource (p : pu) (pool_name : string) (exclusive : bool)
    (num_threads : N) (s : partitioner) : (pu * partitioner) * outcome unit :=
  if negb exclusive && negb (dynamic_pools_allowed s) then
    (p, s, Throw dynamic_pools_not_enabled)
  else if oversubscription_allowed s then
    match add_resource_to_pool (id_ p) pool_name exclusive num_threads s with
    | (s', Return _) => (increment_occupancy_count p, s', Return ())
    | (s', r) => (p, s', r)
    end
  else if thread_occupancy_count_ p =? 0 then
    match add_resource_to_pool (id_ p) pool_name exclusive num_threads s with
    | (s', Return _) =>
        let p' := increment_occupancy_count p in
        let num_os_threads := get_entry_as_size_t (rtcfg_ s) "hpx.os_threads" 0 in
        if num_os_threads <? num_threads_overall s' then
          (p', s',
           Throw (more_threads_than_os_threads (num_threads_overall s')
                    num_os_threads))
        else (p', s', Return ())
    | (s', r) => (p, s', r)
    end
  else
    (p, s, Throw (pu_occupancy_exhausted (id_ p) (thread_occupancy_ p))).

Definition set_scheduler (sched : scheduling_policy) (pool_name : string)
    (s : partitioner) : partitioner * outcome unit :=
  match get_pool_data pool_name s with
  | Return (i, d) => (put_pool_data i (set_scheduling_policy_ sched d) s, Return ())
  | Throw e => (s, Throw e)
  | Undefined => (s, Undefined)
  end.

(** *** partitioner: the init driver *)

(** A range-based [for] loop over references to the elements of a vector,
    with a state threaded through the body; an exception or an undefined
    step in the body ends the loop and leaves the rest untouched. *)
Fixpoint for_each {A St : Type} (body : A → St → (A * St) * outcome unit)
    (l : list A) (st : St) : (list A * St) * outcome unit :=
  match l with
  | [] => ([], st, Return ())
  | x :: rest =>
      match body x st with
      | (x', st', Return _) =>
          let '(rest', st'', r) := for_each body rest st' in
          (x' :: rest', st'', r)
      | (x', st', r) => (x' :: rest, st', r)
      end
  end.

(** The body of the innermost loop of [setup_pools]; the state is the
    local [first] and the partitioner. *)
Definition setup_pools_pu (p : pu) (st : bool * partitioner)
    : (pu * (bool * partitioner)) * outcome unit :=
  let '(first, s) := st in
  if thread_occupancy_count_ p =? 0 then
    match add_resource p (get_default_pool_name s)
            (first || negb (dynamic_pools_allowed s)) 1 s with
    | (p', s', Return _) => (p', (false, s'), Return ())
    | (p', s', r) => (p', (first, s'), r)
    end
  else (p, st, Return ()).

Definition setup_pools_core (c : core) (st : bool * partitioner)
    : (core * (bool * partitioner)) * outcome unit :=
  let '(pus', st', r) := for_each setup_pools_pu (pus_ c) st in
  (mk_core (core_id_ c) pus', st', r).

Definition setup_pools_domain (d : numa_domain) (st : bool * partitioner)
    : (numa_domain * (bool * partitioner)) * outcome unit :=
  let '(cores', st', r) := for_each setup_pools_core (cores_ d) st in
  (mk_numa_domain (domain_id_ d) cores', st', r).

(** The three nested loops.  [numa_domains_] is a member of the
    partitioner that [add_resource] does not touch; the PUs the loops
    visit are written back into it. *)
Definition setup_pools_fill (s : partitioner) : partitioner * outcome unit :=
  let '(ds', (_, s'), r) :=
    for_each setup_pools_domain (numa_domains_ s) (true, s) in
  (set_numa_domains_ ds' s', r).

Definition check_empty_pools (s : partitioner) : bool :=
  existsb
    (λ itp, match assigned_pus_ itp with
            | [] => true
            | _ => existsb (λ m, negb (threads_any m)) (assigned_pus_ itp)
            end)
    (initial_thread_pools_ s).

Definition setup_pools (s : partitioner) : partitioner * outcome unit :=
  match setup_pools_fill s with
  | (s', Return _) =>
      match get_pool_data (get_default_pool_name s') s' with
      | Return (_, d) =>
          if num_threads_ d =? 0 then (s', Throw default_pool_without_threads)
          else if check_empty_pools s' then (s', Throw empty_pools_not_allowed)
          else (s', Return ())
      | Throw e => (s', Throw e)
      | Undefined => (s', Undefined)
      end
  | (s', r) => (s', r)
  end.

(** [0 == std::string(known).find(user)] *)
Definition found_at_0 (known user : string) : bool :=
  bool_decide (String.index 0 user known = Some 0%nat).

(** The chain of tests of [setup_schedulers]. *)
Definition select_default_scheduler (default_scheduler_str : string)
    : outcome scheduling_policy :=
  if found_at_0 "local" default_scheduler_str then Return local
  else if found_at_0 "local-priority-fifo" default_scheduler_str then
    Return local_priority_fifo
  else if found_at_0 "local-priority-lifo" default_scheduler_str then
    Return local_priority_lifo
  else if HPX_HAVE_WORK_REQUESTING_SCHEDULERS
          && found_at_0 "local-workrequesting-fifo" default_scheduler_str then
    Return local_workrequesting_fifo
  else if HPX_HAVE_WORK_REQUESTING_SCHEDULERS
          && found_at_0 "local-workrequesting-lifo" default_scheduler_str then
    Return local_workrequesting_lifo
  else if HPX_HAVE_WORK_REQUESTING_SCHEDULERS
          && found_at_0 "local-workrequesting-mc" default_scheduler_str then
    Return local_workrequesting_mc
  else if found_at_0 "static" default_scheduler_str then Return static_
  else if found_at_0 "static-priority" default_scheduler_str then
    Return static_priority
  else if found_at_0 "abp-priority-fifo" default_scheduler_str then
    Return abp_priority_fifo
  else if found_at_0 "abp-priority-lifo" default_scheduler_str then
    Return abp_priority_lifo
  else if found_at_0 "shared-priority" default_scheduler_str then
    Return shared_priority
  else Throw bad_queuing_option.

(** The loop that sets the scheduler "on the pools that do not have a
    specified scheduler yet". *)
Definition set_default_scheduler (default_scheduler : scheduling_policy)
    (itp : init_pool_data) : init_pool_data :=
  if decide (scheduling_policy_ itp = unspecified)
  then set_scheduling_policy_ default_scheduler itp
  else itp.

Definition setup_schedulers (s : partitioner) : partitioner * outcome unit :=
  match select_default_scheduler (get_entry (rtcfg_ s) "hpx.scheduler" "") with
  | Return default_scheduler =>
      (set_initial_thread_pools_
         (set_default_scheduler default_scheduler <$> initial_thread_pools_ s) s,
       Return ())
  | Throw e => (s, Throw e)
  | Undefined => (s, Undefined)
  end.

Definition reconfigure_affinities_locked (s : partitioner) : partitioner :=
  let new_affinity_masks := itp ← initial_thread_pools_ s; assigned_pus_ itp in
  let new_pu_nums :=
    itp ← initial_thread_pools_ s; entry_pu_id <$> assigned_pu_nums_ itp in
  set_affinity_data_
    (set_affinity_masks new_affinity_masks
       (set_pu_nums new_pu_nums
          (set_num_threads (N.of_nat (length new_pu_nums)) (affinity_data_ s))))
    s.

Definition reconfigure_affinities (s : partitioner) : partitioner :=
  reconfigure_affinities_locked s.

Definition configure_pools (s : partitioner) : partitioner * outcome unit :=
  match setup_pools s with
  | (s1, Return _) =>
      match setup_schedulers s1 with
      | (s2, Return _) =>
          (set_is_initialized_ true (reconfigure_affinities s2), Return ())
      | (s2, r) => (s2, r)
      end
  | (s1, r) => (s1, r)
  end.

(** *** partitioner: the first-core shift *)

Definition threads_needed (s : partitioner) : partitioner * N :=
  if pus_needed_ s =? size_t_minus_one then
    let n := get_num_pus_needed (affinity_data_ s) in (set_pus_needed_ n s, n)
  else (s, pus_needed_ s).

(** [for (auto& d : initial_thread_pools_) d.assign_first_core(offset);] *)
Definition assign_first_core_all (offset : N) (pools : list init_pool_data)
    : list init_pool_data * outcome unit :=
  let '(pools', _, r) :=
    for_each (λ d (_ : unit), let '(d', r) := assign_first_core offset d in
                              (d', (), r)) pools () in
  (pools', r).

Definition assign_cores (first_core : N) (s : partitioner)
    : partitioner * outcome N :=
  if decide (first_core_ s ≠ first_core) then
    let offset := first_core in
    let num_pus_core := get_number_of_core_pus (topo_ s) offset in
    let offset :=
      if decide (first_core_ s ≠ size_t_minus_one)
      then sub_size_t offset (first_core_ s) else offset in
    let '(pools, r) :=
      if decide (offset ≠ 0)
      then assign_first_core_all (wrap (offset * num_pus_core))
             (initial_thread_pools_ s)
      else (initial_thread_pools_ s, Return ()) in
    match r with
    | Return _ =>
        let s1 := set_first_core_ first_core (set_initial_thread_pools_ pools s) in
        let '(s2, n) := threads_needed (reconfigure_affinities_locked s1) in
        (s2, Return n)
    | Throw e => (set_initial_thread_pools_ pools s, Throw e)
    | Undefined => (set_initial_thread_pools_ pools s, Undefined)
    end
  else let '(s', n) := threads_needed s in (s', Return n).

(** *** partitioner: queries *)

(** Modelled from the spec: [affinity_data::get_pu_mask], the mask of a
    worker (the empty mask for a worker the map does not know). *)
Definition affinity_get_pu_mask (a : affinity_data) (num_thread : N)
    : mask_type :=
  default (threads_resize [] hardware_concurrency)
    (affinity_masks_ a !! N.to_nat num_thread).

(** Modelled from the spec: [affinity_data::get_used_pus_mask], the union
    of the masks of the workers. *)
Definition affinity_get_used_pus_mask (a : affinity_data) (pu_num : N)
    : mask_type :=
  foldr mask_or (threads_resize [] hardware_concurrency) (affinity_masks_ a).

(** Modelled from the spec: [affinity_data::get_thread_occupancy], the
    number of workers whose mask holds the PU. *)
Definition affinity_get_thread_occupancy (a : affinity_data) (pu_num : N) : N :=
  N.of_nat (length (filter (λ m, threads_test m pu_num = true)
                      (affinity_masks_ a))).

Definition get_pu_num (global_thread_num : N) (s : partitioner) : N :=
  if is_initialized_ s
  then affinity_get_pu_num (affinity_data_ s) global_thread_num
  else global_thread_num.

Definition get_thread_occupancy (pu_num : N) (s : partitioner) : N :=
  affinity_get_thread_occupancy (affinity_data_ s) pu_num.

Definition get_used_pus_mask (pu_num : N) (s : partitioner) : mask_type :=
  if is_initialized_ s
  then affinity_get_used_pus_mask (affinity_data_ s) pu_num
  else threads_set (threads_resize [] hardware_concurrency) pu_num.

Definition get_pu_mask (global_thread_num : N) (s : partitioner) : mask_type :=
  if is_initialized_ s
  then affinity_get_pu_mask (affinity_data_ s) global_thread_num
  else threads_set (threads_resize [] hardware_concurrency) global_thread_num.

Definition which_scheduler (pool_name : string) (s : partitioner)
    : outcome scheduling_policy :=
  match get_pool_data pool_name s with
  | Return (_, d) =>
      if decide (scheduling_policy_ d = unspecified)
      then Throw (unspecified_scheduler_type pool_name)
      else Return (scheduling_policy_ d)
  | Throw e => Throw e
  | Undefined => Undefined
  end.

(** *** partitioner: dynamic pools *)

Definition assign_pu (pool_name : string) (virt_core : N) (s : partitioner)
    : partitioner * outcome unit :=
  match get_pool_data pool_name s with
  | Return (i, data) =>
      let '(data', r) := init_pool_data_assign_pu virt_core data in
      (put_pool_data i data' s, r)
  | Throw e => (s, Throw e)
  | Undefined => (s, Undefined)
  end.

(** [try_lock] is what [l.try_lock()] returns: whether the mutex was free
    at the call. *)
Definition unassign_pu (try_lock : bool) (pool_name : string) (virt_core : N)
    (s : partitioner) : partitioner * outcome unit :=
  if try_lock then
    match get_pool_data pool_name s with
    | Return (i, data) =>
        let '(data', r) := init_pool_data_unassign_pu virt_core data in
        (put_pool_data i data' s, r)
    | Throw e => (s, Throw e)
    | Undefined => (s, Undefined)
    end
  else (s, Return ()).

(** The scan of [shrink_pool] ([want_assigned = true]) and of
    [expand_pool] ([want_assigned = false]): [count] iterations are left,
    [i] is the loop variable, the other two arguments are the locals
    [has_non_exclusive_pus] and [pu_nums_to_remove] ([pu_nums_to_add]). *)
Fixpoint scan_pool_loop (want_assigned : bool) (data : init_pool_data)
    (count i : nat) (has_non_exclusive_pus : bool) (pu_nums : list N)
    : outcome (bool * list N) :=
  match count with
  | O => Return (has_non_exclusive_pus, pu_nums)
  | S count' =>
      match pu_is_exclusive (N.of_nat i) data with
      | Return true =>
          scan_pool_loop want_assigned data count' (S i)
            has_non_exclusive_pus pu_nums
      | Return false =>
          match pu_is_assigned (N.of_nat i) data with
          | Return assigned =>
              scan_pool_loop want_assigned data count' (S i) true
                (if bool_decide (assigned = want_assigned)
                 then pu_nums ++ [N.of_nat i] else pu_nums)
          | Throw e => Throw e
          | Undefined => Undefined
          end
      | Throw e => Throw e
      | Undefined => Undefined
      end
  end.

Definition scan_pool (want_assigned : bool) (pool_name : string)
    (s : partitioner) : list N * outcome N :=
  if negb (dynamic_pools_allowed s) then
    ([], Throw dynamic_pools_not_enabled_for_partitioner)
  else
    match get_pool_data pool_name s with
    | Return (_, data) =>
        match scan_pool_loop want_assigned data
                (N.to_nat (num_threads_ data)) 0 false [] with
        | Return (has_non_exclusive_pus, pu_nums) =>
            if negb has_non_exclusive_pus
            then ([], Throw (no_non_exclusive_pus pool_name))
            else (pu_nums, Return (N.of_nat (length pu_nums)))
        | Throw e => ([], Throw e)
        | Undefined => ([], Undefined)
        end
    | Throw e => ([], Throw e)
    | Undefined => ([], Undefined)
    end.

(** [shrink_pool] and [expand_pool] leave the partitioner as it is.  The
    first component of the result lists the arguments of the calls of the
    callback ([remove_pu], [add_pu]) in the order of the calls, the second
    is how the function ends. *)
Definition shrink_pool (pool_name : string) (s : partitioner)
    : list N * outcome N :=
  scan_pool true pool_name s.

Definition expand_pool (pool_name : string) (s : partitioner)
    : list N * outcome N :=
  scan_pool false pool_name s.

(** *** partitioner: dynamic pools, as built with [HPX_DEBUG] *)

(** [init_pool_data::assign_pu] and [init_pool_data::unassign_pu] with
    their assertions: [HPX_ASSERT(virt_core <= assigned_pu_nums_.size())],
    then [HPX_ASSERT(!hpx::get<2>(assigned_pu_nums_[virt_core]))] (for
    [unassign_pu] without the negation), which reads the entry. *)
Definition init_pool_data_assign_pu_debug (virt_core : N) (d : init_pool_data)
    : checked (init_pool_data * outcome unit) :=
  if negb (assert_virt_core virt_core d) then AssertionFailed
  else
    match assigned_pu_nums_ d !! N.to_nat virt_core with
    | Some e =>
        if entry_assigned e then AssertionFailed
        else Passed (init_pool_data_assign_pu virt_core d)
    | None => Passed (d, Undefined)
    end.

Definition init_pool_data_unassign_pu_debug (virt_core : N)
    (d : init_pool_data) : checked (init_pool_data * outcome unit) :=
  if negb (assert_virt_core virt_core d) then AssertionFailed
  else
    match assigned_pu_nums_ d !! N.to_nat virt_core with
    | Some e =>
        if entry_assigned e then Passed (init_pool_data_unassign_pu virt_core d)
        else AssertionFailed
    | None => Passed (d, Undefined)
    end.

(** [pu_is_exclusive] and [pu_is_assigned] with their assertions:
    [HPX_ASSERT(virt_core <= assigned_pu_nums_.size())], then
    [HPX_ASSERT(hpx::get<2>(assigned_pu_nums_[virt_core]))]. *)
Definition pu_is_exclusive_debug (virt_core : N) (d : init_pool_data)
    : checked (outcome bool) :=
  if negb (assert_virt_core virt_core d) then AssertionFailed
  else
    match assigned_pu_nums_ d !! N.to_nat virt_core with
    | Some e =>
        if entry_assigned e then Passed (Return (entry_exclusive e))
        else AssertionFailed
    | None => Passed Undefined
    end.

Definition pu_is_assigned_debug (virt_core : N) (d : init_pool_data)
    : checked (outcome bool) :=
  if negb (assert_virt_core virt_core d) then AssertionFailed
  else
    match assigned_pu_nums_ d !! N.to_nat virt_core with
    | Some e =>
        if entry_assigned e then Passed (Return (entry_assigned e))
        else AssertionFailed
    | None => Passed Undefined
    end.

Definition assign_pu_debug (pool_name : string) (virt_core : N)
    (s : partitioner) : checked (partitioner * outcome unit) :=
  match get_pool_data pool_name s with
  | Return (i, data) =>
      match init_pool_data_assign_pu_debug virt_core data with
      | Passed (data', r) => Passed (put_pool_data i data' s, r)
      | AssertionFailed => AssertionFailed
      end
  | Throw e => Passed (s, Throw e)
  | Undefined => Passed (s, Undefined)
  end.

Definition unassign_pu_debug (try_lock : bool) (pool_name : string)
    (virt_core : N) (s : partitioner) : checked (partitioner * outcome unit) :=
  if try_lock then
    match get_pool_data pool_name s with
    | Return (i, data) =>
        match init_pool_data_unassign_pu_debug virt_core data with
        | Passed (data', r) => Passed (put_pool_data i data' s, r)
        | AssertionFailed => AssertionFailed
        end
    | Throw e => Passed (s, Throw e)
    | Undefined => Passed (s, Undefined)
    end
  else Passed (s, Return ()).

(** The scan of [shrink_pool] and [expand_pool] over the functions with
    their assertions. *)
Fixpoint scan_pool_loop_debug (want_assigned : bool) (data : init_pool_data)
    (count i : nat) (has_non_exclusive_pus : bool) (pu_nums : list N)
    : checked (outcome (bool * list N)) :=
  match count with
  | O => Passed (Return (has_non_exclusive_pus, pu_nums))
  | S count' =>
      match pu_is_exclusive_debug (N.of_nat i) data with
      | Passed (Return true) =>
          scan_pool_loop_debug want_assigned data count' (S i)
            has_non_exclusive_pus pu_nums
      | Passed (Return false) =>
          match pu_is_assigned_debug (N.of_nat i) data with
          | Passed (Return assigned) =>
              scan_pool_loop_debug want_assigned data count' (S i) true
                (if bool_decide (assigned = want_assigned)
                 then pu_nums ++ [N.of_nat i] else pu_nums)
          | Passed (Throw e) => Passed (Throw e)
          | Passed Undefined => Passed Undefined
          | AssertionFailed => AssertionFailed
          end
      | Passed (Throw e) => Passed (Throw e)
      | Passed Undefined => Passed Undefined
      | AssertionFailed => AssertionFailed
      end
  end.

Definition scan_pool_debug (want_assigned : bool) (pool_name : string)
    (s : partitioner) : checked (list N * outcome N) :=
  if negb (dynamic_pools_allowed s) then
    Passed ([], Throw dynamic_pools_not_enabled_for_partitioner)
  else
    match get_pool_data pool_name s with
    | Return (_, data) =>
        match scan_pool_loop_debug want_assigned data
                (N.to_nat (num_threads_ data)) 0 false [] with
        | Passed (Return (has_non_exclusive_pus, pu_nums)) =>
            if negb has_non_exclusive_pus
            then Passed ([], Throw (no_non_exclusive_pus pool_name))
            else Passed (pu_nums, Return (N.of_nat (length pu_nums)))
        | Passed (Throw e) => Passed ([], Throw e)
        | Passed Undefined => Passed ([], Undefined)
        | AssertionFailed => AssertionFailed
        end
    | Throw e => Passed ([], Throw e)
    | Undefined => Passed ([], Undefined)
    end.

Definition shrink_pool_debug (pool_name : string) (s : partitioner)
    : checked (list N * outcome N) :=
  scan_pool_debug true pool_name s.

Definition expand_pool_debug (pool_name : string) (s : partitioner)
    : checked (list N * outcome N) :=
  scan_pool_debug false pool_name s.

(** *** partitioner: the topology mirror and [init] *)

Definition pu_exposed (pu_num : N) (s : partitioner) : bool :=
  let pu_mask := threads_set (threads_resize [] hardware_concurrency) pu_num in
  let comp := affinity_get_used_pus_mask (affinity_data_ s) pu_num in
  threads_any (mask_and comp pu_mask).

(** The loop over the PUs of one core: [count] iterations are left and
    [pid] is the running PU number.  The PU is in the vector when the
    exception for its occupancy is thrown. *)
Fixpoint fill_pus (s : partitioner) (count : nat) (pid : N)
    : (list pu * N) * outcome unit :=
  match count with
  | O => ([], pid, Return ())
  | S count' =>
      if pu_exposed pid s then
        let p := mk_pu pid
                   (affinity_get_thread_occupancy (affinity_data_ s) pid) 0 in
        if thread_occupancy_ p =? 0
        then ([p], pid, Throw (pu_without_thread_occupancy pid))
        else
          let '(rest, pid', r) := fill_pus s count' (wrap (pid + 1)) in
          (p :: rest, pid', r)
      else fill_pus s count' (wrap (pid + 1))
  end.

(** The loop over the cores of one domain; [j] is the loop variable.  A
    core without exposed PUs is popped again. *)
Fixpoint fill_cores (s : partitioner) (count : nat) (j pid : N)
    : (list core * N) * outcome unit :=
  match count with
  | O => ([], pid, Return ())
  | S count' =>
      let core_pus := get_number_of_core_pus (topo_ s) j in
      match fill_pus s (N.to_nat core_pus) pid with
      | (pus, pid', Return _) =>
          let '(rest, pid'', r) := fill_cores s count' (wrap (j + 1)) pid' in
          (match pus with
           | [] => rest
           | _ :: _ => mk_core j pus :: rest
           end, pid'', r)
      | (pus, pid', r) => ([mk_core j pus], pid', r)
      end
  end.

Fixpoint fill_domains (s : partitioner) (count : nat) (i pid : N)
    : (list numa_domain * N) * outcome unit :=
  match count with
  | O => ([], pid, Return ())
  | S count' =>
      let numa_node_cores := get_number_of_numa_node_cores (topo_ s) i in
      match fill_cores s (N.to_nat numa_node_cores) 0 pid with
      | (cores, pid', Return _) =>
          let '(rest, pid'', r) := fill_domains s count' (wrap (i + 1)) pid' in
          (match cores with
           | [] => rest
           | _ :: _ => mk_numa_domain i cores :: rest
           end, pid'', r)
      | (cores, pid', r) => ([mk_numa_domain i cores], pid', r)
      end
  end.

Definition fill_topology_vectors (s : partitioner) : partitioner * outcome unit :=
  let num_numa_nodes :=
    if get_number_of_numa_nodes (topo_ s) =? 0
    then get_number_of_sockets (topo_ s)
    else get_number_of_numa_nodes (topo_ s) in
  let '(ds, _, r) := fill_domains s (N.to_nat num_numa_nodes) 0 0 in
  (set_numa_domains_ (numa_domains_ s ++ ds) s, r).

Definition init (rpmode : partitioner_mode) (rtcfg : section)
    (affinity : affinity_data) (s : partitioner) : partitioner * outcome unit :=
  let s0 :=
    mk_partitioner (first_core_ s) (pus_needed_ s) rpmode (topo_ s)
      (default_scheduler_mode_ s) rtcfg affinity
      (numa_domains_ s) (initial_thread_pools_ s) (is_initialized_ s)
      (num_threads_overall s) in
  match fill_topology_vectors s0 with
  | (s1, Return _) =>
      match assign_cores 0 s1 with
      | (s2, Return n) => (set_pus_needed_ n s2, Return ())
      | (s2, Throw e) => (s2, Throw e)
      | (s2, Undefined) => (s2, Undefined)
      end
  | (s1, r) => (s1, r)
  end.

(** *** partitioner: the overloads of [add_resource] *)

(** [add_resource(std::vector<pu> const& pv, pool_name, exclusive)]: the
    call [add_resource(p, pool_name, exclusive)] for each PU in turn.
    Modelled from the spec: the argument [num_threads] that this call
    leaves out has the default 1 (the declaration is not among the
    sources). *)
Definition add_resource_pus (pv : list pu) (pool_name : string)
    (exclusive : bool) (s : partitioner)
    : (list pu * partitioner) * outcome unit :=
  for_each (λ p s, add_resource p pool_name exclusive 1 s) pv s.

(** [add_resource(core const& c, ...)] is [add_resource(c.pus_, ...)]. *)
Definition add_resource_core (c : core) (pool_name : string)
    (exclusive : bool) (s : partitioner)
    : (core * partitioner) * outcome unit :=
  let '(pus', s', r) := add_resource_pus (pus_ c) pool_name exclusive s in
  (mk_core (core_id_ c) pus', s', r).

Definition add_resource_cores (cv : list core) (pool_name : string)
    (exclusive : bool) (s : partitioner)
    : (list core * partitioner) * outcome unit :=
  for_each (λ c s, add_resource_core c pool_name exclusive s) cv s.

(** [add_resource(numa_domain const& nd, ...)] is
    [add_resource(nd.cores_, ...)]. *)
Definition add_resource_domain (nd : numa_domain) (pool_name : string)
    (exclusive : bool) (s : partitioner)
    : (numa_domain * partitioner) * outcome unit :=
  let '(cores', s', r) := add_resource_cores (cores_ nd) pool_name exclusive s in
  (mk_numa_domain (domain_id_ nd) cores', s', r).

Definition add_resource_domains (ndv : list numa_domain) (pool_name : string)
    (exclusive : bool) (s : partitioner)
    : (list numa_domain * partitioner) * outcome unit :=
  for_each (λ d s, add_resource_domain d pool_name exclusive s) ndv s.

(** *** partitioner: the getters *)

Definition get_num_pools (s : partitioner) : N :=
  N.of_nat (length (initial_thread_pools_ s)).

(** [get_pool_data(l, pool_index)]; the test
    [pool_index >= initial_thread_pools_.size()] is the lookup failing. *)
Definition get_pool_data_by_index (pool_index : N) (s : partitioner)
    : indexed init_pool_data :=
  match initial_thread_pools_ s !! N.to_nat pool_index with
  | Some d => Found d
  | None =>
      OutOfBounds (pool_index_too_large pool_index
                     (N.of_nat (length (initial_thread_pools_ s))))
  end.

(** The loop of [get_num_threads()]: [count] iterations are left, [i] is
    the loop variable. *)
Fixpoint get_num_threads_loop (s : partitioner) (count i : nat)
    (num_threads : N) : indexed N :=
  match count with
  | O => Found num_threads
  | S count' =>
      match get_pool_data_by_index (N.of_nat i) s with
      | Found d =>
          get_num_threads_loop s count' (S i) (wrap (num_threads + num_threads_ d))
      | OutOfBounds e => OutOfBounds e
      end
  end.

Definition get_num_threads (s : partitioner) : indexed N :=
  get_num_threads_loop s (length (initial_thread_pools_ s)) 0 0.

(** The assertion of [get_num_threads()] on the number it returns. *)
Definition assert_num_threads (num_threads : N) (s : partitioner) : bool :=
  oversubscription_allowed s
  || (num_threads =?
        get_entry_as_size_t (rtcfg_ s) "hpx.os_threads" size_t_minus_one).

(** [get_num_threads(std::size_t pool_index)] and
    [get_num_threads(std::string const& pool_name)] *)
Definition get_num_threads_of_index (pool_index : N) (s : partitioner)
    : indexed N :=
  match get_pool_data_by_index pool_index s with
  | Found d => Found (num_threads_ d)
  | OutOfBounds e => OutOfBounds e
  end.

Definition get_num_threads_of_name (pool_name : string) (s : partitioner)
    : outcome N :=
  match get_pool_data pool_name s with
  | Return (_, d) => Return (num_threads_ d)
  | Throw e => Throw e
  | Undefined => Undefined
  end.

Definition get_scheduler_mode (pool_index : N) (s : partitioner)
    : indexed scheduler_mode :=
  match get_pool_data_by_index pool_index s with
  | Found d => Found (pool_mode_ d)
  | OutOfBounds e => OutOfBounds e
  end.

Definition get_background_work (pool_index : N) (s : partitioner)
    : indexed background_work_function :=
  match get_pool_data_by_index pool_index s with
  | Found d => Found (background_work_ d)
  | OutOfBounds e => OutOfBounds e
  end.

(** [get_pool_name], with its own test of the index. *)
Definition get_pool_name (index : N) (s : partitioner) : indexed string :=
  match initial_thread_pools_ s !! N.to_nat index with
  | Some d => Found (pool_name_ d)
  | None =>
      OutOfBounds (pool_requested_out_of_bounds index
                     (N.of_nat (length (initial_thread_pools_ s))))
  end.

Definition get_pool_creator (index : N) (s : partitioner)
    : indexed scheduler_function :=
  if N.of_nat (length (initial_thread_pools_ s)) <=? index
  then OutOfBounds pool_creator_out_of_bounds
  else
    match get_pool_data_by_index index s with
    | Found d => Found (create_function_ d)
    | OutOfBounds e => OutOfBounds e
    end.

(** [partitioner::~partitioner] (without the instance counter) *)
Definition partitioner_dtor (s : partitioner) : partitioner :=
  set_num_threads_overall 0 s.

(** ** Definitions used by the statements *)

(** The invariant of the data model on one pool:
    [|assigned_pus| = |assigned_pu_nums| = num_threads]. *)
Definition pool_consistent (d : init_pool_data) : Prop :=
  length (assigned_pus_ d) = length (assigned_pu_nums_ d)
  ∧ num_threads_ d = N.of_nat (length (assigned_pu_nums_ d)).

Global Instance pool_consistent_dec d : Decision (pool_consistent d).
Proof. unfold pool_consistent. apply _. Defined.

(** The names [setup_schedulers] knows, in the order it tests them. *)
Definition known_schedulers : list (string * scheduling_policy) :=
  [ ("local", local);
    ("local-priority-fifo", local_priority_fifo);
    ("local-priority-lifo", local_priority_lifo) ]%string
  ++ (if HPX_HAVE_WORK_REQUESTING_SCHEDULERS
      then [ ("local-workrequesting-fifo", local_workrequesting_fifo);
             ("local-workrequesting-lifo", local_workrequesting_lifo);
             ("local-workrequesting-mc", local_workrequesting_mc) ]%string
      else [])
  ++ [ ("static", static_);
       ("static-priority", static_priority);
       ("abp-priority-fifo", abp_priority_fifo);
       ("abp-priority-lifo", abp_priority_lifo);
       ("shared-priority", shared_priority) ]%string.

(** Resolution by prefix, as the design document words it: the first
    known name, in scan order, that the user's string is a prefix of. *)
Definition resolve_by_prefix (user : string) : option scheduling_policy :=
  snd <$> (snd <$> list_find (λ known, String.prefix user known.1 = true)
                     known_schedulers).

(** The virtual cores of a pool whose entry is non-exclusive and has the
    given assignment, in the order of the virtual cores. *)
Definition non_exclusive_cores (assigned : bool) (d : init_pool_data)
    : list (nat * pu_entry) :=
  filter (λ ie, entry_exclusive ie.2 = false ∧ entry_assigned ie.2 = assigned)
    (imap (λ i e, (i, e)) (assigned_pu_nums_ d)).

Definition has_non_exclusive_entry (d : init_pool_data) : Prop :=
  ∃ e, e ∈ assigned_pu_nums_ d ∧ entry_exclusive e = false.

(** The PUs of the mirror that [setup_pools] finds free. *)
Definition free_pus (s : partitioner) : list pu :=
  filter (λ p, thread_occupancy_count_ p = 0) (mirror_pus (numa_domains_ s)).

(** The entries [setup_pools] appends for a list of free PUs: the first
    exclusive, the others exclusive unless dynamic pools are allowed. *)
Definition default_pool_entries (dynamic : bool) (ps : list pu)
    : list pu_entry :=
  imap (λ k p, (id_ p, bool_decide (k = 0%nat) || negb dynamic, false)) ps.

(** The pool at index 0. *)
Definition default_pool (s : partitioner) : option init_pool_data :=
  initial_thread_pools_ s !! 0%nat.

(** A PU is bound to a pool when an entry of the pool names it. *)
Definition bound_to (pu_id : N) (d : init_pool_data) : Prop :=
  pu_id ∈ entry_pu_id <$> assigned_pu_nums_ d.

(** The PU at a position of the mirror, and the mirror with that PU
    replaced. *)
Definition mirror_lookup (di ci pi : nat) (ds : list numa_domain) : option pu :=
  d ← ds !! di; c ← cores_ d !! ci; pus_ c !! pi.

Definition mirror_insert (di ci pi : nat) (p : pu) (ds : list numa_domain)
    : list numa_domain :=
  alter (λ d, mk_numa_domain (domain_id_ d)
                (alter (λ c, mk_core (core_id_ c) (<[pi := p]> (pus_ c)))
                   ci (cores_ d)))
    di ds.

(** [add_resource] called with a reference to a PU of the mirror (as
    [numa_domains()] hands them out): the counter of that PU changes. *)
Definition add_resource_mirror (di ci pi : nat) (pool_name : string)
    (exclusive : bool) (num_threads : N) (s : partitioner)
    : partitioner * outcome unit :=
  match mirror_lookup di ci pi (numa_domains_ s) with
  | Some p =>
      let '(p', s', r) := add_resource p pool_name exclusive num_threads s in
      (set_numa_domains_ (mirror_insert di ci pi p' (numa_domains_ s')) s', r)
  | None => (s, Undefined)
  end.

(** The calls of the public interface that change the partitioner;
    [add_resource] with a PU of the mirror or with a copy of a PU. *)
Inductive step : partitioner → partitioner → Prop :=
  | step_create_thread_pool name sched mode func s :
      step s (create_thread_pool name sched mode func s).1
  | step_create_thread_pool_user name create func s :
      step s (create_thread_pool_user name create func s).1
  | step_add_resource_mirror di ci pi name exclusive num_threads s :
      step s (add_resource_mirror di ci pi name exclusive num_threads s).1
  | step_add_resource_copy p name exclusive num_threads s :
      step s (add_resource p name exclusive num_threads s).1.2
  | step_set_scheduler sched name s :
      step s (set_scheduler sched name s).1
  | step_configure_pools s :
      step s (configure_pools s).1
  | step_assign_cores first_core s :
      step s (assign_cores first_core s).1
  | step_assign_pu name virt_core s :
      step s (assign_pu name virt_core s).1
  | step_unassign_pu try_lock name virt_core s :
      step s (unassign_pu try_lock name virt_core s).1.

(** The states a partitioner goes through after its construction and
    [init]. *)
Inductive reachable : partitioner → Prop :=
  | reachable_init topo rpmode rtcfg affinity :
      reachable (init rpmode rtcfg affinity (partitioner_ctor topo)).1
  | reachable_step s s' : reachable s → step s s' → reachable s'.

(** The entries and the masks of a pool agree: every mask is the one-hot
    mask of the PU its entry names, a PU of the machine; and [num_threads_]
    is the number of entries, in the arithmetic of [std::size_t]. *)
Definition pool_well_formed (d : init_pool_data) : Prop :=
  Forall2 (λ m e, entry_pu_id e < hardware_concurrency
                  ∧ m = one_hot_mask (entry_pu_id e))
    (assigned_pus_ d) (assigned_pu_nums_ d)
  ∧ num_threads_ d = wrap (N.of_nat (length (assigned_pu_nums_ d))).

Definition pools_well_formed (s : partitioner) : Prop :=
  Forall pool_well_formed (initial_thread_pools_ s).

(** The entries of all pools, pool by pool. *)
Definition bound_entries (s : partitioner) : list pu_entry :=
  d ← initial_thread_pools_ s; assigned_pu_nums_ d.

(** The number of the first worker of the pool at position [k], when the
    workers are numbered pool by pool. *)
Definition first_worker (k : nat) (s : partitioner) : nat :=
  length (d ← take k (initial_thread_pools_ s); assigned_pu_nums_ d).

(** The pool and the partitioner after the PUs [pv] were bound to the
    pool [d] at position [i], one thread each. *)
Definition pool_with_pus (pv : list pu) (exclusive : bool)
    (d : init_pool_data) : init_pool_data :=
  set_assignment
    (assigned_pus_ d ++ ((λ p, one_hot_mask (id_ p)) <$> pv))
    (assigned_pu_nums_ d ++ ((λ p, (id_ p, exclusive, false)) <$> pv))
    (Nat.iter (length pv) (λ x, wrap (x + 1)) (num_threads_ d)) d.

Definition partitioner_with_pus (i : nat) (d : init_pool_data)
    (pv : list pu) (exclusive : bool) (s : partitioner) : partitioner :=
  set_num_threads_overall
    (Nat.iter (length pv) (λ x, wrap (x + 1)) (num_threads_overall s))
    (put_pool_data i (pool_with_pus pv exclusive d) s).

(** What [fill_topology_vectors] puts into the mirror, for the affinity
    data [a] the partitioner holds at the call: a PU that the affinity data
    expose, with the occupancy they give it and no binding yet; a core with
    at least one such PU; a domain with at least one such core. *)
Definition mirrored_pu (s : partitioner) (p : pu) : Prop :=
  pu_exposed (id_ p) s = true
  ∧ thread_occupancy_ p
    = affinity_get_thread_occupancy (affinity_data_ s) (id_ p)
  ∧ thread_occupancy_ p ≠ 0
  ∧ thread_occupancy_count_ p = 0.

Definition mirrored_core (s : partitioner) (c : core) : Prop :=
  pus_ c ≠ [] ∧ Forall (mirrored_pu s) (pus_ c).

Definition mirrored_domain (s : partitioner) (d : numa_domain) : Prop :=
  cores_ d ≠ [] ∧ Forall (mirrored_core s) (cores_ d).

(** Two pools that differ at most in the PU numbers of their entries and
    in the bits of their masks. *)
Definition same_up_to_pus (d d' : init_pool_data) : Prop :=
  pool_name_ d' = pool_name_ d
  ∧ scheduling_policy_ d' = scheduling_policy_ d
  ∧ num_threads_ d' = num_threads_ d
  ∧ pool_mode_ d' = pool_mode_ d
  ∧ create_function_ d' = create_function_ d
  ∧ background_work_ d' = background_work_ d
  ∧ length (assigned_pus_ d') = length (assigned_pus_ d)
  ∧ (λ e, (entry_exclusive e, entry_assigned e)) <$> assigned_pu_nums_ d'
    = (λ e, (entry_exclusive e, entry_assigned e)) <$> assigned_pu_nums_ d.

(** ** Definitions used by the proofs *)

(** The names of the pools, in the order of the pool vector. *)
Definition pool_names (s : partitioner) : list string :=
  pool_name_ <$> initial_thread_pools_ s.

(** Case analysis on every [match] of the goal. *)
Ltac destruct_matches :=
  repeat match goal with
         | |- context [match ?x with _ => _ end] => destruct x eqn:?
         end.

(** What the scan collects from the entries [es] that start at virtual
    core [i]. *)
Definition collected (want_assigned : bool) (i : nat) (es : list pu_entry)
    : list N :=
  (λ ie : nat * pu_entry, N.of_nat ie.1)
    <$> filter (λ ie, entry_exclusive ie.2 = false
                      ∧ entry_assigned ie.2 = want_assigned)
          (imap (λ j e, ((i + j)%nat, e)) es).

(** The pool after [init_pool_data::add_resource] went through. *)
Definition pool_with_resource (pu_index : N) (exclusive : bool)
    (num_threads : N) (d : init_pool_data) : init_pool_data :=
  set_assignment
    (assigned_pus_ d ++ replicate (N.to_nat num_threads) (one_hot_mask pu_index))
    (assigned_pu_nums_ d
       ++ replicate (N.to_nat num_threads) (pu_index, exclusive, false))
    (wrap (num_threads_ d + num_threads)) d.

(** The partitioner after [get_pool_data(l, pool_name).add_resource(...)]
    went through on the pool at position [i]. *)
Definition partitioner_with_resource (i : nat) (d : init_pool_data)
    (pu_index : N) (exclusive : bool) (num_threads : N) (s : partitioner)
    : partitioner :=
  set_num_threads_overall (wrap (num_threads_overall s + num_threads))
    (put_pool_data i (pool_with_resource pu_index exclusive num_threads d) s).

(** [util::get_entry_as<std::size_t>(rtcfg_, "hpx.os_threads", 0)] *)
Definition num_os_threads (s : partitioner) : N :=
  get_entry_as_size_t (rtcfg_ s) "hpx.os_threads" 0.

(** A thread count after [k] increments by one. *)
Definition bump_counter (k : nat) (n : N) : N :=
  Nat.iter k (λ x, wrap (x + 1)) n.

(** The partitioner after the PUs [acc] were bound to the pool at index 0
    by the loop of [setup_pools], one thread each. *)
Definition with_default_bindings (acc : list pu) (s : partitioner)
    : partitioner :=
  match initial_thread_pools_ s with
  | d0 :: rest =>
      set_num_threads_overall
        (bump_counter (length acc) (num_threads_overall s))
        (set_initial_thread_pools_
           (set_assignment
              (assigned_pus_ d0 ++ ((λ p, one_hot_mask (id_ p)) <$> acc))
              (assigned_pu_nums_ d0
                 ++ default_pool_entries (dynamic_pools_allowed s) acc)
              (bump_counter (length acc) (num_threads_ d0)) d0
            :: rest) s)
  | [] => s
  end.

(** The state of the loops of [setup_pools] after the free PUs [acc]. *)
Definition fill_state (s : partitioner) (acc : list pu) : bool * partitioner :=
  (bool_decide (acc = []), with_default_bindings acc s).

(** The condition under which binding the free PUs [acc] goes through. *)
Definition can_bind (s : partitioner) (acc : list pu) : Prop :=
  Forall (λ p, id_ p < hardware_concurrency) acc
  ∧ (oversubscription_allowed s = true
     ∨ num_threads_overall s + N.of_nat (length acc) ≤ num_os_threads s).

(** What becomes of a PU, a core and a domain of the mirror. *)
Definition bound_pu (p : pu) : pu :=
  if decide (thread_occupancy_count_ p = 0)
  then increment_occupancy_count p else p.

Definition bound_core (c : core) : core :=
  mk_core (core_id_ c) (bound_pu <$> pus_ c).

Definition bound_domain (d : numa_domain) : numa_domain :=
  mk_numa_domain (domain_id_ d) (bound_core <$> cores_ d).

(** The PU itself when it is free. *)
Definition free_of_pu (p : pu) : list pu :=
  if decide (thread_occupancy_count_ p = 0) then [p] else [].

(** One entry and its mask after [assign_first_core(first_core)]. *)
Definition shifted_pu_num (first_core pu_num : N) : N :=
  wrap (pu_num + first_core) mod hardware_concurrency.

Definition shifted_entry (first_core : N) (e : pu_entry) : pu_entry :=
  (shifted_pu_num first_core (entry_pu_id e),
   entry_exclusive e, entry_assigned e).

Definition shifted_mask (first_core : N) (m : mask_type) (e : pu_entry)
    : mask_type :=
  threads_set (threads_reset m) (shifted_pu_num first_core (entry_pu_id e)).

Definition shifted_pool (first_core : N) (d : init_pool_data)
    : init_pool_data :=
  set_assignment
    (zip_with (shifted_mask first_core) (assigned_pus_ d) (assigned_pu_nums_ d))
    (shifted_entry first_core <$> assigned_pu_nums_ d)
    (num_threads_ d) d.

(** The difference to the cached first core and the offset [assign_cores]
    computes from it, in the arithmetic of [std::size_t]. *)
Definition first_core_delta (first_core : N) (s : partitioner) : N :=
  if decide (first_core_ s ≠ size_t_minus_one)
  then sub_size_t first_core (first_core_ s) else first_core.

Definition first_core_offset (first_core : N) (s : partitioner) : N :=
  wrap (first_core_delta first_core s
        * get_number_of_core_pus (topo_ s) first_core).

(** The shift in exact arithmetic, as the design document writes it. *)
Definition shift_pu_num (offset pu_num : N) : N :=
  (pu_num + offset) mod hardware_concurrency.

Definition shift_pool (offset : N) (d : init_pool_data) : init_pool_data :=
  set_assignment
    (zip_with (λ m e, threads_set (threads_reset m)
                        (shift_pu_num offset (entry_pu_id e)))
       (assigned_pus_ d) (assigned_pu_nums_ d))
    ((λ e, (shift_pu_num offset (entry_pu_id e),
            entry_exclusive e, entry_assigned e)) <$> assigned_pu_nums_ d)
    (num_threads_ d) d.

(** The cached first core; "unset" counts as 0. *)
Definition cached_first_core (s : partitioner) : N :=
  if decide (first_core_ s = size_t_minus_one) then 0 else first_core_ s.

(** ** Runs *)

(** A machine of [n] PUs: one NUMA domain, one PU per core. *)
Definition machine (n : N) : topology :=
  mk_topology n 1 1 (λ _, n) (λ _, 1).

(** Affinity data that bind worker [i] to PU [i], for [n] workers. *)
Definition exposing (n : nat) : affinity_data :=
  mk_affinity_data (N.of_nat n) (N.of_nat <$> seq 0 n)
    ((λ i, one_hot_mask (N.of_nat i)) <$> seq 0 n)
    (N.of_nat n).

(** The partitioner of the machine of [hardware_concurrency] PUs after its
    construction and [init], all PUs exposed, with the given mode and
    [hpx.os_threads]. *)
Definition started (mode : partitioner_mode) (os_threads : string)
    : partitioner :=
  (init mode (<["hpx.os_threads" := os_threads]> default_entries)
     (exposing (N.to_nat hardware_concurrency))
     (partitioner_ctor (machine hardware_concurrency))).1.

(** ... then PU 0 (the first PU of the mirror) bound to the default
    pool, ... *)
Definition first_pu_bound (os_threads : string) : partitioner :=
  (add_resource_mirror 0 0 0 "default" true 1
     (started mode_default_ os_threads)).1.

(** ... and the first core moved. *)
Definition first_pu_bound_and_shifted (first_core : N) (os_threads : string)
    : partitioner :=
  (assign_cores first_core (first_pu_bound os_threads)).1.

(** One core with all the PUs of the machine, one worker bound to the
    whole core, [hpx.os_threads = 1]: the partitioner after its
    construction and [init], and then with the first PU of the core bound
    to the default pool. *)
Definition smt_core (n : N) : topology :=
  mk_topology n 1 1 (λ _, 1) (λ _, n).

Definition one_worker (n : nat) : affinity_data :=
  mk_affinity_data 1 [0] [replicate n true] 1.

Definition started_one_worker : partitioner :=
  (init mode_default_ (<["hpx.os_threads" := "1"]> default_entries)
     (one_worker (N.to_nat hardware_concurrency))
     (partitioner_ctor (smt_core hardware_concurrency))).1.


(** The partitioner after [init] and [configure_pools], and after a move
    of the first core. *)
Definition configured (os_threads : string) : partitioner :=
  (configure_pools (started mode_default_ os_threads)).1.

Definition configured_and_shifted (first_core : N) (os_threads : string)
    : partitioner :=
  (assign_cores first_core (configured os_threads)).1.

(** Dynamic pools: the PU of core [ci] is bound to the default pool
    non-exclusively, and virtual core 0 of the pool is assigned. *)
Definition dynamic_pu_assigned (ci : nat) (os_threads : string) : partitioner :=
  (assign_pu "default" 0
     (add_resource_mirror 0 ci 0 "default" false 1
        (started allow_dynamic_pools os_threads)).1).1.

(** The scenarios of the design document.  S2: a pool "io" with PU 0,
    exclusive.  S3: dynamic pools, a pool "bg" with PU 3, non-exclusive;
    then the virtual cores 0, 1 and 2 of the default pool assigned.  S5:
    PU 0 and PU 1 bound to the default pool by the user. *)
Definition with_io_pool (os_threads : string) : partitioner :=
  (configure_pools
     (add_resource_mirror 0 0 0 "io" true 1
        (create_thread_pool "io" local_priority_fifo 0 None
           (started mode_default_ os_threads)).1).1).1.

Definition with_bg_pool (os_threads : string) : partitioner :=
  (configure_pools
     (add_resource_mirror 0 3 0 "bg" false 1
        (create_thread_pool "bg" local_priority_fifo 0 None
           (started allow_dynamic_pools os_threads)).1).1).1.

Definition with_bg_pool_running (os_threads : string) : partitioner :=
  (assign_pu "default" 2
     (assign_pu "default" 1
        (assign_pu "default" 0 (with_bg_pool os_threads)).1).1).1.

Definition two_pus_bound (os_threads : string) : partitioner :=
  (add_resource_mirror 0 1 0 "default" true 1
     (add_resource_mirror 0 0 0 "default" true 1
        (started mode_default_ os_threads)).1).1.

(** The pool at a position of the pool vector. *)
Definition pool_at (i : nat) (s : partitioner) : init_pool_data :=
  default (mk_init_pool_data "" unspecified [] [] 0 0 None None)
    (initial_thread_pools_ s !! i).

(** The PU numbers of the entries of the pools, pool by pool. *)
Definition pu_ids (s : partitioner) : list (list N) :=
  (λ d, entry_pu_id <$> assigned_pu_nums_ d) <$> initial_thread_pools_ s.

(** The shift of C6 in exact integer arithmetic:
    [(pu_num + (first_core - cached) * pus_per_core) mod hardware_concurrency]. *)
Definition exact_shift (hardware_concurrency first_core cached pus_per_core
    pu_num : Z) : Z :=
  ((pu_num + (first_core - cached) * pus_per_core) mod hardware_concurrency)%Z.

(** The arguments C3 gives to the callback: the PU numbers of the entries
    that are non-exclusive and assigned. *)
Definition pu_ids_to_remove (d : init_pool_data) : list N :=
  (λ ie : nat * pu_entry, entry_pu_id ie.2) <$> non_exclusive_cores true d.

(** ** Properties *)

(** *** Lookup of pools *)

Lemma get_pool_data_Return pool_name s i d :
  get_pool_data pool_name s = Return (i, d) →
  initial_thread_pools_ s !! i = Some d ∧ pool_name_ d = pool_name.
Proof.
  unfold get_pool_data.
  destruct (list_find _ _) as [[j x]|] eqn:Hfind; [|done].
  intros [= -> ->]. apply list_find_Some in Hfind as (Hi & Hname & _).
  by split.
Qed.

Lemma get_pool_data_Throw pool_name s e :
  get_pool_data pool_name s = Throw e → e = no_pool_of_that_name pool_name.
Proof.
  unfold get_pool_data. destruct (list_find _ _); [done|]. by intros [= <-].
Qed.

(** Writing a pool of the same name through the reference leaves the
    lookup by name where it was. *)
Lemma get_pool_data_put pool_name s i d d' :
  get_pool_data pool_name s = Return (i, d) →
  pool_name_ d' = pool_name →
  get_pool_data pool_name (put_pool_data i d' s) = Return (i, d').
Proof.
  unfold get_pool_data, put_pool_data. simpl.
  destruct (list_find _ (initial_thread_pools_ s)) as [[j x]|] eqn:Hfind; [|done].
  intros [= -> ->] Hname.
  apply list_find_Some in Hfind as (Hi & _ & Hbefore).
  assert (list_find (λ itp, pool_name_ itp = pool_name)
            (<[i:=d']> (initial_thread_pools_ s)) = Some (i, d')) as ->; [|done].
  apply list_find_insert_Some. right. left.
  split_and!; try done.
  by eapply lookup_lt_Some.
Qed.

Lemma put_pool_data_same s i d :
  initial_thread_pools_ s !! i = Some d → put_pool_data i d s = s.
Proof.
  intros Hi. unfold put_pool_data, set_initial_thread_pools_.
  rewrite list_insert_id by done. by destruct s.
Qed.

Lemma put_pool_data_twice s i d d' :
  put_pool_data i d (put_pool_data i d' s) = put_pool_data i d s.
Proof.
  unfold put_pool_data, set_initial_thread_pools_. simpl.
  by rewrite list_insert_insert_eq.
Qed.

(** *** The virtual-core assertion (C10) *)

(** C10.  The assertion [HPX_ASSERT(virt_core <= assigned_pu_nums_.size())]
    of [init_pool_data::assign_pu] and [init_pool_data::unassign_pu] does
    not keep the access [assigned_pu_nums_[virt_core]] inside the vector:
    for every pool, [virt_core = assigned_pu_nums_.size()] passes the
    assertion, and the access is then one past the last element, so both
    functions have no defined behaviour there. *)
Theorem assert_virt_core_admits_size (d : init_pool_data) :
  let virt_core := N.of_nat (length (assigned_pu_nums_ d)) in
  assert_virt_core virt_core d = true
  ∧ ¬ access_in_bounds virt_core d
  ∧ init_pool_data_assign_pu virt_core d = (d, Undefined)
  ∧ init_pool_data_unassign_pu virt_core d = (d, Undefined).
Proof.
  intros virt_core. unfold assert_virt_core, access_in_bounds,
    init_pool_data_assign_pu, init_pool_data_unassign_pu.
  assert (assigned_pu_nums_ d !! N.to_nat virt_core = None) as ->.
  { apply lookup_ge_None. unfold virt_core. lia. }
  split_and!; try done.
  - apply N.leb_le. lia.
  - unfold virt_core. lia.
Qed.

(** Below the size the access is inside the vector. *)
Lemma access_in_bounds_lookup virt_core d :
  access_in_bounds virt_core d ↔
  is_Some (assigned_pu_nums_ d !! N.to_nat virt_core).
Proof.
  unfold access_in_bounds. rewrite lookup_lt_is_Some. lia.
Qed.

(** *** Assigning and unassigning a virtual core (C8) *)

Lemma set_assigned_back b e :
  entry_assigned e = b → set_assigned b (set_assigned (negb b) e) = e.
Proof. destruct e as [[pu_id excl] assigned]. simpl. by intros ->. Qed.

Lemma init_pool_data_assign_pu_Return virt_core d e :
  assigned_pu_nums_ d !! N.to_nat virt_core = Some e →
  init_pool_data_assign_pu virt_core d =
    (set_assigned_pu_nums_
       (<[N.to_nat virt_core := set_assigned true e]> (assigned_pu_nums_ d)) d,
     Return ()).
Proof. unfold init_pool_data_assign_pu. by intros ->. Qed.

Lemma init_pool_data_unassign_assign virt_core d e :
  assigned_pu_nums_ d !! N.to_nat virt_core = Some e →
  entry_assigned e = false →
  init_pool_data_unassign_pu virt_core (init_pool_data_assign_pu virt_core d).1
  = (d, Return ()).
Proof.
  intros He Hassigned.
  rewrite (init_pool_data_assign_pu_Return _ _ _ He). simpl.
  unfold init_pool_data_unassign_pu. simpl.
  rewrite list_lookup_insert_eq by (by eapply lookup_lt_Some).
  rewrite list_insert_insert_eq.
  rewrite (set_assigned_back false) by done.
  rewrite list_insert_id by done.
  by destruct d.
Qed.

(** C8.  Round trip of [assign_pu] and [unassign_pu].  For a pool that the
    name designates, consistent with the data model, and a virtual core
    [virt_core < num_threads_] whose entry [e] is not assigned: [assign_pu]
    returns and raises the third field of that entry, leaving its PU number
    and its exclusive flag and every other entry of the pool as they were;
    [unassign_pu] after it, with the lock free, returns too, and the
    partitioner is then the one before the two calls. *)
Theorem assign_pu_unassign_pu_round_trip
    (pool_name : string) (virt_core : N) (s : partitioner)
    (i : nat) (d : init_pool_data) :
  let e := assigned_pu_nums_ d !!! N.to_nat virt_core in
  get_pool_data pool_name s = Return (i, d) →
  pool_consistent d →
  virt_core < num_threads_ d →
  entry_assigned e = false →
  let '(s1, r1) := assign_pu pool_name virt_core s in
  let '(s2, r2) := unassign_pu true pool_name virt_core s1 in
  r1 = Return () ∧ r2 = Return ()
  ∧ s1 = put_pool_data i
           (set_assigned_pu_nums_
              (<[N.to_nat virt_core := (entry_pu_id e, entry_exclusive e, true)]>
                 (assigned_pu_nums_ d)) d) s
  ∧ s2 = s.
Proof.
  intros e Hget [_ Hnum] Hlt Hassigned.
  assert (assigned_pu_nums_ d !! N.to_nat virt_core = Some e) as He.
  { apply list_lookup_lookup_total_lt. lia. }
  pose proof (get_pool_data_Return _ _ _ _ Hget) as [Hi Hname].
  unfold assign_pu. rewrite Hget.
  rewrite (init_pool_data_assign_pu_Return _ _ _ He).
  set (d1 := set_assigned_pu_nums_ _ d).
  assert (get_pool_data pool_name (put_pool_data i d1 s) = Return (i, d1))
    as Hget1 by (by apply (get_pool_data_put _ _ _ d)).
  unfold unassign_pu. rewrite Hget1.
  pose proof (init_pool_data_unassign_assign _ _ _ He Hassigned) as Hback.
  rewrite (init_pool_data_assign_pu_Return _ _ _ He) in Hback.
  simpl in Hback. fold d1 in Hback. rewrite Hback.
  split_and!; try done.
  rewrite put_pool_data_twice. by apply put_pool_data_same.
Qed.

(** With the lock taken [unassign_pu] does nothing. *)
Lemma unassign_pu_contended pool_name virt_core s :
  unassign_pu false pool_name virt_core s = (s, Return ()).
Proof. done. Qed.

(** *** The names of the pools *)

(** A projection of the elements that every run of the body keeps is kept
    by the loop. *)
Lemma for_each_fmap {A B St} (f : A → B)
    (body : A → St → (A * St) * outcome unit) l st :
  (∀ x st, f (body x st).1.1 = f x) →
  f <$> (for_each body l st).1.1 = f <$> l.
Proof.
  intros Hbody. revert st. induction l as [|x l IH]; intros st; [done|].
  cbn [for_each]. specialize (Hbody x st).
  destruct (body x st) as [[x' st'] [[]| |]]; cbn [fst] in *;
    rewrite ?fmap_cons; try (by f_equal).
  specialize (IH st'). destruct (for_each body l st') as [[l' st''] r].
  cbn [fst] in *. rewrite fmap_cons. by f_equal.
Qed.

(** A property of the state that every run of the body keeps is kept by
    the loop. *)
Lemma for_each_state {A St} (P : St → Prop)
    (body : A → St → (A * St) * outcome unit) l st :
  (∀ x st, P st → P (body x st).1.2) → P st → P (for_each body l st).1.2.
Proof.
  intros Hbody. revert st. induction l as [|x l IH]; intros st Hst; [done|].
  simpl. specialize (Hbody x st Hst).
  destruct (body x st) as [[x' st'] [[]| |]]; simpl in *; try done.
  specialize (IH st' Hbody). by destruct (for_each body l st') as [[l' st''] r].
Qed.

Lemma pool_names_put_pool_data i d d' s :
  initial_thread_pools_ s !! i = Some d →
  pool_name_ d' = pool_name_ d →
  pool_names (put_pool_data i d' s) = pool_names s.
Proof.
  intros Hi Hname. unfold pool_names, put_pool_data. simpl.
  rewrite list_fmap_insert, Hname. apply list_insert_id.
  by rewrite list_lookup_fmap, Hi.
Qed.

Lemma init_pool_data_ctor_Return name sched mode func :
  name ≠ "" →
  init_pool_data_ctor name sched mode func =
    Return (mk_init_pool_data name sched [] [] 0 mode None func).
Proof. intros Hname. unfold init_pool_data_ctor. by rewrite decide_False. Qed.

Lemma init_pool_data_ctor_user_Return name create mode func :
  name ≠ "" →
  init_pool_data_ctor_user name create mode func =
    Return (mk_init_pool_data name user_defined [] [] 0 mode create func).
Proof.
  intros Hname. unfold init_pool_data_ctor_user. by rewrite decide_False.
Qed.

Lemma pool_names_create_thread_pool name sched mode func s :
  pool_names s `prefix_of` pool_names (create_thread_pool name sched mode func s).1.
Proof.
  unfold create_thread_pool.
  destruct (decide (name = "")) as [|Hname]; [done|].
  destruct (decide (name = get_default_pool_name s)) as [->|].
  - rewrite init_pool_data_ctor_Return by done.
    unfold pool_names, put_pool_data, get_default_pool_name.
    destruct (initial_thread_pools_ s); simpl; [apply prefix_nil|reflexivity].
  - destruct (name_taken name s); [done|].
    rewrite init_pool_data_ctor_Return by done.
    unfold pool_names. simpl. rewrite fmap_app. by apply prefix_app_r.
Qed.

Lemma pool_names_create_thread_pool_user name create func s :
  pool_names s
    `prefix_of` pool_names (create_thread_pool_user name create func s).1.
Proof.
  unfold create_thread_pool_user.
  destruct (decide (name = "")) as [|Hname]; [done|].
  destruct (decide (name = get_default_pool_name s)) as [->|].
  - rewrite init_pool_data_ctor_user_Return by done.
    unfold pool_names, put_pool_data, get_default_pool_name.
    destruct (initial_thread_pools_ s); simpl; [apply prefix_nil|reflexivity].
  - destruct (name_taken name s); [done|].
    rewrite init_pool_data_ctor_user_Return by done.
    unfold pool_names. simpl. rewrite fmap_app. by apply prefix_app_r.
Qed.

Lemma pool_names_set_num_threads_overall n s :
  pool_names (set_num_threads_overall n s) = pool_names s.
Proof. done. Qed.

Lemma pool_names_add_resource_to_pool pu_index name exclusive num_threads s :
  pool_names (add_resource_to_pool pu_index name exclusive num_threads s).1
  = pool_names s.
Proof.
  unfold add_resource_to_pool, init_pool_data_add_resource.
  destruct (get_pool_data name s) as [[i d]| |] eqn:Hget; try done.
  apply get_pool_data_Return in Hget as [Hi _].
  destruct (_ <=? _); cbn [fst]; rewrite pool_names_set_num_threads_overall;
    by apply (pool_names_put_pool_data i d).
Qed.

Lemma pool_names_add_resource p name exclusive num_threads s :
  pool_names (add_resource p name exclusive num_threads s).1.2 = pool_names s.
Proof.
  unfold add_resource.
  pose proof (pool_names_add_resource_to_pool (id_ p) name exclusive
                num_threads s) as H.
  destruct_matches; simpl in *; done.
Qed.

Lemma pool_names_add_resource_mirror di ci pi name exclusive num_threads s :
  pool_names (add_resource_mirror di ci pi name exclusive num_threads s).1
  = pool_names s.
Proof.
  unfold add_resource_mirror. destruct (mirror_lookup _ _ _ _) as [p|]; [|done].
  pose proof (pool_names_add_resource p name exclusive num_threads s) as H.
  destruct (add_resource _ _ _ _ _) as [[p' s'] r]. done.
Qed.

Lemma pool_names_set_scheduler sched name s :
  pool_names (set_scheduler sched name s).1 = pool_names s.
Proof.
  unfold set_scheduler.
  destruct (get_pool_data name s) as [[i d]| |] eqn:Hget; try done.
  apply get_pool_data_Return in Hget as [Hi _].
  by apply (pool_names_put_pool_data _ d).
Qed.

Lemma pool_names_setup_pools_pu p st :
  pool_names (setup_pools_pu p st).1.2.2 = pool_names st.2.
Proof.
  destruct st as [first s]. unfold setup_pools_pu.
  destruct (_ =? _); [|done].
  pose proof (pool_names_add_resource p (get_default_pool_name s)
                (first || negb (dynamic_pools_allowed s)) 1 s) as H.
  destruct (add_resource _ _ _ _ _) as [[p' s'] [[]| |]]; done.
Qed.

Lemma pool_names_setup_pools_fill s :
  pool_names (setup_pools_fill s).1 = pool_names s.
Proof.
  unfold setup_pools_fill.
  pose proof (for_each_state (λ st, pool_names st.2 = pool_names s)
                setup_pools_domain (numa_domains_ s) (true, s)) as H.
  destruct (for_each _ _ _) as [[ds' [first s']] r]. simpl in *.
  apply H; [|done]. clear. intros d st Hst. unfold setup_pools_domain.
  pose proof (for_each_state (λ st, pool_names st.2 = pool_names s)
                setup_pools_core (cores_ d) st) as H.
  destruct (for_each _ _ _) as [[cs' st'] r]. simpl in *.
  apply H; [|done]. clear. intros c st Hst. unfold setup_pools_core.
  pose proof (for_each_state (λ st, pool_names st.2 = pool_names s)
                setup_pools_pu (pus_ c) st) as H.
  destruct (for_each _ _ _) as [[ps' st'] r]. simpl in *.
  apply H; [|done]. clear. intros p st Hst.
  by rewrite pool_names_setup_pools_pu.
Qed.

Lemma pool_names_setup_pools s :
  pool_names (setup_pools s).1 = pool_names s.
Proof.
  unfold setup_pools. pose proof (pool_names_setup_pools_fill s) as H.
  destruct_matches; simpl in *; done.
Qed.

Lemma pool_names_setup_schedulers s :
  pool_names (setup_schedulers s).1 = pool_names s.
Proof.
  unfold setup_schedulers. destruct (select_default_scheduler _); try done.
  unfold pool_names. simpl. rewrite <- list_fmap_compose.
  apply list_fmap_ext. intros i d _. simpl.
  unfold set_default_scheduler. by destruct (decide _).
Qed.

Lemma pool_names_configure_pools s :
  pool_names (configure_pools s).1 = pool_names s.
Proof.
  unfold configure_pools.
  pose proof (pool_names_setup_pools s) as H1.
  destruct (setup_pools s) as [s1 [[]| |]]; try done.
  pose proof (pool_names_setup_schedulers s1) as H2.
  destruct (setup_schedulers s1) as [s2 [[]| |]]; simpl in *;
    unfold pool_names in *; simpl; congruence.
Qed.

Lemma pool_name_assign_first_core offset d :
  pool_name_ (assign_first_core offset d).1 = pool_name_ d.
Proof.
  unfold assign_first_core.
  by destruct (assign_first_core_loop _ _ _ _ _) as [[masks nums]|].
Qed.

Lemma pool_names_assign_first_core_all offset pools :
  pool_name_ <$> (assign_first_core_all offset pools).1 = pool_name_ <$> pools.
Proof.
  unfold assign_first_core_all.
  pose proof (for_each_fmap pool_name_
    (λ d (_ : unit), let '(d', r) := assign_first_core offset d in (d', (), r))
    pools ()) as H.
  destruct (for_each _ _ _) as [[pools' u] r]. simpl in *.
  apply H. intros d _. pose proof (pool_name_assign_first_core offset d).
  by destruct (assign_first_core offset d).
Qed.

Lemma pool_names_assign_cores first_core s :
  pool_names (assign_cores first_core s).1 = pool_names s.
Proof.
  unfold assign_cores.
  destruct (decide (first_core_ s ≠ first_core)).
  - set (offset := if decide (first_core_ s ≠ size_t_minus_one) then _ else _).
    destruct (decide (offset ≠ 0)).
    + pose proof (pool_names_assign_first_core_all
        (wrap (offset * get_number_of_core_pus (topo_ s) first_core))
        (initial_thread_pools_ s)) as H.
      destruct (assign_first_core_all _ _) as [pools [[]| |]]; simpl in *;
        try done.
      unfold threads_needed. by destruct (_ =? _).
    + unfold threads_needed. simpl. by destruct (_ =? _).
  - unfold threads_needed. by destruct (_ =? _).
Qed.

Lemma pool_names_assign_pu name virt_core s :
  pool_names (assign_pu name virt_core s).1 = pool_names s.
Proof.
  unfold assign_pu, init_pool_data_assign_pu.
  destruct (get_pool_data name s) as [[i d]| |] eqn:Hget; try done.
  apply get_pool_data_Return in Hget as [Hi _].
  destruct (assigned_pu_nums_ d !! _); by apply (pool_names_put_pool_data _ d).
Qed.

Lemma pool_names_unassign_pu try_lock name virt_core s :
  pool_names (unassign_pu try_lock name virt_core s).1 = pool_names s.
Proof.
  unfold unassign_pu, init_pool_data_unassign_pu. destruct try_lock; [|done].
  destruct (get_pool_data name s) as [[i d]| |] eqn:Hget; try done.
  apply get_pool_data_Return in Hget as [Hi _].
  destruct (assigned_pu_nums_ d !! _); by apply (pool_names_put_pool_data _ d).
Qed.

(** A call never renames or removes a pool: the names before it are a
    prefix of the names after it. *)
Lemma pool_names_step s s' : step s s' → pool_names s `prefix_of` pool_names s'.
Proof.
  destruct 1.
  - apply pool_names_create_thread_pool.
  - apply pool_names_create_thread_pool_user.
  - by rewrite pool_names_add_resource_mirror.
  - by rewrite pool_names_add_resource.
  - by rewrite pool_names_set_scheduler.
  - by rewrite pool_names_configure_pools.
  - by rewrite pool_names_assign_cores.
  - by rewrite pool_names_assign_pu.
  - by rewrite pool_names_unassign_pu.
Qed.

Lemma pool_names_init topo rpmode rtcfg affinity :
  pool_names (init rpmode rtcfg affinity (partitioner_ctor topo)).1
  = ["default"].
Proof.
  unfold init.
  match goal with
  | |- context [fill_topology_vectors ?s0] =>
      assert (pool_names (fill_topology_vectors s0).1 = ["default"]) as H1;
      [unfold fill_topology_vectors;
       by destruct (fill_domains _ _ _ _) as [[ds pid] r]|];
      destruct (fill_topology_vectors s0) as [s1 [[]| |]]; try done
  end.
  pose proof (pool_names_assign_cores 0 s1) as H2.
  destruct (assign_cores 0 s1) as [s2 [n| |]]; simpl in *;
    unfold pool_names in *; simpl in *; congruence.
Qed.

(** In every reachable state the pool at index 0 is there and carries the
    name it was constructed with. *)
Lemma reachable_pool_names s :
  reachable s → ["default"] `prefix_of` pool_names s.
Proof.
  induction 1 as [|s s' _ IH Hstep].
  - by rewrite pool_names_init.
  - etrans; [done|]. by apply pool_names_step.
Qed.

Lemma reachable_default_pool s :
  reachable s →
  ∃ d rest, initial_thread_pools_ s = d :: rest ∧ pool_name_ d = "default".
Proof.
  intros [names Hnames]%reachable_pool_names. unfold pool_names in Hnames.
  destruct (initial_thread_pools_ s) as [|d rest]; [done|].
  exists d, rest. simpl in Hnames. by simplify_eq.
Qed.

(** *** The default pool stays at index 0 (C9) *)


Lemma name_taken_true name s :
  name ≠ get_default_pool_name s → name ∈ pool_names s →
  name_taken name s = true.
Proof.
  unfold name_taken, pool_names, get_default_pool_name.
  intros Hne Hin. apply bool_decide_eq_true.
  destruct (initial_thread_pools_ s) as [|d rest]; [done|].
  simpl in *. rewrite drop_0. apply elem_of_cons in Hin as [?|?]; done.
Qed.


(** *** The queries before and after initialization (C7) *)

(** For a PU of the machine the mask has one bit per PU, and the bit of
    that PU is the only one raised. *)
Lemma one_hot_mask_spec (pu_index : N) :
  pu_index < hardware_concurrency →
  length (one_hot_mask pu_index) = N.to_nat hardware_concurrency
  ∧ ∀ i, (i < N.to_nat hardware_concurrency)%nat →
         one_hot_mask pu_index !! i = Some (bool_decide (i = N.to_nat pu_index)).
Proof.
  intros Hlt. unfold one_hot_mask, threads_set, threads_resize.
  rewrite resize_nil. split.
  - by rewrite length_insert, length_replicate.
  - intros i Hi. destruct (decide (i = N.to_nat pu_index)) as [->|Hne].
    + rewrite list_lookup_insert_eq by (rewrite length_replicate; lia).
      by rewrite bool_decide_eq_true_2.
    + rewrite list_lookup_insert_ne by done.
      rewrite lookup_replicate_2 by done.
      by rewrite bool_decide_eq_false_2.
Qed.

(** C7, as the code has it.  While [is_initialized_] is false,
    [get_pu_num] returns its argument, and [get_pu_mask] and
    [get_used_pus_mask] return the mask of [hardware_concurrency] bits in
    which (for an argument below [hardware_concurrency]) only the bit of the
    argument is raised; once [is_initialized_] is true the three return what
    the Affinity Map answers.  [get_thread_occupancy] has no such case
    distinction: it returns what the Affinity Map answers in either case. *)
Theorem queries_before_and_after_initialization
    (s : partitioner) (worker pu_num : N) :
  (is_initialized_ s = false →
     get_pu_num worker s = worker
     ∧ get_pu_mask worker s = one_hot_mask worker
     ∧ get_used_pus_mask pu_num s = one_hot_mask pu_num
     ∧ (worker < hardware_concurrency →
          length (get_pu_mask worker s) = N.to_nat hardware_concurrency
          ∧ ∀ i, (i < N.to_nat hardware_concurrency)%nat →
                 get_pu_mask worker s !! i
                 = Some (bool_decide (i = N.to_nat worker)))
     ∧ (pu_num < hardware_concurrency →
          length (get_used_pus_mask pu_num s) = N.to_nat hardware_concurrency
          ∧ ∀ i, (i < N.to_nat hardware_concurrency)%nat →
                 get_used_pus_mask pu_num s !! i
                 = Some (bool_decide (i = N.to_nat pu_num))))
  ∧ (is_initialized_ s = true →
       get_pu_num worker s = affinity_get_pu_num (affinity_data_ s) worker
       ∧ get_pu_mask worker s = affinity_get_pu_mask (affinity_data_ s) worker
       ∧ get_used_pus_mask pu_num s
         = affinity_get_used_pus_mask (affinity_data_ s) pu_num)
  ∧ get_thread_occupancy pu_num s
    = affinity_get_thread_occupancy (affinity_data_ s) pu_num.
Proof.
  unfold get_pu_num, get_pu_mask, get_used_pus_mask, get_thread_occupancy.
  split_and!; [intros ->|intros ->|done]; split_and!; try done.
  - apply one_hot_mask_spec.
  - apply one_hot_mask_spec.
Qed.

(** *** The default scheduler (C4) *)

(** [known.find(user) == 0] says that [user] is a prefix of [known]. *)
Lemma index_0_prefix (user known : string) :
  String.index 0 user known = Some 0%nat ↔ String.prefix user known = true.
Proof.
  rewrite String.prefix_correct. split.
  - apply String.index_correct1.
  - intros Hsub. destruct (decide (user = "")) as [->|Hne].
    { by destruct known. }
    destruct (String.index 0 user known) as [m|] eqn:Hindex.
    + destruct m as [|m]; [done|].
      exfalso. by apply (String.index_correct2 _ _ _ _ Hindex 0%nat); [lia..|].
    + exfalso.
      by apply (String.index_correct3 0 0 _ _ Hindex Hne); [lia|].
Qed.

Lemma found_at_0_prefix (known user : string) :
  found_at_0 known user = String.prefix user known.
Proof.
  unfold found_at_0. destruct (String.prefix user known) eqn:Hprefix.
  - apply bool_decide_eq_true. by apply index_0_prefix.
  - apply bool_decide_eq_false. rewrite index_0_prefix. congruence.
Qed.

(** The chain of tests takes the first known name, in scan order, that
    the string is a prefix of. *)
Lemma select_default_scheduler_resolve (user : string) :
  select_default_scheduler user =
    match resolve_by_prefix user with
    | Some sched => Return sched
    | None => Throw bad_queuing_option
    end.
Proof.
  unfold select_default_scheduler, resolve_by_prefix, known_schedulers.
  rewrite !found_at_0_prefix.
  generalize (String.prefix user). intros is_prefix_of.
  destruct HPX_HAVE_WORK_REQUESTING_SCHEDULERS; cbn;
    repeat (match goal with
            | |- context [is_prefix_of ?known] =>
                destruct (is_prefix_of known); cbn; try done
            end).
Qed.

(** C4.  [setup_schedulers] reads [hpx.scheduler] (which
    [pre_initialize_ini] presets to [local-priority-fifo]) and resolves it
    to the first name, in the scan order [known_schedulers], that the string
    is a prefix of; "static" resolves to [static_], "local-p" to
    [local_priority_fifo] and "local" to [local].  With such a name every
    pool whose policy was [unspecified] holds the resolved policy
    afterwards, and the other pools and all other fields are as before;
    without one the function throws the command-line error and changes
    nothing. *)
Theorem setup_schedulers_resolves_by_prefix (s : partitioner) :
  let user := get_entry (rtcfg_ s) "hpx.scheduler" "" in
  match resolve_by_prefix user with
  | Some sched =>
      select_default_scheduler user = Return sched
      ∧ (setup_schedulers s).2 = Return ()
      ∧ set_initial_thread_pools_ (initial_thread_pools_ s) (setup_schedulers s).1
        = s
      ∧ length (initial_thread_pools_ (setup_schedulers s).1)
        = length (initial_thread_pools_ s)
      ∧ ∀ i d, initial_thread_pools_ s !! i = Some d →
          ∃ d', initial_thread_pools_ (setup_schedulers s).1 !! i = Some d'
                ∧ scheduling_policy_ d'
                  = (if decide (scheduling_policy_ d = unspecified)
                     then sched else scheduling_policy_ d)
                ∧ set_scheduling_policy_ (scheduling_policy_ d) d' = d
  | None =>
      select_default_scheduler user = Throw bad_queuing_option
      ∧ setup_schedulers s = (s, Throw bad_queuing_option)
      ∧ kind_of bad_queuing_option = CommandLineError
  end
  ∧ get_entry default_entries "hpx.scheduler" "" = "local-priority-fifo"
  ∧ resolve_by_prefix "local-priority-fifo" = Some local_priority_fifo
  ∧ resolve_by_prefix "static" = Some static_
  ∧ resolve_by_prefix "local-p" = Some local_priority_fifo
  ∧ resolve_by_prefix "local" = Some local
  ∧ resolve_by_prefix "banana" = None.
Proof.
  intros user. split_and!;
    try (unfold resolve_by_prefix, known_schedulers;
         by destruct HPX_HAVE_WORK_REQUESTING_SCHEDULERS).
  pose proof (select_default_scheduler_resolve user) as Hselect.
  unfold setup_schedulers. fold user.
  destruct (resolve_by_prefix user) as [sched|]; rewrite Hselect; [|done].
  split_and!; try done.
  - simpl. by destruct s.
  - simpl. apply length_fmap.
  - intros i d Hi. simpl. rewrite list_lookup_fmap, Hi. simpl.
    eexists. split; [done|]. unfold set_default_scheduler.
    destruct (decide (scheduling_policy_ d = unspecified)) as [Hd|Hd].
    + split; [done|]. by destruct d.
    + split; [done|]. by destruct d.
Qed.

(** *** Shrinking and expanding a pool (C3) *)

Lemma collected_cons want_assigned i e es :
  collected want_assigned i (e :: es) =
    (if decide (entry_exclusive e = false ∧ entry_assigned e = want_assigned)
     then [N.of_nat i] else [])
    ++ collected want_assigned (S i) es.
Proof.
  unfold collected. simpl. rewrite filter_cons. simpl.
  rewrite Nat.add_0_r.
  assert (imap ((λ j e0, ((i + j)%nat, e0)) ∘ S) es
          = imap (λ j e0, ((S i + j)%nat, e0)) es) as ->.
  { apply imap_ext. intros j x _. simpl. f_equal. lia. }
  by destruct (decide _).
Qed.

Lemma scan_pool_loop_spec want_assigned d pre es post has acc :
  assigned_pu_nums_ d = pre ++ es ++ post →
  scan_pool_loop want_assigned d (length es) (length pre) has acc =
    Return (has || existsb (λ e, negb (entry_exclusive e)) es,
            acc ++ collected want_assigned (length pre) es).
Proof.
  revert pre has acc. induction es as [|e es IH]; intros pre has acc Hnums.
  { simpl. by rewrite orb_false_r, app_nil_r. }
  assert (assigned_pu_nums_ d !! length pre = Some e) as He.
  { rewrite Hnums. by rewrite lookup_app_r, Nat.sub_diag by lia. }
  cbn [length scan_pool_loop existsb].
  unfold pu_is_exclusive, pu_is_assigned. rewrite Nat2N.id, He.
  rewrite collected_cons.
  specialize (IH (pre ++ [e])). rewrite length_app in IH. simpl in IH.
  rewrite Nat.add_1_r in IH.
  destruct e as [[pu_id [|]] assigned]; cbn [entry_exclusive entry_assigned
    fst snd negb orb].
  - rewrite IH by (by rewrite <- app_assoc).
    by rewrite decide_False by (intros [? ?]; done).
  - rewrite IH by (by rewrite <- app_assoc). rewrite orb_true_r.
    destruct (bool_decide (assigned = want_assigned)) eqn:Hb.
    + apply bool_decide_eq_true in Hb.
      rewrite decide_True by done. by rewrite <- app_assoc.
    + apply bool_decide_eq_false in Hb.
      by rewrite decide_False by (intros [? ?]; done).
Qed.

Lemma collected_elem_of want_assigned i es v :
  v ∈ collected want_assigned i es ↔
  ∃ j e, es !! j = Some e ∧ v = N.of_nat (i + j)
         ∧ entry_exclusive e = false ∧ entry_assigned e = want_assigned.
Proof.
  unfold collected. rewrite list_elem_of_fmap. split.
  - intros ([k e] & -> & Hin). apply list_elem_of_filter in Hin as [Hcond Hin].
    apply list_elem_of_lookup in Hin as [j Hj].
    rewrite list_lookup_imap in Hj.
    destruct (es !! j) as [e'|] eqn:He; [|done]. simpl in Hj.
    injection Hj as <- <-. exists j, e'. by destruct Hcond.
  - intros (j & e & He & -> & Hexcl & Hassigned).
    exists ((i + j)%nat, e). split; [done|].
    apply list_elem_of_filter. split; [done|].
    apply list_elem_of_lookup. exists j.
    by rewrite list_lookup_imap, He.
Qed.

(** The virtual cores are collected in increasing order, so none of them
    twice. *)
Lemma collected_sorted want_assigned i es :
  StronglySorted N.lt (collected want_assigned i es).
Proof.
  revert i. induction es as [|e es IH]; intros i.
  { constructor. }
  rewrite collected_cons. destruct (decide _); simpl; [|apply IH].
  constructor; [apply IH|].
  apply Forall_forall. intros v Hv.
  apply collected_elem_of in Hv as (j & _ & _ & -> & _). lia.
Qed.

Lemma collected_NoDup want_assigned i es :
  NoDup (collected want_assigned i es).
Proof.
  pose proof (collected_sorted want_assigned i es) as Hsorted.
  induction Hsorted as [|v l _ IH Hall]; constructor; [|done].
  intros Hin. rewrite Forall_forall in Hall. specialize (Hall v Hin). lia.
Qed.

Lemma collected_non_exclusive_cores want_assigned d :
  collected want_assigned 0 (assigned_pu_nums_ d)
  = (λ ie : nat * pu_entry, N.of_nat ie.1)
      <$> non_exclusive_cores want_assigned d.
Proof. done. Qed.

Lemma existsb_non_exclusive d :
  existsb (λ e, negb (entry_exclusive e)) (assigned_pu_nums_ d) = true
  ↔ has_non_exclusive_entry d.
Proof.
  unfold has_non_exclusive_entry. rewrite existsb_exists.
  split; intros (e & Hin & He); exists e.
  - apply list_elem_of_In in Hin. split; [done|]. by destruct (entry_exclusive e).
  - apply list_elem_of_In in Hin. split; [done|]. by rewrite He.
Qed.

(** What [shrink_pool] and [expand_pool] do on a pool that is there and
    consistent, with dynamic pools allowed. *)
Lemma scan_pool_spec want_assigned pool_name s i d :
  dynamic_pools_allowed s = true →
  get_pool_data pool_name s = Return (i, d) →
  pool_consistent d →
  scan_pool want_assigned pool_name s =
    if existsb (λ e, negb (entry_exclusive e)) (assigned_pu_nums_ d)
    then (collected want_assigned 0 (assigned_pu_nums_ d),
          Return (N.of_nat (length (collected want_assigned 0
                                      (assigned_pu_nums_ d)))))
    else ([], Throw (no_non_exclusive_pus pool_name)).
Proof.
  intros Hdyn Hget [_ Hnum]. unfold scan_pool. rewrite Hdyn, Hget.
  cbn [negb]. rewrite Hnum, Nat2N.id.
  pose proof (scan_pool_loop_spec want_assigned d [] (assigned_pu_nums_ d) []
                false []) as Hloop.
  cbn [length app orb] in Hloop. rewrite Hloop by (by rewrite app_nil_r).
  by destruct (existsb _ _).
Qed.

(** C3, as the code has it.  [shrink_pool] throws a bad-parameter error
    when dynamic pools are not allowed.  With dynamic pools allowed, on a
    pool that the name designates and that is consistent with the data
    model: if no entry of the pool is non-exclusive it throws a
    bad-parameter error and calls nothing; otherwise it calls
    [remove_pu(i)] with the virtual core [i] (the index of the entry, not
    the PU number the entry holds) exactly once for every virtual core
    whose entry is non-exclusive and assigned, in increasing order of [i],
    and returns the number of these calls. *)
Theorem shrink_pool_calls_virtual_cores (pool_name : string) (s : partitioner) :
  (dynamic_pools_allowed s = false →
     shrink_pool pool_name s
     = ([], Throw dynamic_pools_not_enabled_for_partitioner)
     ∧ kind_of dynamic_pools_not_enabled_for_partitioner = BadParameter)
  ∧ (∀ i d,
       dynamic_pools_allowed s = true →
       get_pool_data pool_name s = Return (i, d) →
       pool_consistent d →
       (¬ has_non_exclusive_entry d →
          shrink_pool pool_name s = ([], Throw (no_non_exclusive_pus pool_name))
          ∧ kind_of (no_non_exclusive_pus pool_name) = BadParameter)
       ∧ (has_non_exclusive_entry d →
            ∃ calls,
              shrink_pool pool_name s = (calls, Return (N.of_nat (length calls)))
              ∧ calls = (λ ie : nat * pu_entry, N.of_nat ie.1)
                          <$> non_exclusive_cores true d
              ∧ (∀ v, v ∈ calls ↔
                      ∃ e, assigned_pu_nums_ d !! N.to_nat v = Some e
                           ∧ entry_exclusive e = false
                           ∧ entry_assigned e = true)
              ∧ NoDup calls
              ∧ StronglySorted N.lt calls)).
Proof.
  split.
  - intros Hdyn. unfold shrink_pool, scan_pool. by rewrite Hdyn.
  - intros i d Hdyn Hget Hcons.
    pose proof (scan_pool_spec true pool_name s i d Hdyn Hget Hcons) as Hscan.
    pose proof (existsb_non_exclusive d) as Hex.
    unfold shrink_pool. split.
    + intros Hnone. destruct (existsb _ _); [|done].
      exfalso. by apply Hnone, Hex.
    + intros Hsome. apply Hex in Hsome. rewrite Hsome in Hscan.
      eexists. split; [done|]. split_and!.
      * apply collected_non_exclusive_cores.
      * intros v. rewrite collected_elem_of. split.
        -- intros (j & e & He & -> & Hexcl & Hassigned).
           exists e. by rewrite Nat.add_0_l, Nat2N.id.
        -- intros (e & He & Hexcl & Hassigned).
           exists (N.to_nat v), e. split_and!; try done. lia.
      * apply collected_NoDup.
      * apply collected_sorted.
Qed.

(** *** Binding a PU to a pool (C5, C1) *)

Lemma add_resource_to_pool_in_range pu_index pool_name exclusive num_threads
    s i d :
  get_pool_data pool_name s = Return (i, d) →
  pu_index < hardware_concurrency →
  add_resource_to_pool pu_index pool_name exclusive num_threads s =
    (partitioner_with_resource i d pu_index exclusive num_threads s, Return ()).
Proof.
  intros Hget Hlt. unfold add_resource_to_pool, init_pool_data_add_resource.
  rewrite Hget. by rewrite (proj2 (N.leb_gt _ _) Hlt).
Qed.

Lemma add_resource_to_pool_out_of_range pu_index pool_name exclusive
    num_threads s i d :
  get_pool_data pool_name s = Return (i, d) →
  hardware_concurrency ≤ pu_index →
  add_resource_to_pool pu_index pool_name exclusive num_threads s =
    (s, Throw pu_index_out_of_bounds).
Proof.
  intros Hget Hle. unfold add_resource_to_pool, init_pool_data_add_resource.
  rewrite Hget. rewrite (proj2 (N.leb_le _ _) Hle).
  apply get_pool_data_Return in Hget as [Hi _].
  rewrite put_pool_data_same by done. by destruct s.
Qed.

(** What [add_resource] does with oversubscription off, for a pool that is
    there and a PU of the machine. *)
Lemma add_resource_no_oversubscription p pool_name exclusive num_threads s i d :
  oversubscription_allowed s = false →
  negb exclusive && negb (dynamic_pools_allowed s) = false →
  get_pool_data pool_name s = Return (i, d) →
  id_ p < hardware_concurrency →
  add_resource p pool_name exclusive num_threads s =
    if thread_occupancy_count_ p =? 0 then
      let s' := partitioner_with_resource i d (id_ p) exclusive num_threads s in
      (increment_occupancy_count p, s',
       if num_os_threads s <? num_threads_overall s'
       then Throw (more_threads_than_os_threads (num_threads_overall s')
                     (num_os_threads s))
       else Return ())
    else (p, s, Throw (pu_occupancy_exhausted (id_ p) (thread_occupancy_ p))).
Proof.
  intros Hover Hdyn Hget Hlt. unfold add_resource.
  rewrite Hdyn, Hover.
  destruct (thread_occupancy_count_ p =? 0); [|done].
  rewrite (add_resource_to_pool_in_range _ _ _ _ _ _ _ Hget Hlt).
  fold (num_os_threads s). cbn zeta. by destruct (_ <? _).
Qed.

(** C5, as the code has it.  [add_resource(p, pool)] (exclusive, one
    thread) with oversubscription off, on a pool that is there.  It throws
    the [std::runtime_error] of the exhausted occupancy exactly when
    [p.thread_occupancy_count_ > 0], and then nothing has changed.  That is
    not the only [Runtime] error: with the counter at 0 and [p] a PU of the
    machine, the call throws the [std::runtime_error] of the thread budget
    when [num_threads_overall], raised by one, exceeds [hpx.os_threads]; so
    a [Runtime] error is thrown exactly when the counter is positive or the
    budget is overshot.  With the counter at 0 and [p] not a PU of the
    machine the call throws a bad-parameter error and changes nothing.
    With the counter at 0 and [p] a PU of the machine, the lookup of the
    pool afterwards finds, at the same position, the pool with one more
    entry [(p.id_, true, false)] and one more mask, of
    [hardware_concurrency] bits with only the bit of [p.id_] raised, and
    with its thread count raised by one; the other pools are as before,
    [num_threads_overall] is one higher and the counter of [p] is 1; the
    call returns exactly when [num_threads_overall] then is at most
    [hpx.os_threads]. *)
Theorem add_resource_occupancy (p : pu) (pool_name : string) (s : partitioner)
    (i : nat) (d : init_pool_data) :
  oversubscription_allowed s = false →
  get_pool_data pool_name s = Return (i, d) →
  let r := add_resource p pool_name true 1 s in
  let overall' := wrap (num_threads_overall s + 1) in
  (r.2 = Throw (pu_occupancy_exhausted (id_ p) (thread_occupancy_ p))
   ↔ 0 < thread_occupancy_count_ p)
  ∧ (0 < thread_occupancy_count_ p →
       r.1 = (p, s)
       ∧ get_pool_data pool_name r.1.2 = Return (i, d)
       ∧ kind_of (pu_occupancy_exhausted (id_ p) (thread_occupancy_ p))
         = Runtime)
  ∧ ((∃ e, r.2 = Throw e ∧ kind_of e = Runtime)
     ↔ 0 < thread_occupancy_count_ p
       ∨ (id_ p < hardware_concurrency ∧ num_os_threads s < overall'))
  ∧ (thread_occupancy_count_ p = 0 → hardware_concurrency ≤ id_ p →
       r = (p, s, Throw pu_index_out_of_bounds)
       ∧ kind_of pu_index_out_of_bounds = BadParameter)
  ∧ (thread_occupancy_count_ p = 0 → id_ p < hardware_concurrency →
       let d' :=
         set_assignment (assigned_pus_ d ++ [one_hot_mask (id_ p)])
           (assigned_pu_nums_ d ++ [(id_ p, true, false)])
           (wrap (num_threads_ d + 1)) d in
       let s' := set_num_threads_overall overall' (put_pool_data i d' s) in
       r.1 = (mk_pu (id_ p) (thread_occupancy_ p) 1, s')
       ∧ get_pool_data pool_name r.1.2 = Return (i, d')
       ∧ assigned_pu_nums_ d' = assigned_pu_nums_ d ++ [(id_ p, true, false)]
       ∧ assigned_pus_ d' = assigned_pus_ d ++ [one_hot_mask (id_ p)]
       ∧ length (one_hot_mask (id_ p)) = N.to_nat hardware_concurrency
       ∧ (∀ k, (k < N.to_nat hardware_concurrency)%nat →
               one_hot_mask (id_ p) !! k
               = Some (bool_decide (k = N.to_nat (id_ p))))
       ∧ num_threads_ d' = wrap (num_threads_ d + 1)
       ∧ length (initial_thread_pools_ r.1.2) = length (initial_thread_pools_ s)
       ∧ (∀ j, j ≠ i →
               initial_thread_pools_ r.1.2 !! j = initial_thread_pools_ s !! j)
       ∧ num_threads_overall r.1.2 = overall'
       ∧ (r.2 = Return () ↔ overall' ≤ num_os_threads s)
       ∧ (r.2 = Throw (more_threads_than_os_threads overall' (num_os_threads s))
          ↔ num_os_threads s < overall')
       ∧ kind_of (more_threads_than_os_threads overall' (num_os_threads s))
         = Runtime).
Proof.
  intros Hover Hget r overall'.
  pose proof (get_pool_data_Return _ _ _ _ Hget) as [Hi Hname].
  destruct (thread_occupancy_count_ p =? 0) eqn:Hcount.
  - (* the counter is 0 *)
    apply N.eqb_eq in Hcount.
    destruct (N.le_gt_cases hardware_concurrency (id_ p)) as [Hle|Hlt].
    + (* not a PU of the machine *)
      assert (r = (p, s, Throw pu_index_out_of_bounds)) as Hr.
      { unfold r, add_resource. rewrite Hover, Hcount. simpl.
        by rewrite (add_resource_to_pool_out_of_range _ _ _ _ _ i d). }
      rewrite Hr. cbn [fst snd].
      refine (conj _ (conj _ (conj _ (conj _ _)))).
      * split; [intros [=]|lia].
      * lia.
      * split; [by intros (e & [= <-] & ?)|intros [?|[? _]]; lia].
      * done.
      * lia.
    + (* a PU of the machine *)
      set (d' := set_assignment (assigned_pus_ d ++ [one_hot_mask (id_ p)])
                   (assigned_pu_nums_ d ++ [(id_ p, true, false)])
                   (wrap (num_threads_ d + 1)) d).
      set (s' := set_num_threads_overall overall' (put_pool_data i d' s)).
      assert (r = (mk_pu (id_ p) (thread_occupancy_ p) 1, s',
                   if num_os_threads s <? overall'
                   then Throw (more_threads_than_os_threads overall'
                                 (num_os_threads s))
                   else Return ())) as Hr.
      { unfold r. rewrite (add_resource_no_oversubscription _ _ _ _ _ i d)
          by done.
        rewrite Hcount. cbn zeta.
        change (partitioner_with_resource i d (id_ p) true 1 s) with s'.
        unfold increment_occupancy_count. by rewrite Hcount. }
      rewrite Hr. cbn [fst snd].
      assert (length (one_hot_mask (id_ p)) = N.to_nat hardware_concurrency)
        as Hlen.
      { unfold one_hot_mask, threads_set, threads_resize.
        by rewrite resize_nil, length_insert, length_replicate. }
      assert (∀ k, (k < N.to_nat hardware_concurrency)%nat →
                one_hot_mask (id_ p) !! k
                = Some (bool_decide (k = N.to_nat (id_ p)))) as Hbits.
      { intros k Hk. unfold one_hot_mask, threads_set, threads_resize.
        rewrite resize_nil.
        destruct (decide (k = N.to_nat (id_ p))) as [->|Hne].
        - rewrite list_lookup_insert_eq by (rewrite length_replicate; lia).
          by rewrite bool_decide_eq_true_2.
        - rewrite list_lookup_insert_ne by done.
          rewrite lookup_replicate_2 by done.
          by rewrite bool_decide_eq_false_2. }
      assert (get_pool_data pool_name s' = Return (i, d')) as Hget'.
      { by apply (get_pool_data_put _ _ _ d). }
      assert (length (initial_thread_pools_ s')
              = length (initial_thread_pools_ s)) as Hlength.
      { simpl. apply length_insert. }
      assert (∀ j, j ≠ i →
                initial_thread_pools_ s' !! j = initial_thread_pools_ s !! j)
        as Hothers.
      { intros j Hj. simpl. by apply list_lookup_insert_ne. }
      refine (conj _ (conj _ (conj _ (conj _ _)))).
      * split; [|lia]. by destruct (_ <? _).
      * lia.
      * destruct (num_os_threads s <? overall') eqn:Hbudget.
        -- apply N.ltb_lt in Hbudget. split; [by right|by eexists].
        -- apply N.ltb_ge in Hbudget.
           split; [by intros (e & [=] & _)|intros [?|[_ ?]]; lia].
      * lia.
      * intros _ _.
        destruct (num_os_threads s <? overall') eqn:Hbudget;
          [apply N.ltb_lt in Hbudget|apply N.ltb_ge in Hbudget].
        -- split_and!; try done.
           ++ split; [intros [=]|lia].
        -- split_and!; try done.
           ++ split; [intros [=]|lia].
  - (* the counter is positive *)
    apply N.eqb_neq in Hcount.
    assert (r = (p, s, Throw (pu_occupancy_exhausted (id_ p)
                                (thread_occupancy_ p)))) as ->.
    { unfold r, add_resource. rewrite Hover.
      by rewrite (proj2 (N.eqb_neq _ _) Hcount). }
    cbn [fst snd]. refine (conj _ (conj _ (conj _ (conj _ _)))).
    + split; [lia|done].
    + intros _. done.
    + split; [intros _; left; lia|intros _; by eexists].
    + intros ?. lia.
    + intros ?. lia.
Qed.


(** *** Filling the default pool (C2) *)

Lemma can_bind_app_l s acc acc' : can_bind s (acc ++ acc') → can_bind s acc.
Proof.
  unfold can_bind. rewrite Forall_app, length_app.
  intros [[Hacc _] [Hover|Hbudget]]; (split; [done|]); [by left|right; lia].
Qed.

Lemma wrap_small n : n < size_t_modulus → wrap n = n.
Proof. apply N.mod_small. Qed.

Lemma from_string_size_t_lt str : from_string_size_t str 0 < size_t_modulus.
Proof.
  unfold from_string_size_t. destruct (decide _); [done|].
  destruct (NilEmpty.uint_of_string str) as [u|]; [|done]. simpl.
  destruct (N.of_uint u <? size_t_modulus) eqn:Hlt; [|done].
  by apply N.ltb_lt.
Qed.

Lemma num_os_threads_lt s : num_os_threads s < size_t_modulus.
Proof. apply from_string_size_t_lt. Qed.

Lemma bump_counter_small k n :
  n + N.of_nat k < size_t_modulus → bump_counter k n = n + N.of_nat k.
Proof.
  unfold bump_counter. induction k as [|k IH]; intros Hlt; simpl.
  - lia.
  - rewrite IH by lia. rewrite wrap_small by lia. lia.
Qed.

Lemma default_pool_entries_snoc dynamic acc p :
  default_pool_entries dynamic (acc ++ [p])
  = default_pool_entries dynamic acc
    ++ [(id_ p, bool_decide (acc = []) || negb dynamic, false)].
Proof.
  unfold default_pool_entries. rewrite imap_app. simpl. do 4 f_equal.
  rewrite Nat.add_0_r. destruct acc; by simpl.
Qed.

Lemma with_default_bindings_nil s : with_default_bindings [] s = s.
Proof.
  unfold with_default_bindings.
  destruct (initial_thread_pools_ s) as [|d0 rest] eqn:Hpools; [done|].
  simpl. rewrite !app_nil_r.
  replace (set_assignment _ _ _ d0) with d0 by (by destruct d0).
  destruct s. simpl in *. by rewrite Hpools.
Qed.

(** One free PU of the machine, within the budget: the body of the loop
    binds it to the pool at index 0, exclusively when it is the first. *)
Lemma setup_pools_pu_free s acc p :
  initial_thread_pools_ s ≠ [] →
  thread_occupancy_count_ p = 0 →
  can_bind s (acc ++ [p]) →
  setup_pools_pu p (fill_state s acc)
  = (increment_occupancy_count p, fill_state s (acc ++ [p]), Return ()).
Proof.
  intros Hpools Hcount [Hrange Hbudget].
  apply Forall_app in Hrange as [_ Hrange%Forall_inv]. simpl in Hrange.
  destruct (initial_thread_pools_ s) as [|d0 rest] eqn:Hs; [done|]. clear Hpools.
  unfold fill_state, setup_pools_pu. rewrite Hcount. cbn [N.eqb].
  set (sk := with_default_bindings acc s).
  set (dk := set_assignment
               (assigned_pus_ d0 ++ ((λ p, one_hot_mask (id_ p)) <$> acc))
               (assigned_pu_nums_ d0
                  ++ default_pool_entries (dynamic_pools_allowed s) acc)
               (bump_counter (length acc) (num_threads_ d0)) d0).
  assert (initial_thread_pools_ sk = dk :: rest) as Hsk.
  { unfold sk, with_default_bindings. by rewrite Hs. }
  assert (dynamic_pools_allowed sk = dynamic_pools_allowed s) as Hdyn.
  { unfold sk, with_default_bindings. by rewrite Hs. }
  assert (oversubscription_allowed sk = oversubscription_allowed s) as Hover.
  { unfold sk, with_default_bindings. by rewrite Hs. }
  assert (num_os_threads sk = num_os_threads s) as Hos.
  { unfold sk, with_default_bindings. by rewrite Hs. }
  assert (num_threads_overall sk
          = bump_counter (length acc) (num_threads_overall s)) as Hoverall.
  { unfold sk, with_default_bindings. by rewrite Hs. }
  assert (get_pool_data (get_default_pool_name sk) sk = Return (0%nat, dk))
    as Hget.
  { unfold get_pool_data, get_default_pool_name. rewrite Hsk. simpl.
    by rewrite decide_True. }
  set (exclusive := bool_decide (acc = []) || negb (dynamic_pools_allowed sk)).
  assert (partitioner_with_resource 0 dk (id_ p) exclusive 1 sk
          = with_default_bindings (acc ++ [p]) s) as Hnext.
  { unfold partitioner_with_resource, pool_with_resource,
      with_default_bindings, put_pool_data.
    rewrite Hs, Hsk, Hoverall. unfold exclusive. rewrite Hdyn.
    rewrite default_pool_entries_snoc, fmap_app, !app_assoc, length_app.
    simpl. rewrite Nat.add_1_r. simpl.
    unfold sk, with_default_bindings. rewrite Hs. done. }
  assert (bool_decide (acc ++ [p] = []) = false) as ->.
  { apply bool_decide_eq_false. by destruct acc. }
  destruct (oversubscription_allowed s) eqn:Hmode.
  - unfold add_resource. rewrite Hover, Hdyn.
    replace (negb exclusive && negb (dynamic_pools_allowed s)) with false
      by (unfold exclusive; rewrite Hdyn;
          by destruct (bool_decide _), (dynamic_pools_allowed s)).
    rewrite (add_resource_to_pool_in_range _ _ _ _ _ 0%nat dk) by done.
    fold exclusive. by rewrite Hnext.
  - rewrite (add_resource_no_oversubscription _ _ _ _ _ 0%nat dk);
      [|by rewrite Hover|
       unfold exclusive;
         by destruct (bool_decide _), (dynamic_pools_allowed sk)|done..].
    rewrite Hcount. cbn [N.eqb]. cbn zeta. fold exclusive.
    rewrite Hnext, Hos.
    destruct Hbudget as [|Hbudget]; [done|].
    rewrite length_app in Hbudget. simpl in Hbudget.
    pose proof (num_os_threads_lt s) as Hlt.
    assert (num_threads_overall (with_default_bindings (acc ++ [p]) s)
            = num_threads_overall s + N.of_nat (length acc + 1)) as ->.
    { unfold with_default_bindings. rewrite Hs. simpl.
      rewrite length_app. simpl. apply bump_counter_small. lia. }
    by rewrite (proj2 (N.ltb_ge _ _)) by lia.
Qed.

(** A loop whose body binds the free PUs [g x] of each element [x] binds
    the free PUs of all elements, in order. *)
Lemma for_each_accumulate {A} s
    (body : A → bool * partitioner → (A * (bool * partitioner)) * outcome unit)
    (fx : A → A) (g : A → list pu) :
  (∀ x acc, can_bind s (acc ++ g x) →
     body x (fill_state s acc) = (fx x, fill_state s (acc ++ g x), Return ())) →
  ∀ l acc, can_bind s (acc ++ (l ≫= g)) →
    for_each body l (fill_state s acc)
    = (fx <$> l, fill_state s (acc ++ (l ≫= g)), Return ()).
Proof.
  intros Hbody l. induction l as [|x l IH]; intros acc Hcan.
  { simpl. by rewrite app_nil_r. }
  rewrite bind_cons, app_assoc in Hcan. cbn [for_each].
  rewrite Hbody by (by eapply can_bind_app_l).
  rewrite IH by done. by rewrite bind_cons, app_assoc.
Qed.

Lemma bind_free_of_pu ps :
  ps ≫= free_of_pu = filter (λ p, thread_occupancy_count_ p = 0) ps.
Proof.
  induction ps as [|p ps IH]; [done|].
  rewrite bind_cons, filter_cons, IH. unfold free_of_pu.
  by destruct (decide _).
Qed.

Lemma filter_bind {A B} (P : B → Prop) `{∀ x, Decision (P x)}
    (f : A → list B) (l : list A) :
  filter P (l ≫= f) = l ≫= (λ x, filter P (f x)).
Proof.
  induction l as [|x l IH]; [done|].
  by rewrite !bind_cons, filter_app, IH.
Qed.

Lemma setup_pools_pu_spec s p acc :
  initial_thread_pools_ s ≠ [] →
  can_bind s (acc ++ free_of_pu p) →
  setup_pools_pu p (fill_state s acc)
  = (bound_pu p, fill_state s (acc ++ free_of_pu p), Return ()).
Proof.
  intros Hpools Hcan. unfold bound_pu, free_of_pu in *.
  destruct (decide (thread_occupancy_count_ p = 0)) as [Hcount|Hcount].
  - by apply setup_pools_pu_free.
  - rewrite app_nil_r. unfold setup_pools_pu, fill_state.
    by rewrite (proj2 (N.eqb_neq _ _) Hcount).
Qed.

Lemma setup_pools_core_spec s c acc :
  initial_thread_pools_ s ≠ [] →
  can_bind s (acc ++ (pus_ c ≫= free_of_pu)) →
  setup_pools_core c (fill_state s acc)
  = (bound_core c, fill_state s (acc ++ (pus_ c ≫= free_of_pu)), Return ()).
Proof.
  intros Hpools Hcan. unfold setup_pools_core.
  rewrite (for_each_accumulate s setup_pools_pu bound_pu free_of_pu); [done| |done].
  intros p acc'. by apply setup_pools_pu_spec.
Qed.

Lemma setup_pools_domain_spec s d acc :
  initial_thread_pools_ s ≠ [] →
  can_bind s (acc ++ (cores_ d ≫= λ c, pus_ c ≫= free_of_pu)) →
  setup_pools_domain d (fill_state s acc)
  = (bound_domain d,
     fill_state s (acc ++ (cores_ d ≫= λ c, pus_ c ≫= free_of_pu)),
     Return ()).
Proof.
  intros Hpools Hcan. unfold setup_pools_domain.
  rewrite (for_each_accumulate s setup_pools_core bound_core
             (λ c, pus_ c ≫= free_of_pu)); [done| |done].
  intros c acc'. by apply setup_pools_core_spec.
Qed.

Lemma free_pus_bind s :
  free_pus s
  = numa_domains_ s ≫= λ d, cores_ d ≫= λ c, pus_ c ≫= free_of_pu.
Proof.
  unfold free_pus, mirror_pus. rewrite filter_bind.
  apply list_bind_ext; [|done]. intros d. rewrite filter_bind.
  apply list_bind_ext; [|done]. intros c. by rewrite bind_free_of_pu.
Qed.

(** The three loops of [setup_pools], when the free PUs can be bound. *)
Lemma setup_pools_fill_spec s :
  initial_thread_pools_ s ≠ [] →
  can_bind s (free_pus s) →
  setup_pools_fill s
  = (set_numa_domains_ (bound_domain <$> numa_domains_ s)
       (with_default_bindings (free_pus s) s),
     Return ()).
Proof.
  intros Hpools Hcan. unfold setup_pools_fill.
  assert ((true, s) = fill_state s []) as ->.
  { unfold fill_state. by rewrite with_default_bindings_nil. }
  rewrite free_pus_bind in *.
  rewrite (for_each_accumulate s setup_pools_domain bound_domain
             (λ d, cores_ d ≫= λ c, pus_ c ≫= free_of_pu)); [done| |done].
  intros d acc. by apply setup_pools_domain_spec.
Qed.

Lemma mirror_pus_bound ds :
  mirror_pus (bound_domain <$> ds) = bound_pu <$> mirror_pus ds.
Proof.
  unfold mirror_pus. induction ds as [|d ds IH]; [done|].
  rewrite fmap_cons, !bind_cons, fmap_app, IH. f_equal.
  unfold bound_domain. simpl. clear IH.
  induction (cores_ d) as [|c cs IH]; [done|].
  by rewrite fmap_cons, !bind_cons, fmap_app, IH.
Qed.

Lemma bound_pu_not_free p : thread_occupancy_count_ (bound_pu p) ≠ 0.
Proof.
  unfold bound_pu. destruct (decide _) as [Hcount|Hcount]; [|done].
  simpl. by rewrite Hcount.
Qed.

Lemma default_pool_entries_lookup dynamic ps k p :
  ps !! k = Some p →
  default_pool_entries dynamic ps !! k
  = Some (id_ p, bool_decide (k = 0%nat) || negb dynamic, false).
Proof.
  intros Hk. unfold default_pool_entries. by rewrite list_lookup_imap, Hk.
Qed.

Lemma setup_pools_state s : (setup_pools s).1 = (setup_pools_fill s).1.
Proof.
  unfold setup_pools. destruct (setup_pools_fill s) as [s' [[]| |]]; try done.
  destruct (get_pool_data _ _) as [[i d]| |]; try done.
  destruct (_ =? _); [done|]. by destruct (check_empty_pools s').
Qed.

(** C2, as the code has it.  When the free PUs of the mirror (those with
    [thread_occupancy_count_ == 0], in iteration order) are PUs of the
    machine and, unless oversubscription is allowed, their number fits into
    what [hpx.os_threads] leaves, the loops of [setup_pools] return and
    append one entry per free PU, in that order, to the pool at index 0:
    the first entry exclusive whatever the mode, each later one
    non-exclusive if and only if dynamic pools are allowed.  Every free PU
    is then bound to the default pool with its counter raised; no PU of the
    mirror is free any more, and the other pools are as before. *)
Theorem setup_pools_binds_free_pus (s : partitioner)
    (d0 : init_pool_data) (rest : list init_pool_data) :
  initial_thread_pools_ s = d0 :: rest →
  Forall (λ p, id_ p < hardware_concurrency) (free_pus s) →
  oversubscription_allowed s = true
  ∨ num_threads_overall s + N.of_nat (length (free_pus s)) ≤ num_os_threads s →
  let dynamic := dynamic_pools_allowed s in
  let s' := (setup_pools_fill s).1 in
  (setup_pools_fill s).2 = Return ()
  ∧ (setup_pools s).1 = s'
  ∧ (∃ d0', initial_thread_pools_ s' = d0' :: rest
       ∧ assigned_pu_nums_ d0'
         = assigned_pu_nums_ d0 ++ default_pool_entries dynamic (free_pus s)
       ∧ assigned_pus_ d0'
         = assigned_pus_ d0 ++ ((λ p, one_hot_mask (id_ p)) <$> free_pus s)
       ∧ ∀ p, p ∈ free_pus s → bound_to (id_ p) d0')
  ∧ (∀ p, free_pus s !! 0%nat = Some p →
       default_pool_entries dynamic (free_pus s) !! 0%nat
       = Some (id_ p, true, false))
  ∧ (∀ k p, free_pus s !! S k = Some p →
       default_pool_entries dynamic (free_pus s) !! S k
       = Some (id_ p, negb dynamic, false))
  ∧ mirror_pus (numa_domains_ s') = bound_pu <$> mirror_pus (numa_domains_ s)
  ∧ free_pus s' = [].
Proof.
  intros Hpools Hrange Hbudget dynamic s'.
  assert (setup_pools_fill s
          = (set_numa_domains_ (bound_domain <$> numa_domains_ s)
               (with_default_bindings (free_pus s) s), Return ())) as Hfill.
  { apply setup_pools_fill_spec; [by rewrite Hpools|done]. }
  unfold s'. rewrite setup_pools_state, Hfill. cbn [fst snd].
  split_and!; try done.
  - unfold with_default_bindings. rewrite Hpools. simpl.
    eexists. split_and!; try done.
    intros p Hp. unfold bound_to. simpl. rewrite fmap_app.
    apply elem_of_app. right.
    apply list_elem_of_lookup in Hp as [k Hk].
    apply list_elem_of_fmap.
    exists (id_ p, bool_decide (k = 0%nat) || negb dynamic, false).
    split; [done|]. apply list_elem_of_lookup. exists k.
    by apply default_pool_entries_lookup.
  - intros p Hp. by rewrite (default_pool_entries_lookup _ _ _ _ Hp).
  - intros k p Hp. by rewrite (default_pool_entries_lookup _ _ _ _ Hp).
  - simpl. apply mirror_pus_bound.
  - unfold free_pus. simpl. rewrite mirror_pus_bound.
    induction (mirror_pus (numa_domains_ s)) as [|p ps IH]; [done|].
    rewrite fmap_cons, filter_cons, IH.
    by rewrite decide_False by apply bound_pu_not_free.
Qed.

(** *** The first-core shift (C6) *)

Lemma assign_first_core_loop_spec first_core masks nums pre_masks pre_nums :
  length masks = length nums →
  length pre_masks = length pre_nums →
  assign_first_core_loop first_core (length nums) (length pre_nums)
    (pre_masks ++ masks) (pre_nums ++ nums)
  = Some (pre_masks ++ zip_with (shifted_mask first_core) masks nums,
          pre_nums ++ (shifted_entry first_core <$> nums)).
Proof.
  revert masks pre_masks pre_nums.
  induction nums as [|e nums IH]; intros masks pre_masks pre_nums Hlen Hpre.
  { destruct masks; [|done]. done. }
  destruct masks as [|m masks]; [done|]. injection Hlen as Hlen.
  cbn [length assign_first_core_loop].
  rewrite lookup_app_r, Nat.sub_diag by lia. cbn [lookup list_lookup].
  rewrite <- Hpre at 1.
  rewrite lookup_app_r, Nat.sub_diag by lia. cbn [lookup list_lookup].
  replace (<[length pre_nums:=_]> (pre_masks ++ m :: masks))
    with ((pre_masks ++ [shifted_mask first_core m e]) ++ masks).
  2:{ rewrite <- Hpre, <- (Nat.add_0_r (length pre_masks)), insert_app_r.
      by rewrite <- app_assoc. }
  replace (<[length pre_nums:=_]> (pre_nums ++ e :: nums))
    with ((pre_nums ++ [shifted_entry first_core e]) ++ nums).
  2:{ rewrite <- (Nat.add_0_r (length pre_nums)) at 1. rewrite insert_app_r.
      by rewrite <- app_assoc. }
  specialize (IH masks (pre_masks ++ [shifted_mask first_core m e])
                (pre_nums ++ [shifted_entry first_core e]) Hlen).
  rewrite !length_app in IH. simpl in IH. rewrite !Nat.add_1_r in IH.
  rewrite IH by lia. simpl. by rewrite <- !app_assoc.
Qed.

(** On a pool consistent with the data model [assign_first_core] shifts
    every entry and rewrites its mask. *)
Lemma assign_first_core_spec first_core d :
  pool_consistent d →
  assign_first_core first_core d = (shifted_pool first_core d, Return ()).
Proof.
  intros [Hlen Hnum]. unfold assign_first_core.
  rewrite Hnum, Nat2N.id.
  pose proof (assign_first_core_loop_spec first_core (assigned_pus_ d)
                (assigned_pu_nums_ d) [] [] Hlen eq_refl) as Hloop.
  simpl in Hloop. rewrite Hloop. unfold shifted_pool. by rewrite Hnum.
Qed.

Lemma assign_first_core_all_spec first_core pools :
  Forall pool_consistent pools →
  assign_first_core_all first_core pools
  = (shifted_pool first_core <$> pools, Return ()).
Proof.
  unfold assign_first_core_all. induction 1 as [|d pools Hd _ IH]; [done|].
  cbn [for_each]. rewrite (assign_first_core_spec _ _ Hd).
  destruct (for_each _ pools ()) as [[pools' u] r].
  injection IH as -> ->. by destruct u.
Qed.

(** What [assign_cores] does for a [first_core] other than the cached one,
    on pools consistent with the data model: unless the difference to the
    cached value is 0, every entry is shifted by [first_core_offset] and its
    mask is rewritten; the new value is cached and the affinity map is
    rewritten from the pools. *)
Lemma assign_cores_spec first_core s :
  first_core_ s ≠ first_core →
  Forall pool_consistent (initial_thread_pools_ s) →
  let pools :=
    if decide (first_core_delta first_core s = 0) then initial_thread_pools_ s
    else shifted_pool (first_core_offset first_core s)
           <$> initial_thread_pools_ s in
  let s1 := set_first_core_ first_core (set_initial_thread_pools_ pools s) in
  assign_cores first_core s
  = ((threads_needed (reconfigure_affinities_locked s1)).1,
     Return (threads_needed (reconfigure_affinities_locked s1)).2).
Proof.
  intros Hne Hcons pools s1. unfold assign_cores.
  rewrite decide_True by done.
  unfold s1, pools, first_core_offset, first_core_delta.
  set (delta := if decide (first_core_ s ≠ size_t_minus_one) then _ else _).
  destruct (decide (delta ≠ 0)) as [Hdelta|Hdelta].
  - rewrite (assign_first_core_all_spec _ _ Hcons).
    rewrite decide_False by done. by destruct (threads_needed _).
  - rewrite decide_True by (by destruct (decide (delta = 0))).
    by destruct (threads_needed _).
Qed.

Lemma sub_size_t_exact a b :
  b ≤ a → a < size_t_modulus → sub_size_t a b = a - b.
Proof.
  intros Hle Hlt. unfold sub_size_t.
  rewrite (wrap_small b) by lia.
  replace (a + size_t_modulus - b) with (a - b + 1 * size_t_modulus) by lia.
  unfold wrap. rewrite N.Div0.mod_add. apply N.mod_small. lia.
Qed.

Lemma shifted_pool_exact offset d :
  Forall (λ e, entry_pu_id e + offset < size_t_modulus) (assigned_pu_nums_ d) →
  shifted_pool offset d = shift_pool offset d.
Proof.
  intros Hsmall. unfold shifted_pool, shift_pool. f_equal.
  - revert Hsmall. generalize (assigned_pus_ d).
    induction (assigned_pu_nums_ d) as [|e nums IH]; intros masks Hsmall.
    { by destruct masks. }
    destruct masks as [|m masks]; [done|]. simpl.
    apply Forall_cons in Hsmall as [He Hsmall]. rewrite IH by done.
    unfold shifted_mask, shifted_pu_num, shift_pu_num.
    by rewrite wrap_small.
  - apply list_fmap_ext. intros i e Hi.
    eapply Forall_lookup_1 in Hsmall; [|done]. simpl in Hsmall.
    unfold shifted_entry, shifted_pu_num, shift_pu_num.
    by rewrite wrap_small.
Qed.

(** Shifting forward without overflow: [assign_cores(first_core)] for a
    [first_core] above the cached one moves every entry of every pool to
    [(pu_num + offset) mod hardware_concurrency] with
    [offset = (first_core - cached) * pus_per_core(first_core)], rewrites
    the masks, caches [first_core] and rewrites the affinity map
    pool-major. *)
Lemma assign_cores_shifts_forward first_core s :
  Forall pool_consistent (initial_thread_pools_ s) →
  first_core_ s ≠ first_core →
  first_core < size_t_modulus →
  cached_first_core s < first_core →
  let offset :=
    (first_core - cached_first_core s)
    * get_number_of_core_pus (topo_ s) first_core in
  offset < size_t_modulus →
  Forall (λ d, Forall (λ e, entry_pu_id e + offset < size_t_modulus)
                 (assigned_pu_nums_ d)) (initial_thread_pools_ s) →
  let s' := (assign_cores first_core s).1 in
  let pools := shift_pool offset <$> initial_thread_pools_ s in
  (∃ n, (assign_cores first_core s).2 = Return n)
  ∧ first_core_ s' = first_core
  ∧ initial_thread_pools_ s' = pools
  ∧ affinity_pu_nums_ (affinity_data_ s')
    = (d ← pools; entry_pu_id <$> assigned_pu_nums_ d)
  ∧ affinity_masks_ (affinity_data_ s') = (d ← pools; assigned_pus_ d).
Proof.
  intros Hcons Hne Hfc Hcached offset Hoffset Hsmall s' pools.
  assert (first_core_delta first_core s = first_core - cached_first_core s)
    as Hdelta.
  { unfold first_core_delta, cached_first_core in *.
    destruct (decide (first_core_ s = size_t_minus_one)) as [Heq|Hneq].
    - rewrite decide_False by (by intros ?). lia.
    - rewrite decide_True by done. apply sub_size_t_exact; lia. }
  assert (first_core_offset first_core s = offset) as Hoff.
  { unfold first_core_offset. rewrite Hdelta. by apply wrap_small. }
  assert (shifted_pool offset <$> initial_thread_pools_ s = pools) as Hpools.
  { unfold pools. apply list_fmap_ext. intros i d Hi.
    apply shifted_pool_exact. by eapply Forall_lookup_1 in Hsmall. }
  unfold s'. rewrite (assign_cores_spec _ _ Hne Hcons).
  rewrite decide_False by lia. rewrite Hoff, Hpools.
  unfold threads_needed. cbn [fst snd].
  destruct (_ =? _); cbn [fst snd]; split_and!; by eauto.
Qed.


(** *** The runs are runs of the partitioner *)

Lemma reachable_started mode os_threads : reachable (started mode os_threads).
Proof. apply reachable_init. Qed.

Lemma reachable_started_one_worker : reachable started_one_worker.
Proof. apply reachable_init. Qed.


Lemma reachable_first_pu_bound os_threads :
  reachable (first_pu_bound os_threads).
Proof.
  eapply reachable_step; [apply reachable_started|].
  apply step_add_resource_mirror.
Qed.

Lemma reachable_first_pu_bound_and_shifted first_core os_threads :
  reachable (first_pu_bound_and_shifted first_core os_threads).
Proof.
  eapply reachable_step; [apply reachable_first_pu_bound|].
  apply step_assign_cores.
Qed.

Lemma reachable_configured os_threads : reachable (configured os_threads).
Proof.
  eapply reachable_step; [apply reachable_started|].
  apply step_configure_pools.
Qed.

Lemma reachable_configured_and_shifted first_core os_threads :
  reachable (configured_and_shifted first_core os_threads).
Proof.
  eapply reachable_step; [apply reachable_configured|].
  apply step_assign_cores.
Qed.

Lemma reachable_dynamic_pu_assigned ci os_threads :
  reachable (dynamic_pu_assigned ci os_threads).
Proof.
  eapply reachable_step; [eapply reachable_step; [apply reachable_started|]|].
  - apply step_add_resource_mirror.
  - apply step_assign_pu.
Qed.

(** *** The pools of a reachable partitioner *)

Lemma wrap_wrap_add a b : wrap (wrap a + b) = wrap (a + b).
Proof. unfold wrap. by rewrite N.Div0.add_mod_idemp_l. Qed.

Lemma pool_well_formed_fresh name sched mode create func :
  pool_well_formed (mk_init_pool_data name sched [] [] 0 mode create func).
Proof. split; [constructor|done]. Qed.

Lemma pool_well_formed_add_resource pu_index exclusive num_threads d overall :
  pool_well_formed d →
  pool_well_formed
    (init_pool_data_add_resource pu_index exclusive num_threads (d, overall)).1.1.
Proof.
  intros [Hall Hnum]. unfold init_pool_data_add_resource.
  destruct (hardware_concurrency <=? pu_index) eqn:Hle; [done|].
  apply N.leb_gt in Hle. split; simpl.
  - apply Forall2_app; [done|]. by apply Forall2_replicate.
  - rewrite Hnum, wrap_wrap_add, length_app, length_replicate. f_equal. lia.
Qed.

Lemma pools_well_formed_put i d s :
  pools_well_formed s → pool_well_formed d →
  pools_well_formed (put_pool_data i d s).
Proof. intros Hs Hd. by apply Forall_insert. Qed.

Lemma pools_well_formed_get pool_name s i d :
  pools_well_formed s → get_pool_data pool_name s = Return (i, d) →
  pool_well_formed d.
Proof.
  intros Hs [Hi _]%get_pool_data_Return. by eapply Forall_lookup_1 in Hs.
Qed.

Lemma pools_well_formed_add_resource_to_pool pu_index name excl n s :
  pools_well_formed s →
  pools_well_formed (add_resource_to_pool pu_index name excl n s).1.
Proof.
  intros Hs. unfold add_resource_to_pool.
  destruct (get_pool_data name s) as [[i d]| |] eqn:Hget; try done.
  pose proof (pool_well_formed_add_resource pu_index excl n d
                (num_threads_overall s)
                (pools_well_formed_get _ _ _ _ Hs Hget)) as Hd.
  destruct (init_pool_data_add_resource _ _ _ _) as [[d' overall'] r].
  by apply pools_well_formed_put.
Qed.

Lemma pools_well_formed_add_resource p name excl n s :
  pools_well_formed s → pools_well_formed (add_resource p name excl n s).1.2.
Proof.
  intros Hs. unfold add_resource.
  pose proof (pools_well_formed_add_resource_to_pool (id_ p) name excl n s Hs).
  destruct_matches; simpl in *; done.
Qed.

Lemma pools_well_formed_add_resource_mirror di ci pi name excl n s :
  pools_well_formed s →
  pools_well_formed (add_resource_mirror di ci pi name excl n s).1.
Proof.
  intros Hs. unfold add_resource_mirror.
  destruct (mirror_lookup _ _ _ _) as [p|]; [|done].
  pose proof (pools_well_formed_add_resource p name excl n s Hs).
  by destruct (add_resource _ _ _ _ _) as [[p' s'] r].
Qed.

Lemma pools_well_formed_create_thread_pool name sched mode func s :
  pools_well_formed s →
  pools_well_formed (create_thread_pool name sched mode func s).1.
Proof.
  intros Hs. unfold create_thread_pool.
  destruct (decide (name = "")) as [|Hname]; [done|].
  destruct (decide (name = get_default_pool_name s)) as [->|].
  - rewrite init_pool_data_ctor_Return by done.
    destruct (initial_thread_pools_ s) eqn:Hpools; [done|].
    apply pools_well_formed_put; [done|apply pool_well_formed_fresh].
  - destruct (name_taken name s); [done|].
    rewrite init_pool_data_ctor_Return by done.
    apply Forall_app. split; [done|].
    apply Forall_singleton, pool_well_formed_fresh.
Qed.

Lemma pools_well_formed_create_thread_pool_user name create func s :
  pools_well_formed s →
  pools_well_formed (create_thread_pool_user name create func s).1.
Proof.
  intros Hs. unfold create_thread_pool_user.
  destruct (decide (name = "")) as [|Hname]; [done|].
  destruct (decide (name = get_default_pool_name s)) as [->|].
  - rewrite init_pool_data_ctor_user_Return by done.
    destruct (initial_thread_pools_ s) eqn:Hpools; [done|].
    apply pools_well_formed_put; [done|apply pool_well_formed_fresh].
  - destruct (name_taken name s); [done|].
    rewrite init_pool_data_ctor_user_Return by done.
    apply Forall_app. split; [done|].
    apply Forall_singleton, pool_well_formed_fresh.
Qed.

Lemma pools_well_formed_set_scheduler sched name s :
  pools_well_formed s → pools_well_formed (set_scheduler sched name s).1.
Proof.
  intros Hs. unfold set_scheduler.
  destruct (get_pool_data name s) as [[i d]| |] eqn:Hget; try done.
  apply pools_well_formed_put; [done|].
  by apply (pools_well_formed_get _ _ _ _ Hs) in Hget.
Qed.

Lemma pools_well_formed_setup_pools_fill s :
  pools_well_formed s → pools_well_formed (setup_pools_fill s).1.
Proof.
  intros Hs. unfold setup_pools_fill.
  pose proof (for_each_state (λ st, pools_well_formed st.2)
                setup_pools_domain (numa_domains_ s) (true, s)) as H.
  destruct (for_each _ _ _) as [[ds' [first s']] r]. simpl in *.
  apply H; [|done]. clear. intros d st Hst. unfold setup_pools_domain.
  pose proof (for_each_state (λ st, pools_well_formed st.2)
                setup_pools_core (cores_ d) st) as H.
  destruct (for_each _ _ _) as [[cs' st'] r]. simpl in *.
  apply H; [|done]. clear. intros c st Hst. unfold setup_pools_core.
  pose proof (for_each_state (λ st, pools_well_formed st.2)
                setup_pools_pu (pus_ c) st) as H.
  destruct (for_each _ _ _) as [[ps' st'] r]. simpl in *.
  apply H; [|done]. clear. intros p [first s] Hst. unfold setup_pools_pu.
  destruct (_ =? _); [|done].
  pose proof (pools_well_formed_add_resource p (get_default_pool_name s)
                (first || negb (dynamic_pools_allowed s)) 1 s Hst) as H.
  by destruct (add_resource _ _ _ _ _) as [[p' s'] [[]| |]].
Qed.

Lemma pools_well_formed_setup_schedulers s :
  pools_well_formed s → pools_well_formed (setup_schedulers s).1.
Proof.
  intros Hs. unfold setup_schedulers.
  destruct (select_default_scheduler _); try done.
  apply Forall_fmap. eapply Forall_impl; [done|].
  intros d Hd. cbv beta delta [compose set_default_scheduler].
  destruct (decide (scheduling_policy_ d = unspecified)); exact Hd.
Qed.

Lemma pools_well_formed_configure_pools s :
  pools_well_formed s → pools_well_formed (configure_pools s).1.
Proof.
  intros Hs. unfold configure_pools.
  pose proof (pools_well_formed_setup_pools_fill s Hs) as H1.
  rewrite <- setup_pools_state in H1.
  destruct (setup_pools s) as [s1 [[]| |]]; try done.
  pose proof (pools_well_formed_setup_schedulers s1 H1) as H2.
  by destruct (setup_schedulers s1) as [s2 [[]| |]].
Qed.

(** Resetting a one-hot mask and raising another bit gives the one-hot
    mask of that bit. *)
Lemma threads_set_reset_one_hot pu_index pu_num :
  pu_index < hardware_concurrency →
  threads_set (threads_reset (one_hot_mask pu_index)) pu_num
  = one_hot_mask pu_num.
Proof.
  intros Hlt. unfold threads_reset.
  rewrite (proj1 (one_hot_mask_spec _ Hlt)).
  unfold one_hot_mask, threads_resize. by rewrite resize_nil.
Qed.

Lemma assign_first_core_loop_well_formed first_core count i masks nums :
  Forall2 (λ m e, entry_pu_id e < hardware_concurrency
                  ∧ m = one_hot_mask (entry_pu_id e)) masks nums →
  (i + count ≤ length nums)%nat →
  ∃ masks' nums',
    assign_first_core_loop first_core count i masks nums = Some (masks', nums')
    ∧ length nums' = length nums
    ∧ Forall2 (λ m e, entry_pu_id e < hardware_concurrency
                      ∧ m = one_hot_mask (entry_pu_id e)) masks' nums'.
Proof.
  revert i masks nums. induction count as [|count IH]; intros i masks nums Hall Hi.
  { by exists masks, nums. }
  destruct (lookup_lt_is_Some_2 nums i) as [e He]; [lia|].
  destruct (Forall2_lookup_r _ _ _ _ _ Hall He) as (m & Hm & Hlt & ->).
  cbn [assign_first_core_loop]. rewrite He, Hm.
  set (pu_num := wrap (entry_pu_id e + first_core) mod hardware_concurrency).
  assert (pu_num < hardware_concurrency) as Hpu.
  { apply N.mod_lt. lia. }
  rewrite threads_set_reset_one_hot by done.
  destruct (IH (S i) (<[i:=one_hot_mask pu_num]> masks)
              (<[i:=(pu_num, entry_exclusive e, entry_assigned e)]> nums))
    as (masks' & nums' & Hloop & Hlen & Hall').
  - by apply Forall2_insert.
  - rewrite length_insert. lia.
  - exists masks', nums'. rewrite length_insert in Hlen. done.
Qed.

Lemma num_threads_le_length d :
  pool_well_formed d →
  (N.to_nat (num_threads_ d) ≤ length (assigned_pu_nums_ d))%nat.
Proof.
  intros [_ ->]. unfold wrap.
  pose proof (N.Div0.mod_le (N.of_nat (length (assigned_pu_nums_ d)))
                size_t_modulus). lia.
Qed.

(** On a well-formed pool [assign_first_core] returns, and the pool stays
    well-formed. *)
Lemma assign_first_core_well_formed first_core d :
  pool_well_formed d →
  (assign_first_core first_core d).2 = Return ()
  ∧ pool_well_formed (assign_first_core first_core d).1.
Proof.
  intros Hd. pose proof (num_threads_le_length d Hd) as Hle.
  destruct Hd as [Hall Hnum]. unfold assign_first_core.
  destruct (assign_first_core_loop_well_formed first_core
              (N.to_nat (num_threads_ d)) 0 _ _ Hall)
    as (masks' & nums' & -> & Hlen & Hall'); [lia|].
  split; [done|]. split; simpl; [done|]. by rewrite Hlen.
Qed.

Lemma assign_first_core_all_well_formed first_core pools :
  Forall pool_well_formed pools →
  (assign_first_core_all first_core pools).2 = Return ()
  ∧ Forall pool_well_formed (assign_first_core_all first_core pools).1.
Proof.
  unfold assign_first_core_all. induction 1 as [|d pools Hd _ IH]; [done|].
  cbn [for_each].
  destruct (assign_first_core_well_formed first_core d Hd) as [Hr Hd'].
  destruct (assign_first_core first_core d) as [d' r]. simpl in Hr, Hd'.
  subst r. destruct (for_each _ pools ()) as [[pools' u] r].
  simpl in *. destruct IH as [-> IH]. split; [done|]. by constructor.
Qed.

(** On well-formed pools [assign_cores] returns, and the pools stay
    well-formed. *)
Lemma assign_cores_well_formed first_core s :
  pools_well_formed s →
  (∃ n, (assign_cores first_core s).2 = Return n)
  ∧ pools_well_formed (assign_cores first_core s).1.
Proof.
  intros Hs. unfold assign_cores.
  destruct (decide (first_core_ s ≠ first_core)).
  - set (offset := if decide (first_core_ s ≠ size_t_minus_one) then _ else _).
    destruct (decide (offset ≠ 0)).
    + destruct (assign_first_core_all_well_formed
                  (wrap (offset * get_number_of_core_pus (topo_ s) first_core))
                  _ Hs) as [Hr Hpools].
      destruct (assign_first_core_all _ _) as [pools r]. simpl in Hr, Hpools.
      subst r. unfold threads_needed. destruct (_ =? _); simpl; by eauto.
    + unfold threads_needed. destruct (_ =? _); simpl; by eauto.
  - unfold threads_needed. destruct (_ =? _); simpl; by eauto.
Qed.

Lemma pool_well_formed_set_assigned i b e d :
  assigned_pu_nums_ d !! i = Some e → pool_well_formed d →
  pool_well_formed
    (set_assigned_pu_nums_ (<[i := set_assigned b e]> (assigned_pu_nums_ d)) d).
Proof.
  intros He [Hall Hnum].
  destruct (Forall2_lookup_r _ _ _ _ _ Hall He) as (m & Hm & Hlt & Heq).
  split; simpl.
  - rewrite <- (list_insert_id (assigned_pus_ d) i m) by done.
    by apply Forall2_insert.
  - by rewrite length_insert.
Qed.

Lemma pools_well_formed_assign_pu name virt_core s :
  pools_well_formed s → pools_well_formed (assign_pu name virt_core s).1.
Proof.
  intros Hs. unfold assign_pu, init_pool_data_assign_pu.
  destruct (get_pool_data name s) as [[i d]| |] eqn:Hget; try done.
  pose proof (pools_well_formed_get _ _ _ _ Hs Hget) as Hd.
  destruct (assigned_pu_nums_ d !! _) as [e|] eqn:He;
    apply pools_well_formed_put; try done.
  by apply pool_well_formed_set_assigned.
Qed.

Lemma pools_well_formed_unassign_pu try_lock name virt_core s :
  pools_well_formed s →
  pools_well_formed (unassign_pu try_lock name virt_core s).1.
Proof.
  intros Hs. unfold unassign_pu, init_pool_data_unassign_pu.
  destruct try_lock; [|done].
  destruct (get_pool_data name s) as [[i d]| |] eqn:Hget; try done.
  pose proof (pools_well_formed_get _ _ _ _ Hs Hget) as Hd.
  destruct (assigned_pu_nums_ d !! _) as [e|] eqn:He;
    apply pools_well_formed_put; try done.
  by apply pool_well_formed_set_assigned.
Qed.

Lemma pools_well_formed_step s s' :
  step s s' → pools_well_formed s → pools_well_formed s'.
Proof.
  destruct 1; intros Hs.
  - by apply pools_well_formed_create_thread_pool.
  - by apply pools_well_formed_create_thread_pool_user.
  - by apply pools_well_formed_add_resource_mirror.
  - by apply pools_well_formed_add_resource.
  - by apply pools_well_formed_set_scheduler.
  - by apply pools_well_formed_configure_pools.
  - by apply assign_cores_well_formed.
  - by apply pools_well_formed_assign_pu.
  - by apply pools_well_formed_unassign_pu.
Qed.

Lemma pools_well_formed_init topo rpmode rtcfg affinity :
  pools_well_formed (init rpmode rtcfg affinity (partitioner_ctor topo)).1.
Proof.
  unfold init.
  match goal with
  | |- context [fill_topology_vectors ?s0] =>
      assert (pools_well_formed (fill_topology_vectors s0).1) as H1;
      [unfold fill_topology_vectors;
       destruct (fill_domains _ _ _ _) as [[ds pid] r];
       apply Forall_singleton, pool_well_formed_fresh|];
      destruct (fill_topology_vectors s0) as [s1 [[]| |]]; try done
  end.
  destruct (assign_cores_well_formed 0 s1 H1) as [_ H2].
  by destruct (assign_cores 0 s1) as [s2 [n| |]].
Qed.

Lemma reachable_well_formed s : reachable s → pools_well_formed s.
Proof.
  induction 1 as [|s s' _ IH Hstep].
  - apply pools_well_formed_init.
  - by eapply pools_well_formed_step.
Qed.

Lemma pool_well_formed_lookup d i e :
  pool_well_formed d → assigned_pu_nums_ d !! i = Some e →
  entry_pu_id e < hardware_concurrency
  ∧ assigned_pus_ d !! i = Some (one_hot_mask (entry_pu_id e)).
Proof.
  intros [Hall _] He.
  by destruct (Forall2_lookup_r _ _ _ _ _ Hall He) as (m & Hm & Hlt & ->).
Qed.

(** X1.  In every state the partitioner goes through, every pool is
    well-formed: it has as many masks as entries, the mask of an entry is
    the mask of [hardware_concurrency] bits with only the bit of the entry's
    PU raised, every PU an entry names is a PU of the machine, and
    [num_threads_] is the number of entries modulo [2^64]. *)
Theorem reachable_pools_well_formed (s : partitioner) (k : nat)
    (d : init_pool_data) :
  reachable s →
  initial_thread_pools_ s !! k = Some d →
  length (assigned_pus_ d) = length (assigned_pu_nums_ d)
  ∧ num_threads_ d = wrap (N.of_nat (length (assigned_pu_nums_ d)))
  ∧ ∀ i e, assigned_pu_nums_ d !! i = Some e →
      entry_pu_id e < hardware_concurrency
      ∧ assigned_pus_ d !! i = Some (one_hot_mask (entry_pu_id e)).
Proof.
  intros Hs%reachable_well_formed Hd.
  eapply Forall_lookup_1 in Hs; [|done].
  split_and!.
  - destruct Hs as [Hall _]. by eapply Forall2_length.
  - by destruct Hs.
  - intros i e. by apply pool_well_formed_lookup.
Qed.

(** *** No undefined behaviour in the states the partitioner goes through *)

(** A loop whose body never ends undefined never ends undefined. *)
Lemma for_each_defined {A St} (body : A → St → (A * St) * outcome unit) l st :
  (∀ x st, (body x st).2 ≠ Undefined) → (for_each body l st).2 ≠ Undefined.
Proof.
  intros Hbody. revert st. induction l as [|x l IH]; intros st; [done|].
  cbn [for_each]. specialize (Hbody x st).
  destruct (body x st) as [[x' st'] [[]| |]]; try done.
  specialize (IH st'). by destruct (for_each body l st') as [[l' st''] r].
Qed.

Lemma get_pool_data_defined pool_name s : get_pool_data pool_name s ≠ Undefined.
Proof. unfold get_pool_data. by destruct (list_find _ _). Qed.

Lemma add_resource_to_pool_defined pu_index pool_name exclusive num_threads s :
  (add_resource_to_pool pu_index pool_name exclusive num_threads s).2
  ≠ Undefined.
Proof.
  unfold add_resource_to_pool, init_pool_data_add_resource.
  pose proof (get_pool_data_defined pool_name s).
  destruct (get_pool_data pool_name s) as [[i d]| |]; [| |done]; [|done].
  by destruct (_ <=? _).
Qed.

Lemma add_resource_defined p pool_name exclusive num_threads s :
  (add_resource p pool_name exclusive num_threads s).2 ≠ Undefined.
Proof.
  unfold add_resource.
  pose proof (add_resource_to_pool_defined (id_ p) pool_name exclusive
                num_threads s).
  destruct (add_resource_to_pool _ _ _ _ _) as [s' [[]| |]];
    destruct_matches; done.
Qed.

Lemma setup_pools_fill_defined s : (setup_pools_fill s).2 ≠ Undefined.
Proof.
  unfold setup_pools_fill.
  pose proof (for_each_defined setup_pools_domain (numa_domains_ s) (true, s))
    as H.
  destruct (for_each _ _ _) as [[ds' [first s']] r]. simpl in *.
  apply H. clear. intros d st. unfold setup_pools_domain.
  pose proof (for_each_defined setup_pools_core (cores_ d) st) as H.
  destruct (for_each _ _ _) as [[cs' st'] r]. simpl in *.
  apply H. clear. intros c st. unfold setup_pools_core.
  pose proof (for_each_defined setup_pools_pu (pus_ c) st) as H.
  destruct (for_each _ _ _) as [[ps' st'] r]. simpl in *.
  apply H. clear. intros p [first s]. unfold setup_pools_pu.
  destruct (_ =? _); [|done].
  pose proof (add_resource_defined p (get_default_pool_name s)
                (first || negb (dynamic_pools_allowed s)) 1 s) as H.
  by destruct (add_resource _ _ _ _ _) as [[p' s'] [[]| |]].
Qed.

Lemma configure_pools_defined s : (configure_pools s).2 ≠ Undefined.
Proof.
  unfold configure_pools, setup_pools.
  pose proof (setup_pools_fill_defined s) as H1.
  destruct (setup_pools_fill s) as [s1 [[]| |]]; try done.
  pose proof (get_pool_data_defined (get_default_pool_name s1) s1) as H2.
  destruct (get_pool_data _ s1) as [[i d]| |]; try done.
  destruct (_ =? _); [done|]. destruct (check_empty_pools s1); [done|].
  unfold setup_schedulers. rewrite select_default_scheduler_resolve.
  by destruct (resolve_by_prefix _).
Qed.

(** The scan of [shrink_pool] and [expand_pool] on a well-formed pool. *)
Lemma scan_pool_well_formed want_assigned pool_name s i d :
  dynamic_pools_allowed s = true →
  get_pool_data pool_name s = Return (i, d) →
  pool_well_formed d →
  let es := take (N.to_nat (num_threads_ d)) (assigned_pu_nums_ d) in
  scan_pool want_assigned pool_name s =
    if existsb (λ e, negb (entry_exclusive e)) es
    then (collected want_assigned 0 es,
          Return (N.of_nat (length (collected want_assigned 0 es))))
    else ([], Throw (no_non_exclusive_pus pool_name)).
Proof.
  intros Hdyn Hget Hd es. unfold scan_pool. rewrite Hdyn, Hget.
  cbn [negb]. pose proof (num_threads_le_length d Hd) as Hle.
  pose proof (scan_pool_loop_spec want_assigned d [] es
                (drop (N.to_nat (num_threads_ d)) (assigned_pu_nums_ d))
                false []) as Hloop.
  unfold es in Hloop at 2. rewrite length_take, Nat.min_l in Hloop by done.
  cbn [length app orb] in Hloop.
  rewrite Hloop by (unfold es; by rewrite take_drop).
  by destruct (existsb _ _).
Qed.

Lemma scan_pool_defined want_assigned pool_name s :
  pools_well_formed s → (scan_pool want_assigned pool_name s).2 ≠ Undefined.
Proof.
  intros Hs. destruct (dynamic_pools_allowed s) eqn:Hdyn.
  - destruct (get_pool_data pool_name s) as [[i d]| |] eqn:Hget.
    + rewrite (scan_pool_well_formed _ _ _ i d Hdyn Hget)
        by (by eapply pools_well_formed_get).
      cbn zeta. by destruct (existsb _ _).
    + unfold scan_pool. by rewrite Hdyn, Hget.
    + by apply get_pool_data_defined in Hget.
  - unfold scan_pool. by rewrite Hdyn.
Qed.

Lemma create_thread_pool_defined name sched mode func s :
  initial_thread_pools_ s ≠ [] →
  (create_thread_pool name sched mode func s).2 ≠ Undefined.
Proof.
  intros Hpools. unfold create_thread_pool.
  destruct (decide (name = "")) as [|Hname]; [done|].
  destruct (decide (name = get_default_pool_name s)) as [->|].
  - rewrite init_pool_data_ctor_Return by done.
    by destruct (initial_thread_pools_ s).
  - destruct (name_taken name s); [done|].
    by rewrite init_pool_data_ctor_Return.
Qed.

Lemma create_thread_pool_user_defined name create func s :
  initial_thread_pools_ s ≠ [] →
  (create_thread_pool_user name create func s).2 ≠ Undefined.
Proof.
  intros Hpools. unfold create_thread_pool_user.
  destruct (decide (name = "")) as [|Hname]; [done|].
  destruct (decide (name = get_default_pool_name s)) as [->|].
  - rewrite init_pool_data_ctor_user_Return by done.
    by destruct (initial_thread_pools_ s).
  - destruct (name_taken name s); [done|].
    by rewrite init_pool_data_ctor_user_Return.
Qed.

Lemma assign_pu_Undefined pool_name virt_core s :
  (assign_pu pool_name virt_core s).2 = Undefined
  ↔ ∃ i d, get_pool_data pool_name s = Return (i, d)
           ∧ ¬ access_in_bounds virt_core d.
Proof.
  unfold assign_pu, init_pool_data_assign_pu.
  pose proof (get_pool_data_defined pool_name s) as Hdef.
  destruct (get_pool_data pool_name s) as [[i d]| |]; [| |done].
  - pose proof (access_in_bounds_lookup virt_core d) as Hin.
    destruct (assigned_pu_nums_ d !! N.to_nat virt_core) as [e|] eqn:He;
      simpl; split; try done.
    + intros (i' & d' & [= <- <-] & Hnot). destruct Hnot. by apply Hin.
    + intros _. exists i, d. split; [done|]. rewrite Hin. by intros [? ?].
  - simpl. split; [done|]. by intros (i & d & ? & _).
Qed.

Lemma unassign_pu_Undefined pool_name virt_core s :
  (unassign_pu true pool_name virt_core s).2 = Undefined
  ↔ ∃ i d, get_pool_data pool_name s = Return (i, d)
           ∧ ¬ access_in_bounds virt_core d.
Proof.
  unfold unassign_pu, init_pool_data_unassign_pu.
  pose proof (get_pool_data_defined pool_name s) as Hdef.
  destruct (get_pool_data pool_name s) as [[i d]| |]; [| |done].
  - pose proof (access_in_bounds_lookup virt_core d) as Hin.
    destruct (assigned_pu_nums_ d !! N.to_nat virt_core) as [e|] eqn:He;
      simpl; split; try done.
    + intros (i' & d' & [= <- <-] & Hnot). destruct Hnot. by apply Hin.
    + intros _. exists i, d. split; [done|]. rewrite Hin. by intros [? ?].
  - simpl. split; [done|]. by intros (i & d & ? & _).
Qed.

(** X2.  In every state the partitioner goes through, the calls of its
    interface are defined: [assign_cores] returns whatever the first core
    is (its loop stays inside the vectors of every pool), [shrink_pool],
    [expand_pool], [create_thread_pool], [add_resource] and
    [configure_pools] return or throw.  The only accesses outside a vector
    are those of [assign_pu] and [unassign_pu] for a virtual core that is
    not below the number of entries of the pool. *)
Theorem reachable_calls_are_defined (s : partitioner) :
  reachable s →
  (∀ first_core, ∃ n, (assign_cores first_core s).2 = Return n)
  ∧ (∀ name, (shrink_pool name s).2 ≠ Undefined
             ∧ (expand_pool name s).2 ≠ Undefined)
  ∧ (∀ name sched mode func,
       (create_thread_pool name sched mode func s).2 ≠ Undefined)
  ∧ (∀ name create func,
       (create_thread_pool_user name create func s).2 ≠ Undefined)
  ∧ (∀ p name exclusive num_threads,
       (add_resource p name exclusive num_threads s).2 ≠ Undefined)
  ∧ (configure_pools s).2 ≠ Undefined
  ∧ (∀ name virt_core,
       ((assign_pu name virt_core s).2 = Undefined
        ↔ ∃ i d, get_pool_data name s = Return (i, d)
                 ∧ ¬ access_in_bounds virt_core d)
       ∧ ((unassign_pu true name virt_core s).2 = Undefined
          ↔ ∃ i d, get_pool_data name s = Return (i, d)
                   ∧ ¬ access_in_bounds virt_core d)).
Proof.
  intros Hreach. pose proof (reachable_well_formed s Hreach) as Hs.
  assert (initial_thread_pools_ s ≠ []) as Hpools.
  { destruct (reachable_default_pool s Hreach) as (d & rest & -> & _). done. }
  split_and!.
  - intros first_core. by apply assign_cores_well_formed.
  - intros name. split; by apply scan_pool_defined.
  - intros. by apply create_thread_pool_defined.
  - intros. by apply create_thread_pool_user_defined.
  - intros. apply add_resource_defined.
  - apply configure_pools_defined.
  - intros name virt_core. split.
    + apply assign_pu_Undefined.
    + apply unassign_pu_Undefined.
Qed.

(** *** The names of the pools are unique *)

Lemma pool_names_create_thread_pool_cases name sched mode func s :
  let s' := (create_thread_pool name sched mode func s).1 in
  pool_names s' = pool_names s
  ∨ (name ≠ "" ∧ (name ∉ pool_names s) ∧ pool_names s' = pool_names s ++ [name]).
Proof.
  unfold create_thread_pool.
  destruct (decide (name = "")) as [|Hname]; [by left|].
  destruct (decide (name = get_default_pool_name s)) as [->|Hne].
  - left. rewrite init_pool_data_ctor_Return by done.
    unfold pool_names, put_pool_data, get_default_pool_name.
    destruct (initial_thread_pools_ s) eqn:Hpools; simpl; by rewrite ?Hpools.
  - destruct (name_taken name s) eqn:Htaken; [by left|].
    right. rewrite init_pool_data_ctor_Return by done.
    split_and!; [done| |unfold pool_names; simpl; by rewrite fmap_app].
    intros Hin. by rewrite name_taken_true in Htaken.
Qed.

Lemma pool_names_create_thread_pool_user_cases name create func s :
  let s' := (create_thread_pool_user name create func s).1 in
  pool_names s' = pool_names s
  ∨ (name ≠ "" ∧ (name ∉ pool_names s) ∧ pool_names s' = pool_names s ++ [name]).
Proof.
  unfold create_thread_pool_user.
  destruct (decide (name = "")) as [|Hname]; [by left|].
  destruct (decide (name = get_default_pool_name s)) as [->|Hne].
  - left. rewrite init_pool_data_ctor_user_Return by done.
    unfold pool_names, put_pool_data, get_default_pool_name.
    destruct (initial_thread_pools_ s) eqn:Hpools; simpl; by rewrite ?Hpools.
  - destruct (name_taken name s) eqn:Htaken; [by left|].
    right. rewrite init_pool_data_ctor_user_Return by done.
    split_and!; [done| |unfold pool_names; simpl; by rewrite fmap_app].
    intros Hin. by rewrite name_taken_true in Htaken.
Qed.

(** A call keeps the names of the pools or appends one new, non-empty
    name. *)
Lemma pool_names_step_cases s s' :
  step s s' →
  pool_names s' = pool_names s
  ∨ ∃ name, name ≠ "" ∧ (name ∉ pool_names s)
            ∧ pool_names s' = pool_names s ++ [name].
Proof.
  destruct 1.
  - destruct (pool_names_create_thread_pool_cases name sched mode func s)
      as [?|?]; [by left|right; by exists name].
  - destruct (pool_names_create_thread_pool_user_cases name create func s)
      as [?|?]; [by left|right; by exists name].
  - left. apply pool_names_add_resource_mirror.
  - left. apply pool_names_add_resource.
  - left. apply pool_names_set_scheduler.
  - left. apply pool_names_configure_pools.
  - left. apply pool_names_assign_cores.
  - left. apply pool_names_assign_pu.
  - left. apply pool_names_unassign_pu.
Qed.

Lemma reachable_names_NoDup s :
  reachable s → NoDup (pool_names s) ∧ "" ∉ pool_names s.
Proof.
  induction 1 as [|s s' _ [IH1 IH2] Hstep].
  - rewrite pool_names_init. split.
    + apply NoDup_singleton.
    + intros Hin%list_elem_of_singleton. discriminate Hin.
  - destruct (pool_names_step_cases s s' Hstep)
      as [->|(name & Hname & Hfresh & ->)]; [done|].
    split.
    + apply NoDup_app. split_and!; [done| |apply NoDup_singleton].
      intros x Hx ->%list_elem_of_singleton. done.
    + rewrite elem_of_app, list_elem_of_singleton. intros [?|?]; done.
Qed.

(** With unique names the lookup by name finds the pool at every
    position. *)
Lemma get_pool_data_lookup s i d :
  NoDup (pool_names s) →
  initial_thread_pools_ s !! i = Some d →
  get_pool_data (pool_name_ d) s = Return (i, d).
Proof.
  intros Hnodup Hi. unfold get_pool_data.
  destruct (list_find _ _) as [[j x]|] eqn:Hfind.
  - apply list_find_Some in Hfind as (Hj & Hname & _).
    assert (j = i) as ->.
    { eapply NoDup_lookup; [done| |];
        unfold pool_names; rewrite list_lookup_fmap.
      - by rewrite Hj.
      - rewrite Hi. simpl. by rewrite Hname. }
    by simplify_eq.
  - apply list_find_None in Hfind. rewrite Forall_forall in Hfind.
    destruct (Hfind d); [|done]. by eapply list_elem_of_lookup_2.
Qed.

(** X3.  In every state the partitioner goes through, no two pools have
    the same name and no pool has the empty name, so that the lookup by
    name finds each pool: [get_pool_data] with the name of the pool at a
    position returns that position and that pool. *)
Theorem reachable_pool_names_unique (s : partitioner) :
  reachable s →
  NoDup (pool_names s)
  ∧ ("" ∉ pool_names s)
  ∧ ∀ i d, initial_thread_pools_ s !! i = Some d →
      get_pool_data (pool_name_ d) s = Return (i, d).
Proof.
  intros [Hnodup Hempty]%reachable_names_NoDup. split_and!; try done.
  intros i d. by apply get_pool_data_lookup.
Qed.

Lemma get_pool_index_lookup s i d :
  NoDup (pool_names s) →
  initial_thread_pools_ s !! 0%nat = Some (pool_at 0 s) →
  pool_name_ (pool_at 0 s) = "default" →
  initial_thread_pools_ s !! i = Some d →
  get_pool_index (pool_name_ d) s = Return (N.of_nat i).
Proof.
  intros Hnodup H0 Hdefault Hi. unfold get_pool_index.
  destruct (decide (pool_name_ d = "default")) as [Hname|Hname].
  - assert (i = 0%nat) as ->; [|done].
    eapply NoDup_lookup; [done| |];
      unfold pool_names; rewrite list_lookup_fmap.
    + by rewrite Hi.
    + rewrite H0. simpl. by rewrite Hdefault, Hname.
  - pose proof (get_pool_data_lookup s i d Hnodup Hi) as Hget.
    unfold get_pool_data in Hget.
    destruct (list_find _ _) as [[j x]|]; by simplify_eq.
Qed.

Lemma reachable_pool_at_0 s :
  reachable s →
  initial_thread_pools_ s !! 0%nat = Some (pool_at 0 s)
  ∧ pool_name_ (pool_at 0 s) = "default".
Proof.
  intros (d & rest & Hpools & Hname)%reachable_default_pool.
  unfold pool_at. by rewrite Hpools.
Qed.

(** X4.  [get_pool_name] and [get_pool_index] in a state whose pools have
    different names, whatever the name of the pool at index 0 (the default
    pool "may be renamed but the user can always ask for "default"").
    For every name other than "default" the two are inverse to each other.
    [get_pool_index] returns 0 for "default" without looking at the pools;
    [get_pool_name] returns for index 0 the name the pool at index 0 has now,
    and [get_pool_index] returns 0 for that name as well.  While the pool at
    index 0 is named "default" the two are inverse for every name; once it
    is renamed they are not: [get_pool_index] still returns 0 for "default",
    [get_pool_name] returns another name for 0, and should a later pool
    be named "default", [get_pool_index] does not return its index.
    [get_pool_name] throws (a bad-parameter error) exactly for the indices
    from [get_num_pools()] on. *)
Theorem get_pool_name_get_pool_index (s : partitioner) :
  NoDup (pool_names s) →
  (∀ index name, name ≠ "default" →
     (get_pool_name index s = Found name
      ↔ get_pool_index name s = Return index))
  ∧ get_pool_index "default" s = Return 0
  ∧ (∀ d0 rest, initial_thread_pools_ s = d0 :: rest →
       get_default_pool_name s = pool_name_ d0
       ∧ get_pool_name 0 s = Found (pool_name_ d0)
       ∧ get_pool_index (pool_name_ d0) s = Return 0
       ∧ (pool_name_ d0 = "default" →
          ∀ index name,
            get_pool_name index s = Found name
            ↔ get_pool_index name s = Return index)
       ∧ (pool_name_ d0 ≠ "default" →
          get_pool_name 0 s ≠ Found "default"
          ∧ ∀ index,
              get_pool_name index s = Found "default" →
              index ≠ 0 ∧ get_pool_index "default" s ≠ Return index))
  ∧ (∀ index,
       get_num_pools s ≤ index
       ↔ ∃ e, get_pool_name index s = OutOfBounds e
              ∧ index_class_of e = hpx_bad_parameter).
Proof.
  intros Hnodup.
  assert (∀ index name, name ≠ "default" →
            (get_pool_name index s = Found name
             ↔ get_pool_index name s = Return index)) as Hother.
  { intros index name Hname. unfold get_pool_name, get_pool_index.
    rewrite decide_False by done. split.
    - destruct (initial_thread_pools_ s !! N.to_nat index) as [d|] eqn:Hd;
        [|done].
      intros [= <-].
      pose proof (get_pool_data_lookup s _ d Hnodup Hd) as Hget.
      unfold get_pool_data in Hget.
      destruct (list_find _ _) as [[j x]|]; [|done].
      injection Hget as -> ->. by rewrite N2Nat.id.
    - destruct (list_find _ _) as [[i d]|] eqn:Hfind; [|done].
      intros [= <-]. apply list_find_Some in Hfind as (Hi & Hd & _).
      by rewrite Nat2N.id, Hi, Hd. }
  split_and!; [done|done| |].
  - intros d0 rest Hpools.
    assert (get_pool_name 0 s = Found (pool_name_ d0)) as Hname0.
    { unfold get_pool_name. by rewrite Hpools. }
    assert (∀ index d,
              initial_thread_pools_ s !! N.to_nat index = Some d →
              pool_name_ d = pool_name_ d0 → index = 0) as Hfirst.
    { intros index d Hd Hsame.
      assert (N.to_nat index = 0%nat) as Hindex; [|lia].
      eapply NoDup_lookup; [done| |];
        unfold pool_names; rewrite list_lookup_fmap.
      - by rewrite Hd.
      - rewrite Hpools. simpl. by rewrite Hsame. }
    split_and!.
    + unfold get_default_pool_name. by rewrite Hpools.
    + done.
    + destruct (decide (pool_name_ d0 = "default")) as [->|Hname]; [done|].
      by apply Hother.
    + intros Hdefault index name.
      destruct (decide (name = "default")) as [->|Hname]; [|by apply Hother].
      split.
      * unfold get_pool_name.
        destruct (initial_thread_pools_ s !! N.to_nat index) as [d|] eqn:Hd;
          [|done].
        intros [= Hd'].
        rewrite (Hfirst index d Hd) by congruence. done.
      * intros [= <-]. by rewrite Hname0, Hdefault.
    + intros Hrenamed. split.
      * rewrite Hname0. congruence.
      * intros index Hindex.
        assert (index ≠ 0) as Hnot0.
        { intros ->. rewrite Hname0 in Hindex. congruence. }
        split; [done|]. unfold get_pool_index. simpl. congruence.
  - intros index. unfold get_pool_name, get_num_pools. split.
    + intros Hle.
      rewrite (proj2 (lookup_ge_None _ _)) by lia. by eexists.
    + intros (e & He & _).
      destruct (initial_thread_pools_ s !! N.to_nat index) eqn:Hd; [done|].
      apply lookup_ge_None in Hd. lia.
Qed.

(** *** The number of threads *)

Lemma get_num_threads_loop_spec s pre rest acc :
  initial_thread_pools_ s = pre ++ rest →
  get_num_threads_loop s (length rest) (length pre) acc
  = Found (fold_left (λ a d, wrap (a + num_threads_ d)) rest acc).
Proof.
  revert pre acc. induction rest as [|d rest IH]; intros pre acc Hpools; [done|].
  cbn [length get_num_threads_loop fold_left]. unfold get_pool_data_by_index.
  rewrite Nat2N.id, Hpools, lookup_app_r, Nat.sub_diag by lia.
  cbn [lookup list_lookup].
  specialize (IH (pre ++ [d]) (wrap (acc + num_threads_ d))).
  rewrite length_app, Nat.add_1_r in IH.
  apply IH. by rewrite Hpools, <- app_assoc.
Qed.

Lemma fold_left_wrap (pools : list init_pool_data) a :
  fold_left (λ a d, wrap (a + num_threads_ d)) pools (wrap a)
  = wrap (a + foldr N.add 0 (num_threads_ <$> pools)).
Proof.
  revert a. induction pools as [|d pools IH]; intros a; simpl.
  - by rewrite N.add_0_r.
  - rewrite wrap_wrap_add, IH. by rewrite N.add_assoc.
Qed.

Lemma wrap_add_r a b : wrap (a + wrap b) = wrap (a + b).
Proof. unfold wrap. by rewrite N.Div0.add_mod_idemp_r. Qed.

Lemma sum_num_threads_well_formed pools :
  Forall pool_well_formed pools →
  wrap (foldr N.add 0 (num_threads_ <$> pools))
  = wrap (N.of_nat (length (d ← pools; assigned_pu_nums_ d))).
Proof.
  induction 1 as [|d pools [_ Hd] _ IH]; [done|].
  rewrite fmap_cons, bind_cons, length_app. cbn [foldr].
  rewrite Hd, wrap_wrap_add, <- wrap_add_r, IH, wrap_add_r. f_equal. lia.
Qed.

(** X5.  [get_num_threads()] never throws: every index its loop passes to
    [get_pool_data] is below the number of pools.  It returns the sum of
    the thread counts of the pools modulo [2^64]; in every state the
    partitioner goes through this is the number of entries of all pools
    (modulo [2^64]). *)
Theorem get_num_threads_counts_entries (s : partitioner) :
  get_num_threads s
  = Found (wrap (foldr N.add 0 (num_threads_ <$> initial_thread_pools_ s)))
  ∧ (reachable s →
     get_num_threads s = Found (wrap (N.of_nat (length (bound_entries s))))).
Proof.
  assert (get_num_threads s
          = Found (wrap (foldr N.add 0
                           (num_threads_ <$> initial_thread_pools_ s)))) as Hsum.
  { unfold get_num_threads.
    pose proof (get_num_threads_loop_spec s [] (initial_thread_pools_ s) 0
                  eq_refl) as Hloop.
    cbn [length] in Hloop. rewrite Hloop.
    change 0 with (wrap 0) at 1. by rewrite fold_left_wrap. }
  split; [done|]. intros Hs%reachable_well_formed.
  rewrite Hsum. unfold bound_entries.
  by rewrite sum_num_threads_well_formed.
Qed.

(** *** Binding PUs: errors, oversubscription and the overloads *)

Lemma add_resource_to_pool_Throw pu_index pool_name exclusive num_threads s e :
  (add_resource_to_pool pu_index pool_name exclusive num_threads s).2 = Throw e →
  (add_resource_to_pool pu_index pool_name exclusive num_threads s).1 = s
  ∧ (e = no_pool_of_that_name pool_name ∧ pool_name ∉ pool_names s
     ∨ e = pu_index_out_of_bounds ∧ hardware_concurrency ≤ pu_index).
Proof.
  destruct (get_pool_data pool_name s) as [[i d]|e'|] eqn:Hget.
  - destruct (N.le_gt_cases hardware_concurrency pu_index) as [Hle|Hlt].
    + rewrite (add_resource_to_pool_out_of_range _ _ _ _ _ _ _ Hget Hle).
      intros [= <-]. split; [done|]. by right.
    + by rewrite (add_resource_to_pool_in_range _ _ _ _ _ _ _ Hget Hlt).
  - unfold add_resource_to_pool. rewrite Hget. simpl. intros [= <-].
    split; [done|]. left. split; [by apply get_pool_data_Throw in Hget|].
    unfold get_pool_data in Hget.
    destruct (list_find _ _) eqn:Hfind; [done|].
    apply list_find_None in Hfind. rewrite Forall_forall in Hfind.
    unfold pool_names. intros (d & Hname & Hd)%list_elem_of_fmap.
    by apply (Hfind d).
  - by apply get_pool_data_defined in Hget.
Qed.

(** X6.  [add_resource] leaves the PU and the partitioner as they are
    whenever it throws anything but the error of the thread budget: for a
    non-exclusive binding without dynamic pools, for a pool that is not
    there, for a PU index that is not below [hardware_concurrency] and for
    a PU whose occupancy is used up. *)
Theorem add_resource_error_leaves_state (p : pu) (pool_name : string)
    (exclusive : bool) (num_threads : N) (s : partitioner) (e : exception) :
  (add_resource p pool_name exclusive num_threads s).2 = Throw e →
  (∀ requested provided, e ≠ more_threads_than_os_threads requested provided) →
  (add_resource p pool_name exclusive num_threads s).1 = (p, s)
  ∧ (e = dynamic_pools_not_enabled
       ∧ exclusive = false ∧ dynamic_pools_allowed s = false
     ∨ e = no_pool_of_that_name pool_name ∧ pool_name ∉ pool_names s
     ∨ e = pu_index_out_of_bounds ∧ hardware_concurrency ≤ id_ p
     ∨ e = pu_occupancy_exhausted (id_ p) (thread_occupancy_ p)
       ∧ oversubscription_allowed s = false
       ∧ thread_occupancy_count_ p ≠ 0).
Proof.
  unfold add_resource.
  destruct (negb exclusive && negb (dynamic_pools_allowed s)) eqn:Hdyn.
  { simpl. intros [= <-] _. split; [done|]. left.
    by destruct exclusive, (dynamic_pools_allowed s). }
  pose proof (add_resource_to_pool_Throw (id_ p) pool_name exclusive
                num_threads s) as Hthrow.
  destruct (oversubscription_allowed s).
  - destruct (add_resource_to_pool _ _ _ _ _) as [s' [[]|e'|]]; simpl;
      intros [= <-] _.
    destruct (Hthrow e' eq_refl) as [Hs' Hcases]. simpl in Hs'. subst s'.
    split; [done|]. right. destruct Hcases as [?|?]; [by left|by right; left].
  - destruct (thread_occupancy_count_ p =? 0) eqn:Hcount.
    + destruct (add_resource_to_pool _ _ _ _ _) as [s' [[]|e'|]]; simpl.
      * destruct (_ <? _); simpl; intros [= <-] Hne.
        by destruct (Hne _ _ eq_refl).
      * intros [= <-] _. destruct (Hthrow e' eq_refl) as [Hs' Hcases].
        simpl in Hs'. subst s'. split; [done|]. right.
        destruct Hcases as [?|?]; [by left|by right; left].
      * done.
    + simpl. intros [= <-] _. split; [done|]. do 3 right.
      apply N.eqb_neq in Hcount. done.
Qed.

Lemma partitioner_with_pus_nil i d exclusive s :
  initial_thread_pools_ s !! i = Some d →
  partitioner_with_pus i d [] exclusive s = s.
Proof.
  intros Hi. unfold partitioner_with_pus, pool_with_pus. simpl.
  rewrite !app_nil_r.
  replace (set_assignment _ _ _ d) with d by (by destruct d).
  rewrite put_pool_data_same by done. by destruct s.
Qed.

Lemma partitioner_with_pus_cons i d p pv exclusive s :
  partitioner_with_pus i (pool_with_resource (id_ p) exclusive 1 d) pv exclusive
    (partitioner_with_resource i d (id_ p) exclusive 1 s)
  = partitioner_with_pus i d (p :: pv) exclusive s.
Proof.
  unfold partitioner_with_pus, partitioner_with_resource, pool_with_pus,
    pool_with_resource, put_pool_data, set_num_threads_overall,
    set_initial_thread_pools_, set_assignment.
  cbn [initial_thread_pools_ num_threads_overall assigned_pus_
    assigned_pu_nums_ num_threads_ pool_name_ scheduling_policy_ pool_mode_
    create_function_ background_work_ first_core_ pus_needed_ mode_ topo_
    default_scheduler_mode_ rtcfg_ affinity_data_ numa_domains_
    is_initialized_ length fmap list_fmap].
  rewrite list_insert_insert_eq, !Nat.iter_succ_r.
  change (N.to_nat 1) with 1%nat. cbn [replicate].
  by rewrite <- !app_assoc.
Qed.

(** What the overload of [add_resource] for a vector of PUs does when
    every call of its loop goes through. *)
Lemma add_resource_pus_spec pv pool_name exclusive s i d :
  get_pool_data pool_name s = Return (i, d) →
  negb exclusive && negb (dynamic_pools_allowed s) = false →
  Forall (λ p, id_ p < hardware_concurrency) pv →
  oversubscription_allowed s = true
  ∨ Forall (λ p, thread_occupancy_count_ p = 0) pv
    ∧ num_threads_overall s + N.of_nat (length pv) ≤ num_os_threads s →
  add_resource_pus pv pool_name exclusive s
  = (increment_occupancy_count <$> pv,
     partitioner_with_pus i d pv exclusive s, Return ()).
Proof.
  unfold add_resource_pus.
  revert s d. induction pv as [|p pv IH]; intros s d Hget Hdyn Hrange Hmode.
  { simpl. rewrite partitioner_with_pus_nil; [done|].
    by apply get_pool_data_Return in Hget as [? _]. }
  apply Forall_cons in Hrange as [Hp Hrange]. cbn [for_each].
  set (s1 := partitioner_with_resource i d (id_ p) exclusive 1 s).
  set (d1 := pool_with_resource (id_ p) exclusive 1 d).
  assert (add_resource p pool_name exclusive 1 s
          = (increment_occupancy_count p, s1, Return ())) as ->.
  { destruct Hmode as [Hover|[Hfree Hbudget]].
    - unfold add_resource. rewrite Hdyn, Hover.
      by rewrite (add_resource_to_pool_in_range _ _ _ _ _ i d).
    - destruct (oversubscription_allowed s) eqn:Hover.
      + unfold add_resource. rewrite Hdyn, Hover.
        by rewrite (add_resource_to_pool_in_range _ _ _ _ _ i d).
      + rewrite (add_resource_no_oversubscription _ _ _ _ _ i d) by done.
        apply Forall_cons in Hfree as [-> _]. cbn [N.eqb]. cbn zeta.
        fold s1. pose proof (num_os_threads_lt s) as Hlt.
        assert (num_threads_overall s1 = num_threads_overall s + 1) as ->.
        { unfold s1, partitioner_with_resource. simpl. apply wrap_small.
          cbn [length] in Hbudget. lia. }
        rewrite (proj2 (N.ltb_ge _ _)); [done|]. cbn [length] in Hbudget. lia. }
  assert (get_pool_data pool_name s1 = Return (i, d1)) as Hget1.
  { unfold s1, partitioner_with_resource.
    pose proof (get_pool_data_put pool_name s i d d1 Hget) as Hput.
    unfold get_pool_data in *. simpl in *. apply Hput.
    by apply get_pool_data_Return in Hget as [_ ?]. }
  rewrite (IH s1 d1 Hget1); [|done..|].
  - unfold s1, d1. by rewrite partitioner_with_pus_cons.
  - destruct Hmode as [Hover|[Hfree Hbudget]]; [by left|].
    destruct (oversubscription_allowed s) eqn:Hover; [by left|]. right.
    apply Forall_cons in Hfree as [_ Hfree]. split; [done|].
    pose proof (num_os_threads_lt s) as Hlt. cbn [length] in Hbudget.
    unfold s1, partitioner_with_resource. simpl.
    rewrite wrap_small by lia.
    change (num_os_threads (set_num_threads_overall _ _)) with (num_os_threads s).
    lia.
Qed.

(** A loop over two vectors in a row: the second is visited when no
    exception left the first. *)
Lemma for_each_app {A St} (body : A → St → (A * St) * outcome unit) l1 l2 st :
  for_each body (l1 ++ l2) st =
    match for_each body l1 st with
    | (l1', st', Return _) =>
        let '(l2', st'', r) := for_each body l2 st' in (l1' ++ l2', st'', r)
    | (l1', st', r) => (l1' ++ l2, st', r)
    end.
Proof.
  revert st. induction l1 as [|x l1 IH]; intros st.
  { simpl. by destruct (for_each body l2 st) as [[l2' st''] r]. }
  cbn [for_each app].
  destruct (body x st) as [[x' st'] [[]| |]]; try done.
  rewrite IH. destruct (for_each body l1 st') as [[l1' st1] [[]| |]]; try done.
  by destruct (for_each body l2 st1) as [[l2' st2] r].
Qed.

(** X7.  The overload of [add_resource] for a vector of PUs binds the PUs
    in the order of the vector, one thread each.  On a pool that is there,
    for PUs of the machine, and either with oversubscription allowed or
    with every PU free and the thread budget sufficient, it returns: the
    pool has one more entry [(p.id_, exclusive, false)] and one more
    one-hot mask per PU, in that order, and the counter of every PU is
    raised by one.  When the call for one PU does not return, the loop ends
    there with the outcome of that call, and the PUs before it stay
    bound. *)
Theorem add_resource_pus_binds_in_order (pv : list pu) (pool_name : string)
    (exclusive : bool) (s : partitioner) :
  (∀ i d,
     get_pool_data pool_name s = Return (i, d) →
     exclusive = true ∨ dynamic_pools_allowed s = true →
     Forall (λ p, id_ p < hardware_concurrency) pv →
     oversubscription_allowed s = true
     ∨ Forall (λ p, thread_occupancy_count_ p = 0) pv
       ∧ num_threads_overall s + N.of_nat (length pv) ≤ num_os_threads s →
     let d' := pool_with_pus pv exclusive d in
     add_resource_pus pv pool_name exclusive s
     = (increment_occupancy_count <$> pv,
        partitioner_with_pus i d pv exclusive s, Return ())
     ∧ get_pool_data pool_name (partitioner_with_pus i d pv exclusive s)
       = Return (i, d')
     ∧ assigned_pu_nums_ d'
       = assigned_pu_nums_ d ++ ((λ p, (id_ p, exclusive, false)) <$> pv)
     ∧ assigned_pus_ d'
       = assigned_pus_ d ++ ((λ p, one_hot_mask (id_ p)) <$> pv))
  ∧ (∀ pre p post bound s1 p' s2 r,
       pv = pre ++ p :: post →
       add_resource_pus pre pool_name exclusive s = (bound, s1, Return ()) →
       add_resource p pool_name exclusive 1 s1 = (p', s2, r) →
       r ≠ Return () →
       add_resource_pus pv pool_name exclusive s = (bound ++ p' :: post, s2, r)).
Proof.
  split.
  - intros i d Hget Hexcl Hrange Hmode d'.
    assert (negb exclusive && negb (dynamic_pools_allowed s) = false) as Hdyn.
    { destruct Hexcl as [->| ->]; [done|]. apply andb_false_r. }
    split_and!; try done.
    + by apply add_resource_pus_spec.
    + unfold partitioner_with_pus.
      pose proof (get_pool_data_put pool_name s i d d' Hget) as Hput.
      unfold get_pool_data in *. simpl in *. apply Hput.
      by apply get_pool_data_Return in Hget as [_ ?].
  - intros pre p post bound s1 p' s2 r -> Hpre Hp Hr.
    unfold add_resource_pus in *. rewrite for_each_app, Hpre.
    cbn [for_each]. rewrite Hp. by destruct r as [[]| |].
Qed.

(** A loop whose body is itself a loop over the parts of each element is
    the loop over all the parts in a row. *)
Lemma for_each_flatten {A B St} (body : B → St → (B * St) * outcome unit)
    (outer : A → St → (A * St) * outcome unit) (flat : A → list B) :
  (∀ a st, (flat (outer a st).1.1, (outer a st).1.2, (outer a st).2)
           = for_each body (flat a) st) →
  ∀ la st,
    ((for_each outer la st).1.1 ≫= flat,
     (for_each outer la st).1.2, (for_each outer la st).2)
    = for_each body (la ≫= flat) st.
Proof.
  intros Houter la. induction la as [|a la IH]; intros st; [done|].
  rewrite bind_cons, for_each_app. cbn [for_each].
  specialize (Houter a st). rewrite <- Houter.
  destruct (outer a st) as [[a' st'] [[]| |]]; cbn [fst snd]; try done.
  rewrite <- IH. by destruct (for_each outer la st') as [[la' st''] r].
Qed.

Lemma add_resource_cores_flatten cv pool_name exclusive s :
  let r := add_resource_cores cv pool_name exclusive s in
  (r.1.1 ≫= pus_, r.1.2, r.2)
  = add_resource_pus (cv ≫= pus_) pool_name exclusive s.
Proof.
  apply (for_each_flatten (λ p s, add_resource p pool_name exclusive 1 s)).
  intros c st. unfold add_resource_core, add_resource_pus.
  by destruct (for_each _ (pus_ c) st) as [[pus' st'] r].
Qed.

(** X8.  The overloads of [add_resource] for a core, a vector of cores, a
    domain and a vector of domains are the overload for a vector of PUs on
    the PUs of the argument in iteration order (the cores of a domain in
    order, the PUs of a core in order): the outcome, the partitioner and
    the PUs afterwards are the same. *)
Theorem add_resource_overloads_flatten (pool_name : string) (exclusive : bool)
    (s : partitioner) :
  (∀ cv,
     let r := add_resource_cores cv pool_name exclusive s in
     (r.1.1 ≫= pus_, r.1.2, r.2)
     = add_resource_pus (cv ≫= pus_) pool_name exclusive s)
  ∧ (∀ nd,
       let r := add_resource_domain nd pool_name exclusive s in
       (cores_ r.1.1 ≫= pus_, r.1.2, r.2)
       = add_resource_pus (cores_ nd ≫= pus_) pool_name exclusive s)
  ∧ (∀ ndv,
       let r := add_resource_domains ndv pool_name exclusive s in
       (mirror_pus r.1.1, r.1.2, r.2)
       = add_resource_pus (mirror_pus ndv) pool_name exclusive s)
  ∧ (∀ c,
       let r := add_resource_core c pool_name exclusive s in
       (pus_ r.1.1, r.1.2, r.2)
       = add_resource_pus (pus_ c) pool_name exclusive s).
Proof.
  assert (∀ nd st,
            let r := add_resource_domain nd pool_name exclusive st in
            (cores_ r.1.1 ≫= pus_, r.1.2, r.2)
            = add_resource_pus (cores_ nd ≫= pus_) pool_name exclusive st)
    as Hdomain.
  { intros nd st. cbn zeta.
    rewrite <- add_resource_cores_flatten. unfold add_resource_domain.
    by destruct (add_resource_cores _ _ _ _) as [[cores' st'] r]. }
  split_and!.
  - intros cv. apply add_resource_cores_flatten.
  - intros nd. apply Hdomain.
  - intros ndv.
    apply (for_each_flatten (λ p s, add_resource p pool_name exclusive 1 s)
             (λ d s, add_resource_domain d pool_name exclusive s)
             (λ d, cores_ d ≫= pus_)).
    intros nd st. apply Hdomain.
  - intros c. cbn zeta. unfold add_resource_core.
    by destruct (add_resource_pus _ _ _ _) as [[pus' st'] r].
Qed.

(** *** Creating a pool and choosing its scheduler *)

Lemma list_find_insert_other {A} (P : A → Prop) `{!∀ x, Decision (P x)}
    (l : list A) i x y :
  l !! i = Some x → ¬ P x → ¬ P y → list_find P (<[i:=y]> l) = list_find P l.
Proof.
  revert i. induction l as [|z l IH]; intros i Hi Hx Hy; [done|].
  destruct i as [|i]; simpl in *.
  - simplify_eq. by rewrite !decide_False by done.
  - destruct (decide (P z)); [done|]. by rewrite (IH i).
Qed.

(** Writing a pool through the reference leaves the lookup of the other
    names as it was. *)
Lemma get_pool_data_put_other other s i d d' :
  initial_thread_pools_ s !! i = Some d →
  pool_name_ d ≠ other → pool_name_ d' ≠ other →
  get_pool_data other (put_pool_data i d' s) = get_pool_data other s.
Proof.
  intros Hi Hd Hd'. unfold get_pool_data, put_pool_data. simpl.
  by rewrite (list_find_insert_other _ _ i d d').
Qed.

Lemma get_pool_data_None pool_name s :
  pool_name ∉ pool_names s →
  list_find (λ itp, pool_name_ itp = pool_name) (initial_thread_pools_ s) = None.
Proof.
  intros Hfresh. apply list_find_None, Forall_forall. intros d Hd Hname.
  apply Hfresh. unfold pool_names. apply list_elem_of_fmap. by exists d.
Qed.

(** X9.  [create_thread_pool] with a name that is not empty and that no
    pool has, in a state the partitioner goes through: it returns and
    appends a pool of that name without resources and leaves the pools
    that were there as they are.  The lookup by name then finds the new
    pool at the last position, [get_pool_index] returns the former number
    of pools, [get_num_threads(name)] returns 0, and [which_scheduler]
    returns the policy given, or throws when that is [unspecified]. *)
Theorem create_thread_pool_fresh (name : string) (sched : scheduling_policy)
    (mode : scheduler_mode) (func : background_work_function)
    (s : partitioner) :
  reachable s → name ≠ "" → name ∉ pool_names s →
  let d := mk_init_pool_data name sched [] [] 0 mode None func in
  let s' := set_initial_thread_pools_ (initial_thread_pools_ s ++ [d]) s in
  create_thread_pool name sched mode func s = (s', Return ())
  ∧ get_pool_data name s' = Return (length (initial_thread_pools_ s), d)
  ∧ get_pool_index name s' = Return (get_num_pools s)
  ∧ get_num_pools s' = get_num_pools s + 1
  ∧ get_num_threads_of_name name s' = Return 0
  ∧ which_scheduler name s'
    = (if decide (sched = unspecified)
       then Throw (unspecified_scheduler_type name) else Return sched)
  ∧ (∀ other, other ≠ name → get_pool_data other s' = get_pool_data other s).
Proof.
  intros Hreach Hname Hfresh d s'.
  destruct (reachable_default_pool s Hreach) as (d0 & rest & Hpools & Hd0).
  assert (name ≠ "default") as Hdefault.
  { intros ->. apply Hfresh. unfold pool_names. rewrite Hpools, <- Hd0.
    apply list_elem_of_here. }
  pose proof (get_pool_data_None name s Hfresh) as Hnone.
  assert (list_find (λ itp, pool_name_ itp = name) (initial_thread_pools_ s')
          = Some (length (initial_thread_pools_ s), d)) as Hfind.
  { unfold s'. simpl. rewrite list_find_app_r by done. simpl.
    by rewrite decide_True. }
  assert (get_pool_data name s' = Return (length (initial_thread_pools_ s), d))
    as Hget.
  { unfold get_pool_data. by rewrite Hfind. }
  split_and!.
  - unfold create_thread_pool. rewrite decide_False by done.
    rewrite decide_False.
    2:{ unfold get_default_pool_name. rewrite Hpools, Hd0. done. }
    assert (name_taken name s = false) as ->.
    { apply bool_decide_eq_false. intros Hin. apply Hfresh.
      unfold pool_names. rewrite Hpools in *. simpl in *.
      rewrite drop_0 in Hin. by apply list_elem_of_further. }
    by rewrite init_pool_data_ctor_Return.
  - done.
  - unfold get_pool_index. rewrite decide_False by done. by rewrite Hfind.
  - unfold get_num_pools, s'. simpl. rewrite length_app. simpl. lia.
  - unfold get_num_threads_of_name. by rewrite Hget.
  - unfold which_scheduler. by rewrite Hget.
  - intros other Hother. unfold get_pool_data, s'. simpl.
    destruct (list_find (λ itp, pool_name_ itp = other)
                (initial_thread_pools_ s)) as [[j x]|] eqn:Hold.
    + by rewrite (list_find_app_l _ _ _ _ _ Hold).
    + rewrite list_find_app_r by done. simpl. by rewrite decide_False.
Qed.

(** X10.  [set_scheduler] on a pool that is there returns and changes the
    policy of that pool only: [which_scheduler] for that name then returns
    the policy set (and throws when it is [unspecified]), and for every
    other name it answers as before.  On a name that no pool has,
    [set_scheduler] throws a bad-parameter error and changes nothing. *)
Theorem set_scheduler_which_scheduler (sched : scheduling_policy)
    (pool_name : string) (s : partitioner) :
  (pool_name ∈ pool_names s →
     (set_scheduler sched pool_name s).2 = Return ()
     ∧ which_scheduler pool_name (set_scheduler sched pool_name s).1
       = (if decide (sched = unspecified)
          then Throw (unspecified_scheduler_type pool_name) else Return sched)
     ∧ ∀ other, other ≠ pool_name →
         which_scheduler other (set_scheduler sched pool_name s).1
         = which_scheduler other s)
  ∧ (pool_name ∉ pool_names s →
       set_scheduler sched pool_name s
       = (s, Throw (no_pool_of_that_name pool_name))
       ∧ kind_of (no_pool_of_that_name pool_name) = BadParameter).
Proof.
  split.
  - intros Hin. unfold set_scheduler.
    destruct (get_pool_data pool_name s) as [[i d]|e|] eqn:Hget.
    + pose proof (get_pool_data_Return _ _ _ _ Hget) as [Hi Hd].
      cbn [fst snd]. split_and!; [done| |].
      * unfold which_scheduler.
        by rewrite (get_pool_data_put _ _ _ _ (set_scheduling_policy_ sched d)
                      Hget Hd).
      * intros other Hother. unfold which_scheduler.
        rewrite (get_pool_data_put_other other s i d); try done.
        all: simpl; congruence.
    + unfold get_pool_data in Hget.
      destruct (list_find _ _) eqn:Hfind; [done|].
      apply list_find_None in Hfind. rewrite Forall_forall in Hfind.
      unfold pool_names in Hin. apply list_elem_of_fmap in Hin as (d & Hd & Hin).
      by destruct (Hfind d Hin).
    + by apply get_pool_data_defined in Hget.
  - intros Hfresh. unfold set_scheduler, get_pool_data.
    by rewrite get_pool_data_None.
Qed.

(** *** After [configure_pools] *)

(** A loop that returns has run its body on every element, and every run
    returned. *)
Lemma for_each_Return {A St} (Q : A → Prop)
    (body : A → St → (A * St) * outcome unit) l st :
  (∀ x st, (body x st).2 = Return () → Q (body x st).1.1) →
  (for_each body l st).2 = Return () → Forall Q (for_each body l st).1.1.
Proof.
  intros Hbody. revert st. induction l as [|x l IH]; intros st; [by constructor|].
  cbn [for_each]. specialize (Hbody x st).
  destruct (body x st) as [[x' st'] [[]| |]]; try done.
  specialize (IH st'). destruct (for_each body l st') as [[l' st''] r].
  simpl in *. intros ->. constructor; auto.
Qed.

(** A call of [add_resource] that returns has raised the counter of the
    PU. *)
Lemma add_resource_Return_pu p pool_name exclusive num_threads s :
  (add_resource p pool_name exclusive num_threads s).2 = Return () →
  (add_resource p pool_name exclusive num_threads s).1.1
  = increment_occupancy_count p.
Proof.
  unfold add_resource.
  destruct (negb exclusive && negb (dynamic_pools_allowed s)); [done|].
  destruct (oversubscription_allowed s).
  - by destruct (add_resource_to_pool _ _ _ _ _) as [s' [[]| |]].
  - destruct (thread_occupancy_count_ p =? 0); [|done].
    destruct (add_resource_to_pool _ _ _ _ _) as [s' [[]| |]]; try done.
    by destruct (_ <? _).
Qed.

Lemma setup_pools_pu_Return p st :
  (setup_pools_pu p st).2 = Return () →
  thread_occupancy_count_ (setup_pools_pu p st).1.1 ≠ 0.
Proof.
  destruct st as [first s]. unfold setup_pools_pu.
  destruct (thread_occupancy_count_ p =? 0) eqn:Hcount.
  - apply N.eqb_eq in Hcount.
    pose proof (add_resource_Return_pu p (get_default_pool_name s)
                  (first || negb (dynamic_pools_allowed s)) 1 s) as Hp.
    destruct (add_resource _ _ _ _ _) as [[p' s'] [[]| |]]; try done.
    simpl in *. intros _. rewrite Hp by done. simpl. by rewrite Hcount.
  - by apply N.eqb_neq in Hcount.
Qed.

Lemma filter_none {A} (P : A → Prop) `{!∀ x, Decision (P x)} (l : list A) :
  Forall (λ x, ¬ P x) l → filter P l = [].
Proof.
  induction 1 as [|x l Hx _ IH]; [done|]. by rewrite filter_cons_False.
Qed.

(** When the loops of [setup_pools] return, no PU of the mirror is free
    any more. *)
Lemma setup_pools_fill_Return s :
  (setup_pools_fill s).2 = Return () → free_pus (setup_pools_fill s).1 = [].
Proof.
  unfold setup_pools_fill, free_pus, mirror_pus.
  assert (∀ d st, (setup_pools_domain d st).2 = Return () →
            Forall (λ c, Forall (λ p, thread_occupancy_count_ p ≠ 0) (pus_ c))
              (cores_ (setup_pools_domain d st).1.1)) as Hdomain.
  { intros d st. unfold setup_pools_domain.
    pose proof (for_each_Return
      (λ c, Forall (λ p, thread_occupancy_count_ p ≠ 0) (pus_ c))
      setup_pools_core (cores_ d) st) as H.
    destruct (for_each _ _ _) as [[cs' st'] r]. simpl in *.
    apply H. clear. intros c st. unfold setup_pools_core.
    pose proof (for_each_Return (λ p, thread_occupancy_count_ p ≠ 0)
                  setup_pools_pu (pus_ c) st) as H.
    destruct (for_each _ _ _) as [[ps' st'] r]. simpl in *.
    apply H. clear. intros p st. apply setup_pools_pu_Return. }
  pose proof (for_each_Return
    (λ d, Forall (λ c, Forall (λ p, thread_occupancy_count_ p ≠ 0) (pus_ c))
            (cores_ d))
    setup_pools_domain (numa_domains_ s) (true, s) Hdomain) as H.
  destruct (for_each _ _ _) as [[ds' [first s']] r]. simpl in *.
  intros ->. specialize (H eq_refl). rewrite Forall_forall in H.
  apply filter_none, Forall_forall.
  intros p (d & Hp & Hd)%list_elem_of_bind.
  apply list_elem_of_bind in Hp as (c & Hp & Hc).
  specialize (H d Hd). rewrite Forall_forall in H. specialize (H c Hc).
  rewrite Forall_forall in H. by apply H.
Qed.

Lemma setup_pools_Return s s1 :
  setup_pools s = (s1, Return ()) →
  setup_pools_fill s = (s1, Return ())
  ∧ (∃ i d, get_pool_data (get_default_pool_name s1) s1 = Return (i, d)
            ∧ num_threads_ d ≠ 0)
  ∧ check_empty_pools s1 = false.
Proof.
  unfold setup_pools.
  destruct (setup_pools_fill s) as [s' [[]| |]]; [|by intros [=]..].
  destruct (get_pool_data _ s') as [[i d]| |] eqn:Hget; [|by intros [=]..].
  destruct (num_threads_ d =? 0) eqn:Hnum; [by intros [=]|].
  destruct (check_empty_pools s') eqn:Hempty; [by intros [=]|].
  intros [= ->]. apply N.eqb_neq in Hnum. split_and!; by eauto.
Qed.

Lemma check_empty_pools_false s d :
  check_empty_pools s = false → d ∈ initial_thread_pools_ s →
  assigned_pus_ d ≠ [] ∧ Forall (λ m, threads_any m = true) (assigned_pus_ d).
Proof.
  unfold check_empty_pools. intros Hcheck Hd.
  destruct (assigned_pus_ d) as [|m masks] eqn:Hmasks.
  - exfalso. apply not_true_iff_false in Hcheck. apply Hcheck.
    apply existsb_exists. exists d. split; [by apply list_elem_of_In|].
    by rewrite Hmasks.
  - split; [done|]. apply Forall_forall. intros m' Hm'.
    destruct (threads_any m') eqn:Hany; [done|].
    exfalso. apply not_true_iff_false in Hcheck. apply Hcheck.
    apply existsb_exists. exists d. split; [by apply list_elem_of_In|].
    rewrite Hmasks. apply existsb_exists. exists m'.
    split; [by apply list_elem_of_In|]. by rewrite Hany.
Qed.

Lemma select_default_scheduler_specified str sched :
  select_default_scheduler str = Return sched → sched ≠ unspecified.
Proof.
  rewrite select_default_scheduler_resolve. unfold resolve_by_prefix.
  destruct (list_find _ _) as [[i [known sched']]|] eqn:Hfind; [|done].
  simpl. intros [= <-].
  apply list_find_Some in Hfind as (Hi%list_elem_of_lookup_2 & _).
  unfold known_schedulers in Hi.
  destruct HPX_HAVE_WORK_REQUESTING_SCHEDULERS; simpl in Hi;
    repeat (apply elem_of_cons in Hi as [[= _ ->]|Hi]; [done|]);
    by apply not_elem_of_nil in Hi.
Qed.

Lemma configure_pools_Return s :
  (configure_pools s).2 = Return () →
  ∃ s1 sched,
    setup_pools s = (s1, Return ())
    ∧ sched ≠ unspecified
    ∧ (configure_pools s).1
      = set_is_initialized_ true
          (reconfigure_affinities
             (set_initial_thread_pools_
                (set_default_scheduler sched <$> initial_thread_pools_ s1) s1)).
Proof.
  unfold configure_pools.
  destruct (setup_pools s) as [s1 [[]| |]] eqn:Hsetup; try done.
  unfold setup_schedulers.
  destruct (select_default_scheduler _) as [sched| |] eqn:Hselect; try done.
  intros _. exists s1, sched. split_and!; try done.
  by eapply select_default_scheduler_specified.
Qed.

Lemma set_default_scheduler_fields sched d :
  pool_name_ (set_default_scheduler sched d) = pool_name_ d
  ∧ assigned_pus_ (set_default_scheduler sched d) = assigned_pus_ d
  ∧ assigned_pu_nums_ (set_default_scheduler sched d) = assigned_pu_nums_ d
  ∧ num_threads_ (set_default_scheduler sched d) = num_threads_ d.
Proof.
  unfold set_default_scheduler.
  by destruct (decide (scheduling_policy_ d = unspecified)).
Qed.

Lemma get_pool_data_set_default_scheduler sched pool_name s :
  get_pool_data pool_name
    (set_initial_thread_pools_
       (set_default_scheduler sched <$> initial_thread_pools_ s) s)
  = match get_pool_data pool_name s with
    | Return (i, d) => Return (i, set_default_scheduler sched d)
    | Throw e => Throw e
    | Undefined => Undefined
    end.
Proof.
  unfold get_pool_data. simpl. rewrite list_find_fmap.
  rewrite (list_find_ext _ (λ itp, pool_name_ itp = pool_name)).
  2:{ intros d. simpl.
      by rewrite (proj1 (set_default_scheduler_fields sched d)). }
  by destruct (list_find _ _) as [[i d]|].
Qed.

Lemma length_bind_fmap {A B C} (f : A → list B) (g : B → C) (l : list A) :
  length (x ← l; g <$> f x) = length (x ← l; f x).
Proof.
  induction l as [|x l IH]; [done|].
  by rewrite !bind_cons, !length_app, length_fmap, IH.
Qed.

(** X11.  When [configure_pools] returns, the partitioner is initialized
    and ready to be queried: no PU of the mirror is free any more, every
    pool has at least one mask and every mask has a bit raised, no pool has
    the policy [unspecified] (so [which_scheduler] returns for the name of
    every pool), the default pool has a thread count other than 0, the
    names of the pools are those before the call, and the affinity map
    holds one worker per entry of the pools. *)
Theorem configure_pools_postconditions (s : partitioner) :
  (configure_pools s).2 = Return () →
  let s' := (configure_pools s).1 in
  is_initialized_ s' = true
  ∧ pool_names s' = pool_names s
  ∧ free_pus s' = []
  ∧ (∀ d, d ∈ initial_thread_pools_ s' →
       scheduling_policy_ d ≠ unspecified
       ∧ assigned_pus_ d ≠ []
       ∧ Forall (λ m, threads_any m = true) (assigned_pus_ d))
  ∧ (∀ name, name ∈ pool_names s' →
       ∃ sched, which_scheduler name s' = Return sched)
  ∧ (∃ i d, get_pool_data (get_default_pool_name s') s' = Return (i, d)
            ∧ num_threads_ d ≠ 0)
  ∧ affinity_num_threads_ (affinity_data_ s')
    = N.of_nat (length (bound_entries s')).
Proof.
  intros Hr s'.
  destruct (configure_pools_Return s Hr) as (s1 & sched & Hsetup & Hsched & Hs').
  destruct (setup_pools_Return s s1 Hsetup)
    as (Hfill & (i0 & d0 & Hget0 & Hnum0) & Hempty).
  assert (∀ d, d ∈ initial_thread_pools_ s' →
            scheduling_policy_ d ≠ unspecified
            ∧ assigned_pus_ d ≠ []
            ∧ Forall (λ m, threads_any m = true) (assigned_pus_ d)) as Hpools.
  { intros d. unfold s'. rewrite Hs'. simpl.
    intros (d1 & -> & Hd1)%list_elem_of_fmap.
    destruct (check_empty_pools_false s1 d1 Hempty Hd1) as [Hmasks Hany].
    destruct (set_default_scheduler_fields sched d1) as (_ & -> & _).
    split_and!; try done. unfold set_default_scheduler.
    by destruct (decide (scheduling_policy_ d1 = unspecified)). }
  split_and!.
  - unfold s'. by rewrite Hs'.
  - apply pool_names_configure_pools.
  - unfold s'. rewrite Hs'.
    pose proof (setup_pools_fill_Return s) as Hfree.
    rewrite Hfill in Hfree. by apply Hfree.
  - done.
  - intros name (d & Hname & Hd)%list_elem_of_fmap. unfold which_scheduler.
    destruct (list_find_elem_of (λ itp, pool_name_ itp = name)
                (initial_thread_pools_ s') d Hd) as [[j x] Hfind]; [done|].
    unfold get_pool_data. rewrite Hfind.
    apply list_find_Some in Hfind as (Hx%list_elem_of_lookup_2 & _).
    destruct (Hpools x Hx) as [Hpolicy _].
    rewrite decide_False by done. by eexists.
  - assert (get_default_pool_name s' = get_default_pool_name s1) as ->.
    { unfold s'. rewrite Hs'. unfold get_default_pool_name. simpl.
      destruct (initial_thread_pools_ s1) as [|d1 rest]; [done|]. simpl.
      apply set_default_scheduler_fields. }
    exists i0, (set_default_scheduler sched d0). split.
    + unfold s'. rewrite Hs'.
      pose proof (get_pool_data_set_default_scheduler sched
                    (get_default_pool_name s1) s1) as Hget.
      rewrite Hget0 in Hget. unfold get_pool_data in *. simpl in *. exact Hget.
    + by destruct (set_default_scheduler_fields sched d0) as (_ & _ & _ & ->).
  - unfold s'. rewrite Hs'. unfold bound_entries. simpl.
    by rewrite length_bind_fmap.
Qed.

(** *** The affinity map after [configure_pools] *)

(** The part [j] of the element at position [k] is found in the
    concatenation after the parts of the elements before. *)
Lemma lookup_bind_offset {A B} (f : A → list B) (l : list A) k x j z :
  l !! k = Some x → f x !! j = Some z →
  (l ≫= f) !! (length (take k l ≫= f) + j)%nat = Some z.
Proof.
  revert k. induction l as [|y l IH]; intros k Hk Hj; [done|].
  destruct k as [|k].
  - injection Hk as ->. rewrite bind_cons. by apply lookup_app_l_Some.
  - cbn [take]. rewrite !bind_cons, length_app, <- Nat.add_assoc.
    rewrite lookup_app_r by lia.
    replace (length (f y) + (length (take k l ≫= f) + j) - length (f y))%nat
      with (length (take k l ≫= f) + j)%nat by lia.
    by apply IH.
Qed.

Lemma bind_masks_well_formed pools :
  Forall pool_well_formed pools →
  (d ← pools; assigned_pus_ d)
  = (λ e, one_hot_mask (entry_pu_id e)) <$> (d ← pools; assigned_pu_nums_ d).
Proof.
  induction 1 as [|d pools [Hd _] _ IH]; [done|].
  rewrite !bind_cons, fmap_app, IH. f_equal. clear IH.
  induction Hd as [|m e masks nums [_ ->] _ IH]; [done|].
  by rewrite fmap_cons, IH.
Qed.

(** The affinity map [reconfigure_affinities] builds. *)
Lemma reconfigure_affinities_maps s :
  affinity_pu_nums_ (affinity_data_ (reconfigure_affinities s))
  = entry_pu_id <$> bound_entries s
  ∧ affinity_num_threads_ (affinity_data_ (reconfigure_affinities s))
    = N.of_nat (length (bound_entries s))
  ∧ (pools_well_formed s →
     affinity_masks_ (affinity_data_ (reconfigure_affinities s))
     = (λ e, one_hot_mask (entry_pu_id e)) <$> bound_entries s).
Proof.
  unfold reconfigure_affinities, reconfigure_affinities_locked, bound_entries.
  simpl. split_and!.
  - induction (initial_thread_pools_ s) as [|d pools IH]; [done|].
    by rewrite !bind_cons, fmap_app, IH.
  - by rewrite length_bind_fmap.
  - apply bind_masks_well_formed.
Qed.

Lemma threads_test_one_hot pu_index pu_num :
  pu_index < hardware_concurrency →
  threads_test (one_hot_mask pu_index) pu_num = bool_decide (pu_num = pu_index).
Proof.
  intros Hlt. destruct (one_hot_mask_spec pu_index Hlt) as [Hlen Hbits].
  unfold threads_test.
  destruct (decide (N.to_nat pu_num < N.to_nat hardware_concurrency)%nat)
    as [Hin|Hout].
  - rewrite Hbits by done. simpl. apply bool_decide_ext. lia.
  - rewrite (proj2 (lookup_ge_None _ _)) by lia. simpl.
    symmetry. apply bool_decide_eq_false. lia.
Qed.

(** X12.  After [configure_pools] the workers are numbered pool by pool,
    in the order of the pools, and inside a pool in the order of its
    entries: the worker of the entry [j] of the pool at position [k] has
    the number of entries of the pools before [k] plus [j]; [get_pu_num]
    of that worker is the PU of the entry and [get_pu_mask] is the mask with
    only the bit of that PU raised. *)
Theorem configure_pools_numbers_workers (s : partitioner) (k j : nat)
    (d : init_pool_data) (e : pu_entry) :
  reachable s →
  (configure_pools s).2 = Return () →
  let s' := (configure_pools s).1 in
  initial_thread_pools_ s' !! k = Some d →
  assigned_pu_nums_ d !! j = Some e →
  let worker := N.of_nat (first_worker k s' + j) in
  get_pu_num worker s' = entry_pu_id e
  ∧ get_pu_mask worker s' = one_hot_mask (entry_pu_id e)
  ∧ worker < affinity_num_threads_ (affinity_data_ s').
Proof.
  intros Hreach Hr s' Hk Hj worker.
  assert (pools_well_formed s') as Hwf.
  { apply reachable_well_formed. eapply reachable_step; [done|].
    apply step_configure_pools. }
  destruct (configure_pools_Return s Hr) as (s1 & sched & _ & _ & Hs').
  fold s' in Hs'.
  set (s2 := set_initial_thread_pools_ _ s1) in Hs'.
  assert (initial_thread_pools_ s' = initial_thread_pools_ s2) as Hpools
    by (by rewrite Hs').
  assert (bound_entries s2 !! (first_worker k s' + j)%nat = Some e) as He.
  { unfold bound_entries, first_worker. rewrite Hpools.
    apply (lookup_bind_offset assigned_pu_nums_ _ k d); [|done].
    by rewrite <- Hpools. }
  destruct (reconfigure_affinities_maps s2) as (Hnums & Hcount & Hmasks).
  unfold pools_well_formed in Hmasks. rewrite <- Hpools in Hmasks.
  specialize (Hmasks Hwf).
  assert (is_initialized_ s' = true) as Hinit by (by rewrite Hs').
  assert (affinity_data_ s' = affinity_data_ (reconfigure_affinities s2))
    as Haff by (by rewrite Hs').
  unfold get_pu_num, get_pu_mask, affinity_get_pu_num, affinity_get_pu_mask.
  rewrite Hinit, Haff, Hnums, Hmasks, Hcount. unfold worker.
  rewrite Nat2N.id, !list_lookup_fmap, He. split_and!; try done.
  apply lookup_lt_Some in He. lia.
Qed.

(** X13.  After [configure_pools], [get_thread_occupancy] of a PU is the
    number of entries of the pools that name this PU: the number of workers
    the partitioner runs on it. *)
Theorem configure_pools_thread_occupancy (s : partitioner) (pu_num : N) :
  reachable s →
  (configure_pools s).2 = Return () →
  let s' := (configure_pools s).1 in
  get_thread_occupancy pu_num s'
  = N.of_nat (length (filter (λ e, entry_pu_id e = pu_num) (bound_entries s'))).
Proof.
  intros Hreach Hr s'.
  assert (pools_well_formed s') as Hwf.
  { apply reachable_well_formed. eapply reachable_step; [done|].
    apply step_configure_pools. }
  destruct (configure_pools_Return s Hr) as (s1 & sched & _ & _ & Hs').
  fold s' in Hs'.
  set (s2 := set_initial_thread_pools_ _ s1) in Hs'.
  assert (initial_thread_pools_ s' = initial_thread_pools_ s2) as Hpools
    by (by rewrite Hs').
  destruct (reconfigure_affinities_maps s2) as (_ & _ & Hmasks).
  unfold pools_well_formed in Hmasks. rewrite <- Hpools in Hmasks.
  specialize (Hmasks Hwf).
  assert (affinity_data_ s' = affinity_data_ (reconfigure_affinities s2))
    as Haff by (by rewrite Hs').
  assert (Forall (λ e, entry_pu_id e < hardware_concurrency) (bound_entries s'))
    as Hrange.
  { unfold bound_entries. apply Forall_forall.
    intros e (d & He & Hd)%list_elem_of_bind.
    unfold pools_well_formed in Hwf. rewrite Forall_forall in Hwf.
    apply list_elem_of_lookup in He as [i He].
    by destruct (pool_well_formed_lookup d i e (Hwf d Hd) He). }
  unfold get_thread_occupancy, affinity_get_thread_occupancy.
  rewrite Haff, Hmasks. f_equal. unfold bound_entries in *. rewrite <- Hpools.
  induction Hrange as [|e es He _ IH]; [done|].
  rewrite fmap_cons, !filter_cons, (threads_test_one_hot _ _ He).
  destruct (decide (pu_num = entry_pu_id e)) as [->|Hne].
  - rewrite bool_decide_eq_true_2, !decide_True by done. simpl. by rewrite IH.
  - rewrite bool_decide_eq_false_2 by done.
    rewrite decide_False by done. rewrite decide_False by done. exact IH.
Qed.

(** *** A pool without resources *)

Lemma get_pool_data_default s d0 rest :
  initial_thread_pools_ s = d0 :: rest →
  get_pool_data (get_default_pool_name s) s = Return (0%nat, d0).
Proof.
  intros Hpools. unfold get_pool_data, get_default_pool_name.
  rewrite Hpools. simpl. by rewrite decide_True.
Qed.

(** Binding a PU to the default pool leaves the other pools and the flag
    [is_initialized_] as they are. *)
Lemma add_resource_default_others p exclusive num_threads s :
  let s' := (add_resource p (get_default_pool_name s) exclusive num_threads s).1.2 in
  drop 1 (initial_thread_pools_ s') = drop 1 (initial_thread_pools_ s)
  ∧ is_initialized_ s' = is_initialized_ s.
Proof.
  assert (let s' := (add_resource_to_pool (id_ p) (get_default_pool_name s)
                       exclusive num_threads s).1 in
          drop 1 (initial_thread_pools_ s') = drop 1 (initial_thread_pools_ s)
          ∧ is_initialized_ s' = is_initialized_ s) as Hpool.
  { unfold add_resource_to_pool.
    destruct (initial_thread_pools_ s) as [|d0 rest] eqn:Hpools.
    - unfold get_pool_data. rewrite Hpools. simpl. by rewrite Hpools.
    - rewrite (get_pool_data_default s d0 rest Hpools).
      destruct (init_pool_data_add_resource _ _ _ _) as [[d' overall'] r].
      simpl. by rewrite Hpools. }
  unfold add_resource. cbn zeta in *.
  destruct (add_resource_to_pool _ _ _ _ _) as [s' [[]| |]];
    destruct_matches; done.
Qed.

Lemma setup_pools_fill_others s :
  drop 1 (initial_thread_pools_ (setup_pools_fill s).1)
  = drop 1 (initial_thread_pools_ s)
  ∧ is_initialized_ (setup_pools_fill s).1 = is_initialized_ s.
Proof.
  unfold setup_pools_fill.
  set (P := λ st : bool * partitioner,
         drop 1 (initial_thread_pools_ st.2) = drop 1 (initial_thread_pools_ s)
         ∧ is_initialized_ st.2 = is_initialized_ s).
  pose proof (for_each_state P setup_pools_domain (numa_domains_ s) (true, s))
    as H.
  destruct (for_each _ _ _) as [[ds' [first s']] r]. simpl in *.
  apply H; [|done]. clear. intros d st Hst. unfold setup_pools_domain.
  pose proof (for_each_state P setup_pools_core (cores_ d) st) as H.
  destruct (for_each _ _ _) as [[cs' st'] r]. simpl in *.
  apply H; [|done]. clear. intros c st Hst. unfold setup_pools_core.
  pose proof (for_each_state P setup_pools_pu (pus_ c) st) as H.
  destruct (for_each _ _ _) as [[ps' st'] r]. simpl in *.
  apply H; [|done]. clear. intros p [first s'] [Hpools Hinit].
  unfold setup_pools_pu. destruct (_ =? _); [|done].
  pose proof (add_resource_default_others p
                (first || negb (dynamic_pools_allowed s')) 1 s') as Hadd.
  destruct (add_resource _ _ _ _ _) as [[p' s''] [[]| |]]; simpl in *;
    destruct Hadd as [Hpools' Hinit']; unfold P; simpl; split; congruence.
Qed.

(** [configure_pools] raises [is_initialized_] only when it returns. *)
Lemma configure_pools_not_Return s :
  (configure_pools s).2 ≠ Return () →
  is_initialized_ (configure_pools s).1 = is_initialized_ s.
Proof.
  unfold configure_pools.
  destruct (setup_pools_fill_others s) as [_ Hinit].
  rewrite <- setup_pools_state in Hinit.
  destruct (setup_pools s) as [s1 [[]| |]]; try done.
  unfold setup_schedulers.
  by destruct (select_default_scheduler _).
Qed.

(** X14.  No pool may stay without resources: when a pool at a position
    other than 0 has no mask at the call, [configure_pools] does not
    return and leaves [is_initialized_] as it is; when the loops over the
    free PUs go through, it throws with [hpx::error::invalid_status]. *)
Theorem configure_pools_empty_pool (s : partitioner) (k : nat)
    (d : init_pool_data) :
  initial_thread_pools_ s !! S k = Some d →
  assigned_pus_ d = [] →
  (configure_pools s).2 ≠ Return ()
  ∧ is_initialized_ (configure_pools s).1 = is_initialized_ s
  ∧ ((setup_pools_fill s).2 = Return () →
     ∃ e, (configure_pools s).2 = Throw e
          ∧ (e = default_pool_without_threads ∨ e = empty_pools_not_allowed)
          ∧ class_of e = hpx_invalid_status).
Proof.
  intros Hk Hd.
  destruct (setup_pools_fill_others s) as [Hrest _].
  assert (d ∈ initial_thread_pools_ (setup_pools_fill s).1) as Hin.
  { apply (list_elem_of_lookup_2 _ (S k)).
    rewrite <- (lookup_drop _ 1 k), Hrest, lookup_drop. exact Hk. }
  assert (check_empty_pools (setup_pools_fill s).1 = true) as Hempty.
  { unfold check_empty_pools. apply existsb_exists. exists d.
    split; [by apply list_elem_of_In|]. by rewrite Hd. }
  assert ((configure_pools s).2 ≠ Return ()) as Hr.
  { intros Hr. destruct (configure_pools_Return s Hr) as (s1 & _ & Hs1 & _).
    destruct (setup_pools_Return s s1 Hs1) as (Hfill & _ & Hcheck).
    rewrite Hfill in Hempty. simpl in Hempty. congruence. }
  split_and!; [done|by apply configure_pools_not_Return|].
  intros Hfill. unfold configure_pools, setup_pools.
  destruct (setup_pools_fill s) as [s1 r]. simpl in *. subst r.
  destruct (initial_thread_pools_ s1) as [|d0 rest] eqn:Hpools.
  { by apply not_elem_of_nil in Hin. }
  rewrite (get_pool_data_default s1 d0 rest Hpools), Hempty.
  destruct (num_threads_ d0 =? 0); eexists; split_and!; try done; by eauto.
Qed.

(** *** Calling [assign_cores] again *)

Lemma threads_needed_twice s :
  threads_needed (threads_needed s).1 = threads_needed s.
Proof.
  unfold threads_needed.
  destruct (pus_needed_ s =? size_t_minus_one) eqn:Hs; cbn [fst snd].
  - cbn [pus_needed_ set_pus_needed_ affinity_data_].
    by destruct (get_num_pus_needed (affinity_data_ s) =? size_t_minus_one).
  - by rewrite Hs.
Qed.

Lemma threads_needed_first_core s :
  first_core_ (threads_needed s).1 = first_core_ s.
Proof. unfold threads_needed. by destruct (_ =? _). Qed.

Lemma threads_needed_surjective s :
  threads_needed s = ((threads_needed s).1, (threads_needed s).2).
Proof. by destruct (threads_needed s). Qed.

Lemma assign_cores_Return first_core s n :
  (assign_cores first_core s).2 = Return n →
  ∃ s', first_core_ s' = first_core
        ∧ assign_cores first_core s
          = ((threads_needed s').1, Return (threads_needed s').2).
Proof.
  unfold assign_cores.
  destruct (decide (first_core_ s ≠ first_core)) as [Hne|Heq].
  - set (offset := if decide (first_core_ s ≠ size_t_minus_one) then _ else _).
    destruct (if decide (offset ≠ 0) then _ else _) as [pools [[]| |]];
      [|done..].
    set (s1 := reconfigure_affinities_locked _). intros _.
    exists s1. split; [done|]. by destruct (threads_needed s1).
  - apply dec_stable in Heq. intros _.
    exists s. split; [done|]. by destruct (threads_needed s).
Qed.

(** X15.  [assign_cores] caches the first core: after a call that
    returned, the first core is the one given, and a second call with the
    same first core returns the same number and changes nothing, whatever
    the pools are. *)
Theorem assign_cores_twice (first_core : N) (s : partitioner) (n : N) :
  (assign_cores first_core s).2 = Return n →
  first_core_ (assign_cores first_core s).1 = first_core
  ∧ assign_cores first_core (assign_cores first_core s).1
    = ((assign_cores first_core s).1, Return n).
Proof.
  intros Hr. destruct (assign_cores_Return first_core s n Hr) as (s' & Hs' & Hs).
  rewrite Hs in Hr |- *. cbn [fst snd] in *. injection Hr as <-.
  split; [by rewrite threads_needed_first_core|].
  unfold assign_cores.
  rewrite decide_False by (rewrite threads_needed_first_core; by intros []).
  rewrite threads_needed_twice. by destruct (threads_needed s').
Qed.

(** *** Shrinking and expanding *)

Lemma collected_lengths i es :
  (length (collected true i es) + length (collected false i es))%nat
  = length (filter (λ e, entry_exclusive e = false) es).
Proof.
  revert i. induction es as [|e es IH]; intros i; [done|].
  rewrite !collected_cons, !length_app, filter_cons.
  specialize (IH (S i)).
  destruct e as [[pu_id [|]] [|]]; simpl; lia.
Qed.

Lemma collected_lookup want_assigned es v :
  v ∈ collected want_assigned 0 es ↔
  ∃ e, es !! N.to_nat v = Some e
       ∧ entry_exclusive e = false ∧ entry_assigned e = want_assigned.
Proof.
  rewrite collected_elem_of. split.
  - intros (j & e & He & -> & Hexcl & Hassigned).
    exists e. by rewrite Nat.add_0_l, Nat2N.id.
  - intros (e & He & Hexcl & Hassigned).
    exists (N.to_nat v), e. split_and!; try done. lia.
Qed.

(** The scan on a consistent pool with a non-exclusive entry. *)
Lemma scan_pool_calls want_assigned pool_name s i d :
  dynamic_pools_allowed s = true →
  get_pool_data pool_name s = Return (i, d) →
  pool_consistent d → has_non_exclusive_entry d →
  scan_pool want_assigned pool_name s
  = (collected want_assigned 0 (assigned_pu_nums_ d),
     Return (N.of_nat (length (collected want_assigned 0
                                 (assigned_pu_nums_ d))))).
Proof.
  intros Hdyn Hget Hcons Hsome.
  rewrite (scan_pool_spec _ _ _ i d Hdyn Hget Hcons).
  by rewrite (proj2 (existsb_non_exclusive d) Hsome).
Qed.

(** *** Shrinking and expanding, as built with [HPX_DEBUG] *)

Lemma forallb_lookup_false {A} (f : A → bool) (l : list A) k x :
  l !! k = Some x → f x = false → forallb f l = false.
Proof.
  intros Hk Hx. destruct (forallb f l) eqn:Hall; [|done].
  rewrite forallb_forall in Hall.
  rewrite Hall in Hx; [done|].
  apply list_elem_of_In. by eapply list_elem_of_lookup_2.
Qed.

(** With every entry assigned, the scan finds nothing to add. *)
Lemma collected_false_assigned i es :
  forallb entry_assigned es = true → collected false i es = [].
Proof.
  revert i. induction es as [|e es IH]; intros i; [done|].
  cbn [forallb]. intros [He Hes]%andb_true_iff.
  rewrite collected_cons, IH by done.
  rewrite decide_False; [done|]. intros [_ ?]. congruence.
Qed.

(** The scan with the assertions fails at the first entry that is not
    assigned; without such an entry it is the scan without them. *)
Lemma scan_pool_loop_debug_spec want_assigned d pre es post has acc :
  assigned_pu_nums_ d = pre ++ es ++ post →
  scan_pool_loop_debug want_assigned d (length es) (length pre) has acc =
    if forallb entry_assigned es
    then Passed (scan_pool_loop want_assigned d (length es) (length pre)
                   has acc)
    else AssertionFailed.
Proof.
  revert pre has acc. induction es as [|e es IH]; intros pre has acc Hnums.
  { done. }
  assert (assigned_pu_nums_ d !! length pre = Some e) as He.
  { rewrite Hnums. by rewrite lookup_app_r, Nat.sub_diag by lia. }
  assert (assert_virt_core (N.of_nat (length pre)) d = true) as Hle.
  { unfold assert_virt_core. apply N.leb_le.
    rewrite Hnums, !length_app. lia. }
  cbn [length scan_pool_loop_debug scan_pool_loop forallb].
  unfold pu_is_exclusive_debug, pu_is_assigned_debug, pu_is_exclusive,
    pu_is_assigned.
  rewrite Hle, Nat2N.id, He. cbn [negb].
  specialize (IH (pre ++ [e])). rewrite length_app in IH. simpl in IH.
  rewrite Nat.add_1_r in IH.
  destruct e as [[pu_id [|]] [|]];
    cbn [entry_exclusive entry_assigned fst snd andb]; try done;
    apply IH; by rewrite <- app_assoc.
Qed.

Lemma scan_pool_debug_spec want_assigned pool_name s i d :
  dynamic_pools_allowed s = true →
  get_pool_data pool_name s = Return (i, d) →
  pool_consistent d →
  scan_pool_debug want_assigned pool_name s =
    if forallb entry_assigned (assigned_pu_nums_ d)
    then Passed (scan_pool want_assigned pool_name s)
    else AssertionFailed.
Proof.
  intros Hdyn Hget [_ Hnum]. unfold scan_pool_debug, scan_pool.
  rewrite Hdyn, Hget. cbn [negb]. rewrite Hnum, Nat2N.id.
  pose proof (scan_pool_loop_debug_spec want_assigned d []
                (assigned_pu_nums_ d) [] false []) as Hloop.
  cbn [length app] in Hloop. rewrite Hloop by (by rewrite app_nil_r).
  destruct (forallb _ _); [|done].
  destruct (scan_pool_loop _ _ _ _ _ _) as [[has pu_nums]|e|]; try done.
  by destruct has.
Qed.

(** Where no assertion fails, the functions with the assertions do what
    the functions without them do. *)
Lemma scan_pool_loop_debug_Passed want_assigned d count i has acc r :
  scan_pool_loop_debug want_assigned d count i has acc = Passed r →
  scan_pool_loop want_assigned d count i has acc = r.
Proof.
  revert i has acc. induction count as [|count IH]; intros i has acc.
  { simpl. by intros [= <-]. }
  cbn [scan_pool_loop_debug scan_pool_loop].
  unfold pu_is_exclusive_debug, pu_is_assigned_debug, pu_is_exclusive,
    pu_is_assigned.
  destruct (negb (assert_virt_core (N.of_nat i) d)); [done|].
  destruct (assigned_pu_nums_ d !! N.to_nat (N.of_nat i)) as [e|];
    [|by intros [= <-]].
  destruct e as [[pu_id [|]] [|]];
    cbn [entry_exclusive entry_assigned fst snd]; try done; apply IH.
Qed.

Lemma scan_pool_debug_Passed want_assigned pool_name s r :
  scan_pool_debug want_assigned pool_name s = Passed r →
  scan_pool want_assigned pool_name s = r.
Proof.
  unfold scan_pool_debug, scan_pool.
  destruct (negb (dynamic_pools_allowed s)); [by intros [= <-]|].
  destruct (get_pool_data pool_name s) as [[i d]|e|]; try (by intros [= <-]).
  pose proof (scan_pool_loop_debug_Passed want_assigned d
                (N.to_nat (num_threads_ d)) 0 false []) as Hloop.
  destruct (scan_pool_loop_debug _ _ _ _ _ _) as [r'|]; [|done].
  rewrite (Hloop r' eq_refl).
  destruct r' as [[has pu_nums]|e|]; try (by intros [= <-]).
  destruct has; by intros [= <-].
Qed.

(** X16.  [expand_pool] against [shrink_pool], on a pool that is there and
    consistent and has a non-exclusive entry, with dynamic pools allowed.
    Built without [HPX_DEBUG] ([HPX_ASSERT] expands to nothing),
    [expand_pool] is the mirror image of [shrink_pool]: it calls
    [add_pu(i)] once for every virtual core [i] whose entry is non-exclusive
    and not assigned, in increasing order, and returns the number of the
    calls; no virtual core is passed to both callbacks, and together the two
    functions call for as many virtual cores as the pool has non-exclusive
    entries.  Built with [HPX_DEBUG], [pu_is_exclusive] asserts that the
    entry it reads is assigned: with an entry that is not assigned in the
    pool both functions end in a failed assertion, so that [expand_pool]
    fails whenever the build without [HPX_DEBUG] would call [add_pu]; with
    every entry assigned [expand_pool] calls nothing and returns 0, and
    [shrink_pool] does what it does without [HPX_DEBUG].  Whenever the scan
    with the assertions ends without a failed assertion, in any state, it
    ends as the scan without them. *)
Theorem expand_pool_mirrors_shrink_pool (pool_name : string) (s : partitioner)
    (i : nat) (d : init_pool_data) :
  dynamic_pools_allowed s = true →
  get_pool_data pool_name s = Return (i, d) →
  pool_consistent d →
  has_non_exclusive_entry d →
  let removed := (shrink_pool pool_name s).1 in
  let added := (expand_pool pool_name s).1 in
  (expand_pool pool_name s).2 = Return (N.of_nat (length added))
  ∧ (∀ v, v ∈ added ↔
          ∃ e, assigned_pu_nums_ d !! N.to_nat v = Some e
               ∧ entry_exclusive e = false ∧ entry_assigned e = false)
  ∧ StronglySorted N.lt added
  ∧ (∀ v, v ∈ removed → v ∉ added)
  ∧ (length removed + length added)%nat
    = length (filter (λ e, entry_exclusive e = false) (assigned_pu_nums_ d))
  ∧ (forallb entry_assigned (assigned_pu_nums_ d) = false →
       expand_pool_debug pool_name s = AssertionFailed
       ∧ shrink_pool_debug pool_name s = AssertionFailed)
  ∧ (added ≠ [] → expand_pool_debug pool_name s = AssertionFailed)
  ∧ (forallb entry_assigned (assigned_pu_nums_ d) = true →
       added = []
       ∧ expand_pool_debug pool_name s = Passed ([], Return 0)
       ∧ shrink_pool_debug pool_name s = Passed (shrink_pool pool_name s))
  ∧ (∀ r, expand_pool_debug pool_name s = Passed r → r = ([], Return 0))
  ∧ (∀ want_assigned name' s' r,
       scan_pool_debug want_assigned name' s' = Passed r →
       scan_pool want_assigned name' s' = r).
Proof.
  intros Hdyn Hget Hcons Hsome removed added.
  pose proof (λ want, scan_pool_debug_spec want pool_name s i d Hdyn Hget Hcons)
    as Hdebug.
  assert (forallb entry_assigned (assigned_pu_nums_ d) = true →
          expand_pool pool_name s = ([], Return 0)) as Hnone.
  { intros Hall. unfold expand_pool.
    rewrite (scan_pool_calls _ _ _ i d Hdyn Hget Hcons Hsome).
    by rewrite collected_false_assigned. }
  unfold removed, added, shrink_pool, expand_pool, shrink_pool_debug,
    expand_pool_debug in *.
  rewrite !Hdebug.
  rewrite !(scan_pool_calls _ _ _ i d Hdyn Hget Hcons Hsome) in *.
  cbn [fst snd] in *.
  split_and!.
  - done.
  - apply collected_lookup.
  - apply collected_sorted.
  - intros v (e & He & _ & Htrue)%collected_lookup
             (e' & He' & _ & Hfalse)%collected_lookup.
    congruence.
  - apply collected_lengths.
  - by intros ->.
  - intros Hadded.
    destruct (forallb entry_assigned (assigned_pu_nums_ d)) eqn:Hall; [|done].
    destruct Hadded. by apply collected_false_assigned.
  - intros Hall. rewrite Hall. split_and!; [|by rewrite (Hnone Hall)|done].
    by rewrite collected_false_assigned.
  - intros r.
    destruct (forallb entry_assigned (assigned_pu_nums_ d)) eqn:Hall; [|done].
    intros [= <-]. by apply Hnone.
  - intros want_assigned name' s' r. apply scan_pool_debug_Passed.
Qed.

Lemma collected_set_assigned want_assigned b nums v e w :
  nums !! N.to_nat v = Some e → entry_exclusive e = false →
  w ∈ collected want_assigned 0 (<[N.to_nat v := set_assigned b e]> nums)
  ↔ (w = v ∧ want_assigned = b)
    ∨ (w ≠ v ∧ w ∈ collected want_assigned 0 nums).
Proof.
  intros He Hexcl. rewrite !collected_lookup.
  destruct (decide (w = v)) as [->|Hne].
  - rewrite list_lookup_insert_eq by (by eapply lookup_lt_Some). split.
    + intros (e' & [= <-] & _ & <-). by left.
    + intros [[_ ->]|[? _]]; [|done]. by eexists.
  - rewrite list_lookup_insert_ne by lia. split.
    + intros H. by right.
    + by intros [[? _]|[_ H]].
Qed.

(** The pool after [assign_pu] ([b = true]) or [unassign_pu]
    ([b = false]) of a virtual core. *)
Lemma put_set_assigned b pool_name v s i d e :
  dynamic_pools_allowed s = true →
  get_pool_data pool_name s = Return (i, d) →
  pool_consistent d →
  assigned_pu_nums_ d !! N.to_nat v = Some e →
  let d' := set_assigned_pu_nums_
              (<[N.to_nat v := set_assigned b e]> (assigned_pu_nums_ d)) d in
  let s' := put_pool_data i d' s in
  dynamic_pools_allowed s' = true
  ∧ get_pool_data pool_name s' = Return (i, d')
  ∧ pool_consistent d'
  ∧ assigned_pu_nums_ d' !! N.to_nat v = Some (set_assigned b e).
Proof.
  intros Hdyn Hget [Hlen Hnum] He d' s'.
  pose proof (get_pool_data_Return _ _ _ _ Hget) as [_ Hname].
  split_and!.
  - done.
  - by apply (get_pool_data_put _ _ _ d).
  - split; simpl; by rewrite length_insert.
  - simpl. apply list_lookup_insert_eq. by eapply lookup_lt_Some.
Qed.

Lemma scan_pool_set_assigned want_assigned b pool_name v s i d e :
  dynamic_pools_allowed s = true →
  get_pool_data pool_name s = Return (i, d) →
  pool_consistent d →
  assigned_pu_nums_ d !! N.to_nat v = Some e →
  entry_exclusive e = false →
  let s' :=
    put_pool_data i
      (set_assigned_pu_nums_
         (<[N.to_nat v := set_assigned b e]> (assigned_pu_nums_ d)) d) s in
  ∀ w, w ∈ (scan_pool want_assigned pool_name s').1
       ↔ (w = v ∧ want_assigned = b)
         ∨ (w ≠ v ∧ w ∈ (scan_pool want_assigned pool_name s).1).
Proof.
  intros Hdyn Hget Hcons He Hexcl s' w.
  set (d' := set_assigned_pu_nums_
               (<[N.to_nat v := set_assigned b e]> (assigned_pu_nums_ d)) d).
  destruct (put_set_assigned b pool_name v s i d e Hdyn Hget Hcons He)
    as (Hdyn' & Hget' & Hcons' & He').
  rewrite (scan_pool_calls _ _ s' i d'); try done.
  - rewrite (scan_pool_calls _ _ s i d); try done.
    + by apply collected_set_assigned.
    + exists e. split; [by eapply list_elem_of_lookup_2|done].
  - exists (set_assigned b e). split; [|done].
    by eapply list_elem_of_lookup_2.
Qed.

(** [assign_pu] and [unassign_pu] with their assertions, on an entry of the
    pool. *)
Lemma assign_pu_debug_spec pool_name v s i d e :
  get_pool_data pool_name s = Return (i, d) →
  assigned_pu_nums_ d !! N.to_nat v = Some e →
  assign_pu_debug pool_name v s
  = (if entry_assigned e then AssertionFailed
     else Passed (assign_pu pool_name v s))
  ∧ unassign_pu_debug true pool_name v s
    = (if entry_assigned e then Passed (unassign_pu true pool_name v s)
       else AssertionFailed).
Proof.
  intros Hget He.
  assert (assert_virt_core v d = true) as Hle.
  { unfold assert_virt_core. apply N.leb_le.
    apply lookup_lt_Some in He. lia. }
  unfold assign_pu_debug, unassign_pu_debug, assign_pu, unassign_pu,
    init_pool_data_assign_pu_debug, init_pool_data_unassign_pu_debug.
  rewrite Hget, Hle, He. cbn [negb].
  unfold init_pool_data_assign_pu, init_pool_data_unassign_pu. rewrite He.
  by destruct (entry_assigned e).
Qed.

(** X17.  [assign_pu] and [unassign_pu] move a virtual core between the
    two callbacks.  For a virtual core of the pool whose entry is
    non-exclusive:
    - [assign_pu] asserts that the entry is not assigned and [unassign_pu]
      that it is: built with [HPX_DEBUG], each of them ends in a failed
      assertion on the entry the other one is for, and otherwise does what
      it does without [HPX_DEBUG];
    - on an entry that is not assigned, [assign_pu] returns; before it
      [expand_pool] passes the virtual core to [add_pu] and [shrink_pool]
      does not pass it to [remove_pu], after it [shrink_pool] passes it and
      [expand_pool] does not, and for every other virtual core the two
      functions call as before (all of this built without [HPX_DEBUG]);
      built with [HPX_DEBUG] both scans end in a failed assertion before
      [assign_pu], and after it they do what they do without [HPX_DEBUG]
      exactly when no other entry is left that is not assigned;
    - on an entry that is assigned, [unassign_pu] (with the lock free)
      returns; before it [shrink_pool] passes the virtual core and
      [expand_pool] does not, after it [expand_pool] passes it and
      [shrink_pool] does not, and for every other virtual core the two
      functions call as before (built without [HPX_DEBUG]); built with
      [HPX_DEBUG] both scans end in a failed assertion after
      [unassign_pu];
    - with the lock taken, [unassign_pu] returns and changes nothing. *)
Theorem assign_pu_moves_virtual_core (pool_name : string) (virt_core : N)
    (s : partitioner) (i : nat) (d : init_pool_data) (e : pu_entry) :
  dynamic_pools_allowed s = true →
  get_pool_data pool_name s = Return (i, d) →
  pool_consistent d →
  assigned_pu_nums_ d !! N.to_nat virt_core = Some e →
  entry_exclusive e = false →
  let s1 := (assign_pu pool_name virt_core s).1 in
  let s0 := (unassign_pu true pool_name virt_core s).1 in
  let nums1 :=
    <[N.to_nat virt_core := set_assigned true e]> (assigned_pu_nums_ d) in
  (assign_pu_debug pool_name virt_core s
   = (if entry_assigned e then AssertionFailed
      else Passed (assign_pu pool_name virt_core s))
   ∧ unassign_pu_debug true pool_name virt_core s
     = (if entry_assigned e
        then Passed (unassign_pu true pool_name virt_core s)
        else AssertionFailed))
  ∧ (entry_assigned e = false →
     (assign_pu pool_name virt_core s).2 = Return ()
     ∧ (virt_core ∈ (expand_pool pool_name s).1
        ∧ virt_core ∉ (shrink_pool pool_name s).1)
     ∧ (virt_core ∈ (shrink_pool pool_name s1).1
        ∧ virt_core ∉ (expand_pool pool_name s1).1)
     ∧ (∀ w, w ≠ virt_core →
          (w ∈ (shrink_pool pool_name s1).1 ↔ w ∈ (shrink_pool pool_name s).1)
          ∧ (w ∈ (expand_pool pool_name s1).1
             ↔ w ∈ (expand_pool pool_name s).1))
     ∧ (shrink_pool_debug pool_name s = AssertionFailed
        ∧ expand_pool_debug pool_name s = AssertionFailed)
     ∧ (forallb entry_assigned nums1 = true →
          shrink_pool_debug pool_name s1 = Passed (shrink_pool pool_name s1)
          ∧ expand_pool_debug pool_name s1 = Passed ([], Return 0))
     ∧ (forallb entry_assigned nums1 = false →
          shrink_pool_debug pool_name s1 = AssertionFailed
          ∧ expand_pool_debug pool_name s1 = AssertionFailed))
  ∧ (entry_assigned e = true →
     (unassign_pu true pool_name virt_core s).2 = Return ()
     ∧ (virt_core ∈ (shrink_pool pool_name s).1
        ∧ virt_core ∉ (expand_pool pool_name s).1)
     ∧ (virt_core ∈ (expand_pool pool_name s0).1
        ∧ virt_core ∉ (shrink_pool pool_name s0).1)
     ∧ (∀ w, w ≠ virt_core →
          (w ∈ (shrink_pool pool_name s0).1 ↔ w ∈ (shrink_pool pool_name s).1)
          ∧ (w ∈ (expand_pool pool_name s0).1
             ↔ w ∈ (expand_pool pool_name s).1))
     ∧ (shrink_pool_debug pool_name s0 = AssertionFailed
        ∧ expand_pool_debug pool_name s0 = AssertionFailed))
  ∧ unassign_pu false pool_name virt_core s = (s, Return ())
  ∧ unassign_pu_debug false pool_name virt_core s = Passed (s, Return ()).
Proof.
  intros Hdyn Hget Hcons He Hexcl s1 s0 nums1.
  assert (assign_pu pool_name virt_core s
          = (put_pool_data i
               (set_assigned_pu_nums_
                  (<[N.to_nat virt_core := set_assigned true e]>
                     (assigned_pu_nums_ d)) d) s, Return ())) as Hassign.
  { unfold assign_pu. rewrite Hget.
    by rewrite (init_pool_data_assign_pu_Return _ _ _ He). }
  assert (unassign_pu true pool_name virt_core s
          = (put_pool_data i
               (set_assigned_pu_nums_
                  (<[N.to_nat virt_core := set_assigned false e]>
                     (assigned_pu_nums_ d)) d) s, Return ())) as Hunassign.
  { unfold unassign_pu, init_pool_data_unassign_pu. by rewrite Hget, He. }
  pose proof (λ want b, scan_pool_set_assigned want b pool_name virt_core s i d
                          e Hdyn Hget Hcons He Hexcl) as Hscan.
  pose proof (λ b, put_set_assigned b pool_name virt_core s i d e
                     Hdyn Hget Hcons He) as Hput.
  assert (has_non_exclusive_entry d) as Hsome.
  { exists e. split; [by eapply list_elem_of_lookup_2|done]. }
  assert (∀ want, virt_core ∈ (scan_pool want pool_name s).1
                  ↔ entry_assigned e = want) as Hbefore.
  { intros want. rewrite (scan_pool_calls _ _ s i d) by done. cbn [fst].
    rewrite collected_lookup. split.
    - intros (e' & He' & _ & <-). congruence.
    - intros <-. by exists e. }
  destruct (assign_pu_debug_spec _ _ _ i d e Hget He)
    as [Hassign_debug Hunassign_debug].
  cbn zeta in Hscan, Hput.
  unfold s1, s0, nums1.
  rewrite Hassign_debug, Hunassign_debug, Hassign, Hunassign. cbn [fst snd].
  unfold shrink_pool, expand_pool, shrink_pool_debug, expand_pool_debug.
  split_and!.
  - done.
  - done.
  - intros Hassigned.
    destruct (Hput true) as (Hdyn1 & Hget1 & Hcons1 & He1).
    rewrite !(scan_pool_debug_spec _ _ s i d Hdyn Hget Hcons).
    rewrite !(scan_pool_debug_spec _ _ _ i _ Hdyn1 Hget1 Hcons1).
    rewrite (forallb_lookup_false _ _ _ _ He Hassigned). simpl.
    split_and!; try done.
    + by apply Hbefore.
    + rewrite Hbefore. congruence.
    + apply Hscan. by left.
    + rewrite Hscan. by intros [[_ ?]|[? _]].
    + intros w Hw. rewrite !Hscan. split; split;
        try (by intros [[? _]|[_ ?]]); by right.
    + intros Hall. rewrite Hall. split; [done|]. f_equal.
      rewrite (scan_pool_calls _ _ _ i _ Hdyn1 Hget1 Hcons1).
      * simpl. by rewrite collected_false_assigned.
      * exists (set_assigned true e). split; [|done].
        by eapply list_elem_of_lookup_2.
    + by intros ->.
  - intros Hassigned.
    destruct (Hput false) as (Hdyn0 & Hget0 & Hcons0 & He0).
    rewrite !(scan_pool_debug_spec _ _ _ i _ Hdyn0 Hget0 Hcons0).
    rewrite (forallb_lookup_false _ _ _ _ He0 eq_refl).
    split_and!; try done.
    + by apply Hbefore.
    + rewrite Hbefore. congruence.
    + apply Hscan. by left.
    + rewrite Hscan. by intros [[_ ?]|[? _]].
    + intros w Hw. rewrite !Hscan. split; split;
        try (by intros [[? _]|[_ ?]]); by right.
  - done.
  - done.
Qed.

(** *** The topology mirror and the state after [init] *)

Lemma fill_pus_Return s count pid pus pid' :
  fill_pus s count pid = (pus, pid', Return ()) → Forall (mirrored_pu s) pus.
Proof.
  revert pid pus pid'. induction count as [|count IH]; intros pid pus pid'.
  { simpl. intros [= <- _]. constructor. }
  cbn [fill_pus]. destruct (pu_exposed pid s) eqn:Hexposed; [|apply IH].
  cbn [thread_occupancy_].
  destruct (affinity_get_thread_occupancy _ pid =? 0) eqn:Hocc; [done|].
  specialize (IH (wrap (pid + 1))).
  destruct (fill_pus s count (wrap (pid + 1))) as [[rest pid''] r].
  intros [= <- _ ->]. constructor; [|by eapply IH].
  apply N.eqb_neq in Hocc. by split_and!.
Qed.

Lemma fill_cores_Return s count j pid cores pid' :
  fill_cores s count j pid = (cores, pid', Return ()) →
  Forall (mirrored_core s) cores.
Proof.
  revert j pid cores pid'. induction count as [|count IH];
    intros j pid cores pid'.
  { simpl. intros [= <- _]. constructor. }
  cbn [fill_cores].
  pose proof (fill_pus_Return s
                (N.to_nat (get_number_of_core_pus (topo_ s) j)) pid) as Hpus.
  destruct (fill_pus s _ pid) as [[pus pid1] [[]| |]]; [|done..].
  specialize (Hpus pus pid1 eq_refl).
  specialize (IH (wrap (j + 1)) pid1).
  destruct (fill_cores s count (wrap (j + 1)) pid1) as [[rest pid2] r].
  intros [= <- _ ->]. specialize (IH rest pid2 eq_refl).
  destruct pus as [|p pus]; [done|]. by constructor.
Qed.

Lemma fill_domains_Return s count i pid ds pid' :
  fill_domains s count i pid = (ds, pid', Return ()) →
  Forall (mirrored_domain s) ds.
Proof.
  revert i pid ds pid'. induction count as [|count IH]; intros i pid ds pid'.
  { simpl. intros [= <- _]. constructor. }
  cbn [fill_domains].
  pose proof (fill_cores_Return s
                (N.to_nat (get_number_of_numa_node_cores (topo_ s) i)) 0 pid)
    as Hcores.
  destruct (fill_cores s _ 0 pid) as [[cores pid1] [[]| |]]; [|done..].
  specialize (Hcores cores pid1 eq_refl).
  specialize (IH (wrap (i + 1)) pid1).
  destruct (fill_domains s count (wrap (i + 1)) pid1) as [[rest pid2] r].
  intros [= <- _ ->]. specialize (IH rest pid2 eq_refl).
  destruct cores as [|c cores]; [done|]. by constructor.
Qed.

(** The loops of [fill_topology_vectors] return or throw for a PU without
    occupancy. *)
Lemma fill_pus_outcome s count pid :
  (fill_pus s count pid).2 = Return ()
  ∨ ∃ pid', (fill_pus s count pid).2 = Throw (pu_without_thread_occupancy pid').
Proof.
  revert pid. induction count as [|count IH]; intros pid; [by left|].
  cbn [fill_pus]. destruct (pu_exposed pid s); [|apply IH].
  cbn [thread_occupancy_].
  destruct (affinity_get_thread_occupancy _ pid =? 0); [right; by eexists|].
  specialize (IH (wrap (pid + 1))).
  by destruct (fill_pus s count (wrap (pid + 1))) as [[rest pid''] r].
Qed.

Lemma fill_cores_outcome s count j pid :
  (fill_cores s count j pid).2 = Return ()
  ∨ ∃ pid', (fill_cores s count j pid).2
            = Throw (pu_without_thread_occupancy pid').
Proof.
  revert j pid. induction count as [|count IH]; intros j pid; [by left|].
  cbn [fill_cores].
  pose proof (fill_pus_outcome s
                (N.to_nat (get_number_of_core_pus (topo_ s) j)) pid) as Hpus.
  destruct (fill_pus s _ pid) as [[pus pid1] r]. simpl in Hpus.
  destruct Hpus as [->|[pid' ->]]; [|right; by eexists].
  specialize (IH (wrap (j + 1)) pid1).
  by destruct (fill_cores s count (wrap (j + 1)) pid1) as [[rest pid2] r].
Qed.

Lemma fill_domains_outcome s count i pid :
  (fill_domains s count i pid).2 = Return ()
  ∨ ∃ pid', (fill_domains s count i pid).2
            = Throw (pu_without_thread_occupancy pid').
Proof.
  revert i pid. induction count as [|count IH]; intros i pid; [by left|].
  cbn [fill_domains].
  pose proof (fill_cores_outcome s
                (N.to_nat (get_number_of_numa_node_cores (topo_ s) i)) 0 pid)
    as Hcores.
  destruct (fill_cores s _ 0 pid) as [[cores pid1] r]. simpl in Hcores.
  destruct Hcores as [->|[pid' ->]]; [|right; by eexists].
  specialize (IH (wrap (i + 1)) pid1).
  by destruct (fill_domains s count (wrap (i + 1)) pid1) as [[rest pid2] r].
Qed.

Lemma free_pus_mirrored s ds :
  Forall (mirrored_domain s) ds →
  filter (λ p, thread_occupancy_count_ p = 0) (mirror_pus ds) = mirror_pus ds.
Proof.
  intros Hds.
  assert (Forall (λ p, thread_occupancy_count_ p = 0) (mirror_pus ds)) as Hall.
  { apply Forall_forall. unfold mirror_pus.
    intros p (d & (c & Hp & Hc)%list_elem_of_bind & Hd)%list_elem_of_bind.
    rewrite Forall_forall in Hds. destruct (Hds d Hd) as [_ Hcores].
    rewrite Forall_forall in Hcores. destruct (Hcores c Hc) as [_ Hpus].
    rewrite Forall_forall in Hpus. by destruct (Hpus p Hp) as (_ & _ & _ & ?). }
  induction Hall as [|p ps Hp _ IH]; [done|].
  by rewrite filter_cons_True, IH.
Qed.

(** X18.  The partitioner after its construction and [init].  [init]
    returns, or throws with [hpx::error::invalid_status] for an exposed PU
    whose occupancy is 0.  The mode and the configuration are those given,
    there is one pool, "default", without resources and without a policy,
    no thread is counted and the partitioner is not initialized.  When
    [init] returns, the mirror holds the PUs that the affinity data expose,
    each with its occupancy (at least 1) and free; no core of the mirror is
    without a PU and no domain without a core; the first core is 0, the
    number of PUs needed is the one of the affinity data, and the affinity
    map holds no worker yet. *)
Theorem init_state (topo : topology) (rpmode : partitioner_mode)
    (rtcfg : section) (affinity : affinity_data) :
  let r := init rpmode rtcfg affinity (partitioner_ctor topo) in
  let s := r.1 in
  let at_call := set_affinity_data_ affinity (partitioner_ctor topo) in
  (r.2 = Return ()
   ∨ ∃ pid, r.2 = Throw (pu_without_thread_occupancy pid)
            ∧ class_of (pu_without_thread_occupancy pid) = hpx_invalid_status)
  ∧ mode_ s = rpmode ∧ rtcfg_ s = rtcfg
  ∧ is_initialized_ s = false ∧ num_threads_overall s = 0
  ∧ initial_thread_pools_ s
    = [mk_init_pool_data "default" unspecified [] [] 0 scheduler_mode_default_
         None None]
  ∧ (r.2 = Return () →
     first_core_ s = 0
     ∧ pus_needed_ s = get_num_pus_needed affinity
     ∧ Forall (mirrored_domain at_call) (numa_domains_ s)
     ∧ free_pus s = mirror_pus (numa_domains_ s)
     ∧ affinity_masks_ (affinity_data_ s) = []
     ∧ affinity_pu_nums_ (affinity_data_ s) = []).
Proof.
  intros r s at_call. unfold s, r, init.
  set (s0 := mk_partitioner _ _ rpmode _ _ rtcfg affinity _ _ _ _).
  unfold fill_topology_vectors.
  set (count := N.to_nat _).
  pose proof (fill_domains_outcome s0 count 0 0) as Houtcome.
  pose proof (fill_domains_Return s0 count 0 0) as Hmirror.
  destruct (fill_domains s0 count 0 0) as [[ds pid] r0]. simpl in Houtcome.
  destruct Houtcome as [->|[pid' ->]].
  - specialize (Hmirror ds pid eq_refl).
    unfold assign_cores, threads_needed. simpl.
    split_and!; try done; [by left|]. intros _. split_and!; try done.
    unfold free_pus. simpl. by apply (free_pus_mirrored s0).
  - simpl. split_and!; try done. right. by eexists.
Qed.

(** *** What the first-core shift leaves alone *)

Lemma assign_first_core_loop_flags first_core count i masks nums masks' nums' :
  assign_first_core_loop first_core count i masks nums = Some (masks', nums') →
  length masks' = length masks
  ∧ (λ e, (entry_exclusive e, entry_assigned e)) <$> nums'
    = (λ e, (entry_exclusive e, entry_assigned e)) <$> nums.
Proof.
  revert i masks nums. induction count as [|count IH]; intros i masks nums.
  { simpl. by intros [= <- <-]. }
  cbn [assign_first_core_loop].
  destruct (nums !! i) as [e|] eqn:He; [|done].
  destruct (masks !! i) as [m|] eqn:Hm; [|done].
  intros [Hlen Hflags]%IH. rewrite length_insert in Hlen.
  split; [done|]. rewrite Hflags, list_fmap_insert. simpl.
  apply list_insert_id. by rewrite list_lookup_fmap, He.
Qed.

Lemma same_up_to_pus_refl d : same_up_to_pus d d.
Proof. by split_and!. Qed.

Lemma assign_first_core_same first_core d :
  same_up_to_pus d (assign_first_core first_core d).1.
Proof.
  unfold assign_first_core.
  destruct (assign_first_core_loop _ _ _ _ _) as [[masks nums]|] eqn:Hloop;
    [|apply same_up_to_pus_refl].
  apply assign_first_core_loop_flags in Hloop as [Hlen Hflags].
  by split_and!.
Qed.

(** A loop relates every element to what it leaves in its place, when the
    body does and the relation holds of an element and itself. *)
Lemma for_each_Forall2 {A St} (R : A → A → Prop)
    (body : A → St → (A * St) * outcome unit) l st :
  (∀ x, R x x) → (∀ x st, R x (body x st).1.1) →
  Forall2 R l (for_each body l st).1.1.
Proof.
  intros Hrefl Hbody. revert st.
  induction l as [|x l IH]; intros st; [constructor|].
  cbn [for_each]. specialize (Hbody x st).
  destruct (body x st) as [[x' st'] [[]| |]]; cbn [fst] in *.
  - specialize (IH st'). destruct (for_each body l st') as [[l' st''] r].
    by constructor.
  - constructor; [done|]. by apply Forall_Forall2_diag, Forall_true.
  - constructor; [done|]. by apply Forall_Forall2_diag, Forall_true.
Qed.

(** X19.  [assign_cores] changes the PU numbers of the entries, the bits
    of the masks, the cached first core, the cached number of PUs needed
    and the affinity map, and nothing else: every pool keeps its name, its
    policy, its thread count, its number of masks and the exclusive and
    assigned flags of its entries, in the same order; the mode, the
    configuration, the mirror, the thread counter and [is_initialized_] are
    as before. *)
Theorem assign_cores_keeps_bindings (first_core : N) (s : partitioner) :
  let s' := (assign_cores first_core s).1 in
  Forall2 same_up_to_pus (initial_thread_pools_ s) (initial_thread_pools_ s')
  ∧ mode_ s' = mode_ s ∧ rtcfg_ s' = rtcfg_ s
  ∧ numa_domains_ s' = numa_domains_ s
  ∧ num_threads_overall s' = num_threads_overall s
  ∧ is_initialized_ s' = is_initialized_ s.
Proof.
  assert (Forall2 same_up_to_pus (initial_thread_pools_ s)
            (initial_thread_pools_ s)) as Hrefl.
  { apply Forall_Forall2_diag, Forall_true, same_up_to_pus_refl. }
  assert (∀ offset, Forall2 same_up_to_pus (initial_thread_pools_ s)
            (assign_first_core_all offset (initial_thread_pools_ s)).1)
    as Hall.
  { intros offset. unfold assign_first_core_all.
    pose proof (for_each_Forall2 same_up_to_pus
      (λ d (_ : unit), let '(d', r) := assign_first_core offset d in (d', (), r))
      (initial_thread_pools_ s) () same_up_to_pus_refl) as H.
    destruct (for_each _ _ _) as [[pools' u] r]. simpl in *.
    apply H. intros d _. pose proof (assign_first_core_same offset d).
    by destruct (assign_first_core offset d). }
  unfold assign_cores.
  destruct (decide (first_core_ s ≠ first_core)).
  - set (offset := if decide (first_core_ s ≠ size_t_minus_one) then _ else _).
    destruct (decide (offset ≠ 0)).
    + specialize (Hall (wrap (offset
                               * get_number_of_core_pus (topo_ s) first_core))).
      destruct (assign_first_core_all _ _) as [pools [[]| |]]; simpl in *;
        try done.
      unfold threads_needed. by destruct (_ =? _).
    + unfold threads_needed. simpl. by destruct (_ =? _).
  - unfold threads_needed. by destruct (_ =? _).
Qed.

(** *** The getters by index *)

(** X20.  The getters that take an index and the getters that take a name
    agree in every state the partitioner goes through: for an index below
    [get_num_pools()] the getters return the fields of the pool at that
    position, and [get_num_threads] with the name of that pool returns the
    same thread count.  For an index from [get_num_pools()] on they throw:
    [get_pool_creator] a [std::invalid_argument], the others an exception
    with [hpx::error::bad_parameter]. *)
Theorem getters_by_index (s : partitioner) (index : N) :
  (∀ d, initial_thread_pools_ s !! N.to_nat index = Some d →
     index < get_num_pools s
     ∧ get_num_threads_of_index index s = Found (num_threads_ d)
     ∧ get_scheduler_mode index s = Found (pool_mode_ d)
     ∧ get_background_work index s = Found (background_work_ d)
     ∧ get_pool_creator index s = Found (create_function_ d)
     ∧ get_pool_name index s = Found (pool_name_ d)
     ∧ (reachable s →
        get_num_threads_of_name (pool_name_ d) s = Return (num_threads_ d)))
  ∧ (get_num_pools s ≤ index →
     let e := pool_index_too_large index (get_num_pools s) in
     get_num_threads_of_index index s = OutOfBounds e
     ∧ get_scheduler_mode index s = OutOfBounds e
     ∧ get_background_work index s = OutOfBounds e
     ∧ index_class_of e = hpx_bad_parameter
     ∧ get_pool_creator index s = OutOfBounds pool_creator_out_of_bounds
     ∧ index_class_of pool_creator_out_of_bounds = std_invalid_argument).
Proof.
  unfold get_num_threads_of_index, get_scheduler_mode, get_background_work,
    get_pool_creator, get_pool_name, get_pool_data_by_index, get_num_pools.
  split.
  - intros d Hd. pose proof (lookup_lt_Some _ _ _ Hd) as Hlt. rewrite Hd.
    rewrite (proj2 (N.leb_gt _ _)) by lia.
    split_and!; try done; [lia|].
    intros [Hnodup _]%reachable_names_NoDup. unfold get_num_threads_of_name.
    by rewrite (get_pool_data_lookup s _ d Hnodup Hd).
  - intros Hle.
    rewrite (proj2 (lookup_ge_None _ _)) by lia.
    by rewrite (proj2 (N.leb_le _ _)) by lia.
Qed.

(** *** Running [setup_schedulers] again *)

(** X21.  [setup_schedulers] is idempotent: after a call that returned no
    pool has the policy [unspecified], and a second call returns and
    changes nothing. *)
Theorem setup_schedulers_twice (s : partitioner) :
  (setup_schedulers s).2 = Return () →
  (∀ d, d ∈ initial_thread_pools_ (setup_schedulers s).1 →
     scheduling_policy_ d ≠ unspecified)
  ∧ setup_schedulers (setup_schedulers s).1
    = ((setup_schedulers s).1, Return ()).
Proof.
  unfold setup_schedulers.
  destruct (select_default_scheduler (get_entry (rtcfg_ s) "hpx.scheduler" ""))
    as [sched| |] eqn:Hselect; [|done..].
  intros _. cbn [fst snd rtcfg_ set_initial_thread_pools_].
  pose proof (select_default_scheduler_specified _ _ Hselect) as Hsched.
  assert (∀ d, scheduling_policy_ (set_default_scheduler sched d) ≠ unspecified)
    as Hspecified.
  { intros d. unfold set_default_scheduler.
    by destruct (decide (scheduling_policy_ d = unspecified)). }
  split.
  - intros d (d1 & -> & _)%list_elem_of_fmap. apply Hspecified.
  - rewrite Hselect. f_equal. unfold set_initial_thread_pools_. simpl. f_equal.
    rewrite <- list_fmap_compose. apply list_fmap_ext. intros i d _. simpl.
    unfold set_default_scheduler at 1. by rewrite decide_False.
Qed.

(** *** A PU of the mirror is bound once *)

Lemma list_alter_same {A} (f : A → A) (l : list A) i x :
  l !! i = Some x → f x = x → alter f i l = l.
Proof.
  revert i. induction l as [|y l IH]; intros i Hi Hx; [done|].
  destruct i as [|i]; simpl in *.
  - injection Hi as ->. by rewrite Hx.
  - f_equal. by apply IH.
Qed.

Lemma mirror_lookup_insert di ci pi p0 p ds :
  mirror_lookup di ci pi ds = Some p0 →
  mirror_lookup di ci pi (mirror_insert di ci pi p ds) = Some p.
Proof.
  unfold mirror_lookup, mirror_insert.
  destruct (ds !! di) as [d|] eqn:Hd; [|done]. simpl.
  destruct (cores_ d !! ci) as [c|] eqn:Hc; [|done]. simpl. intros Hp.
  rewrite list_lookup_alter_eq, Hd. simpl.
  rewrite list_lookup_alter_eq, Hc. simpl.
  apply list_lookup_insert_eq. by eapply lookup_lt_Some.
Qed.

Lemma mirror_insert_same di ci pi p ds :
  mirror_lookup di ci pi ds = Some p → mirror_insert di ci pi p ds = ds.
Proof.
  unfold mirror_lookup, mirror_insert.
  destruct (ds !! di) as [d|] eqn:Hd; [|done]. simpl.
  destruct (cores_ d !! ci) as [c|] eqn:Hc; [|done]. simpl. intros Hp.
  apply (list_alter_same _ _ _ d Hd).
  rewrite (list_alter_same _ _ _ c Hc); [by destruct d|].
  rewrite list_insert_id by done. by destruct c.
Qed.

(** [add_resource] leaves the mode and the mirror of the partitioner as
    they are. *)
Lemma add_resource_frame p pool_name exclusive num_threads s :
  let s' := (add_resource p pool_name exclusive num_threads s).1.2 in
  mode_ s' = mode_ s ∧ numa_domains_ s' = numa_domains_ s.
Proof.
  assert (let s' := (add_resource_to_pool (id_ p) pool_name exclusive
                       num_threads s).1 in
          mode_ s' = mode_ s ∧ numa_domains_ s' = numa_domains_ s) as Hpool.
  { unfold add_resource_to_pool.
    destruct (get_pool_data pool_name s) as [[i d]| |]; try done.
    by destruct (init_pool_data_add_resource _ _ _ _) as [[d' overall'] r]. }
  unfold add_resource. cbn zeta in *.
  destruct (add_resource_to_pool _ _ _ _ _) as [s' [[]| |]];
    destruct_matches; done.
Qed.


(** X22.  Without oversubscription a PU of the mirror is bound once: after
    a call of [add_resource] for the PU at a position of the mirror that
    returned, every further call for that PU (to whatever pool) throws the
    runtime error of the exhausted occupancy and changes nothing. *)
Theorem add_resource_mirror_once (di ci pi : nat) (pool_name : string)
    (exclusive : bool) (num_threads : N) (s : partitioner) :
  oversubscription_allowed s = false →
  (add_resource_mirror di ci pi pool_name exclusive num_threads s).2
  = Return () →
  let s1 := (add_resource_mirror di ci pi pool_name exclusive num_threads s).1 in
  ∃ p, mirror_lookup di ci pi (numa_domains_ s1) = Some p
       ∧ thread_occupancy_count_ p = 1
       ∧ ∀ pool_name' exclusive' num_threads',
           exclusive' = true ∨ dynamic_pools_allowed s = true →
           add_resource_mirror di ci pi pool_name' exclusive' num_threads' s1
           = (s1, Throw (pu_occupancy_exhausted (id_ p) (thread_occupancy_ p)))
           ∧ kind_of (pu_occupancy_exhausted (id_ p) (thread_occupancy_ p))
             = Runtime.
Proof.
  intros Hover. unfold add_resource_mirror at 1 2.
  destruct (mirror_lookup di ci pi (numa_domains_ s)) as [p|] eqn:Hp; [|done].
  pose proof (add_resource_Return_pu p pool_name exclusive num_threads s) as Hp'.
  destruct (add_resource_frame p pool_name exclusive num_threads s)
    as [Hmode Hmirror].
  assert ((add_resource p pool_name exclusive num_threads s).2 = Return () →
          thread_occupancy_count_ p = 0) as Hcount.
  { unfold add_resource. rewrite Hover.
    destruct (negb exclusive && negb (dynamic_pools_allowed s)); [done|].
    destruct (thread_occupancy_count_ p =? 0) eqn:Hcount; [|done].
    intros _. by apply N.eqb_eq in Hcount. }
  destruct (add_resource p pool_name exclusive num_threads s) as [[p' s'] r].
  cbn [fst snd] in *. intros ->. specialize (Hp' eq_refl). subst p'.
  specialize (Hcount eq_refl).
  set (p' := increment_occupancy_count p).
  set (s1 := set_numa_domains_ _ s').
  assert (mirror_lookup di ci pi (numa_domains_ s1) = Some p') as Hlookup.
  { unfold s1. simpl. rewrite Hmirror. by eapply mirror_lookup_insert. }
  exists p'. split_and!; [done|by unfold p'; simpl; rewrite Hcount|].
  intros pool_name' exclusive' num_threads' Hexcl. split; [|done].
  unfold add_resource_mirror. rewrite Hlookup.
  assert (add_resource p' pool_name' exclusive' num_threads' s1
          = (p', s1, Throw (pu_occupancy_exhausted (id_ p')
                              (thread_occupancy_ p')))) as ->.
  { unfold add_resource.
    assert (dynamic_pools_allowed s1 = dynamic_pools_allowed s) as ->.
    { unfold dynamic_pools_allowed, s1. simpl. by rewrite Hmode. }
    assert (oversubscription_allowed s1 = false) as ->.
    { unfold oversubscription_allowed, s1 in *. simpl. by rewrite Hmode. }
    replace (negb exclusive' && negb (dynamic_pools_allowed s)) with false
      by (destruct Hexcl as [-> | ->]; [done|by rewrite andb_false_r]).
    unfold p'. simpl. by rewrite Hcount. }
  rewrite mirror_insert_same by done. by destruct s1.
Qed.

(** *** The errors of [create_thread_pool] *)

Lemma name_taken_elem_of name s :
  name_taken name s = true → name ∈ pool_names s.
Proof.
  unfold name_taken, pool_names. intros Hin%bool_decide_eq_true.
  destruct (initial_thread_pools_ s) as [|d rest]; [done|].
  simpl in Hin. rewrite drop_0 in Hin. by apply list_elem_of_further.
Qed.

(** X23.  [create_thread_pool] (either overload) throws in two cases only,
    with a [std::invalid_argument] and without changing the partitioner:
    for the empty name, and for a name that is not the name of the default
    pool and that a pool has already.  The check of the name in the
    constructor of the pool data never fires. *)
Theorem create_thread_pool_errors (name : string) (s : partitioner)
    (e : exception) :
  (∀ sched mode func,
     (create_thread_pool name sched mode func s).2 = Throw e →
     (create_thread_pool name sched mode func s).1 = s
     ∧ class_of e = std_invalid_argument
     ∧ (e = empty_pool_name ∧ name = ""
        ∨ e = pool_already_exists name
          ∧ name ≠ get_default_pool_name s ∧ name ∈ pool_names s))
  ∧ (∀ create func,
       (create_thread_pool_user name create func s).2 = Throw e →
       (create_thread_pool_user name create func s).1 = s
       ∧ class_of e = std_invalid_argument
       ∧ (e = empty_pool_name ∧ name = ""
          ∨ e = pool_already_exists name
            ∧ name ≠ get_default_pool_name s ∧ name ∈ pool_names s)).
Proof.
  split.
  - intros sched mode func. unfold create_thread_pool.
    destruct (decide (name = "")) as [->|Hname].
    { simpl. intros [= <-]. split_and!; try done. by left. }
    destruct (decide (name = get_default_pool_name s)) as [Hdefault|Hdefault].
    { rewrite init_pool_data_ctor_Return by (by rewrite <- Hdefault).
      by destruct (initial_thread_pools_ s). }
    destruct (name_taken name s) eqn:Htaken.
    + simpl. intros [= <-]. split_and!; try done. right.
      split_and!; try done. by apply name_taken_elem_of.
    + by rewrite init_pool_data_ctor_Return.
  - intros create func. unfold create_thread_pool_user.
    destruct (decide (name = "")) as [->|Hname].
    { simpl. intros [= <-]. split_and!; try done. by left. }
    destruct (decide (name = get_default_pool_name s)) as [Hdefault|Hdefault].
    { rewrite init_pool_data_ctor_user_Return by (by rewrite <- Hdefault).
      by destruct (initial_thread_pools_ s). }
    destruct (name_taken name s) eqn:Htaken.
    + simpl. intros [= <-]. split_and!; try done. right.
      split_and!; try done. by apply name_taken_elem_of.
    + by rewrite init_pool_data_ctor_user_Return.
Qed.

End Partitioner.

(** ** The statements on concrete machines *)

(** *** C10 and C6 at failing inputs *)

(** C10 at a failing input: a pool with one entry and [virt_core = 1]. *)
Example assert_virt_core_off_by_one :
  let d := mk_init_pool_data "default" local [[true]] [(0, true, false)] 1 0
             None None in
  assert_virt_core 1 d = true
  ∧ assigned_pu_nums_ d !! N.to_nat 1 = None
  ∧ init_pool_data_assign_pu 1 d = (d, Undefined)
  ∧ init_pool_data_unassign_pu 1 d = (d, Undefined).
Proof. by vm_compute. Qed.

(** The scenario of the design document: four PUs, one per core, the
    default pool on PUs {0,1,2,3}; [assign_cores(2)] gives {2,3,0,1}. *)
Example assign_cores_2_of_4 :
  let s := configured 4 false 0 "4" in
  pu_ids s = [[0; 1; 2; 3]]
  ∧ pu_ids (assign_cores 4 2 s).1 = [[2; 3; 0; 1]]
  ∧ affinity_pu_nums_ (affinity_data_ (assign_cores 4 2 s).1) = [2; 3; 0; 1].
Proof. by vm_compute. Qed.

(** C6 at a failing input: six PUs, one per core, the default pool on PUs
    {1,2,3,4,5,0} with the cached first core 1 (the state [assign_cores(1)]
    leaves).  [assign_cores(0)] computes the offset [0 - 1] in
    [std::size_t], that is [2^64 - 1]; the entry on PU 0 goes to
    [(2^64 - 1) mod 6 = 3], not to [(0 - 1) mod 6 = 5], and the pool ends
    on PUs {0,1,2,3,4,3}: PU 3 twice, PU 5 not at all. *)
Theorem assign_cores_backwards_wraps :
  let s := configured_and_shifted 6 false 0 1 "6" in
  let s' := (assign_cores 6 0 s).1 in
  reachable 6 false 0 s
  ∧ first_core_ s = 1
  ∧ pu_ids s = [[1; 2; 3; 4; 5; 0]]
  ∧ first_core_offset 0 s = size_t_minus_one
  ∧ (assign_cores 6 0 s).2 = Return 6
  ∧ pu_ids s' = [[0; 1; 2; 3; 4; 3]]
  ∧ affinity_pu_nums_ (affinity_data_ s') = [0; 1; 2; 3; 4; 3]
  ∧ exact_shift 6 0 1 1 <$> [1; 2; 3; 4; 5; 0]%Z = [0; 1; 2; 3; 4; 5]%Z.
Proof.
  split_and!; try by vm_compute.
  apply reachable_configured_and_shifted.
Qed.

(** *** Counterexamples to the statements the code does not meet *)


(** C2 as stated fails: a core of four PUs with one worker bound to it,
    all four PUs free, [hpx.os_threads = 1].  [setup_pools] binds PU 0,
    binds PU 1 and then throws the runtime error of the thread budget; PUs
    2 and 3 are free after it and the default pool does not hold them. *)
Lemma setup_pools_leaves_free_pus :
  let s := started_one_worker 4 0 in
  let r := setup_pools 4 s in
  reachable 4 false 0 s
  ∧ id_ <$> free_pus s = [0; 1; 2; 3]
  ∧ r.2 = Throw (more_threads_than_os_threads 2 1)
  ∧ pu_ids r.1 = [[0; 1]]
  ∧ id_ <$> free_pus r.1 = [2; 3]
  ∧ ∃ p d0', p ∈ free_pus s ∧ default_pool r.1 = Some d0'
             ∧ ¬ bound_to (id_ p) d0'.
Proof.
  split_and!; try by vm_compute.
  - apply reachable_started_one_worker.
  - exists (mk_pu 2 1 0), (pool_at 0 (setup_pools 4 (started_one_worker 4 0)).1).
    split_and!.
    + apply list_elem_of_In. vm_compute. tauto.
    + by vm_compute.
    + intros Hin. apply list_elem_of_In in Hin. vm_compute in Hin.
      by destruct Hin as [|[|[]]].
Qed.

(** C3 as stated fails: six PUs, dynamic pools, the default pool with the
    one entry [(5, false, true)] at virtual core 0.  [shrink_pool] calls
    [remove_pu(0)], the virtual core, not [remove_pu(5)], the PU number. *)
Lemma shrink_pool_passes_virtual_core :
  let s := dynamic_pu_assigned 6 0 5 "6" in
  reachable 6 false 0 s
  ∧ dynamic_pools_allowed s = true
  ∧ get_pool_data "default" s = Return (0%nat, pool_at 0 s)
  ∧ assigned_pu_nums_ (pool_at 0 s) = [(5, false, true)]
  ∧ shrink_pool "default" s = ([0], Return 1)
  ∧ pu_ids_to_remove (pool_at 0 s) = [5]
  ∧ (shrink_pool "default" s).1 ≠ pu_ids_to_remove (pool_at 0 s).
Proof.
  split_and!; try by vm_compute.
  apply reachable_dynamic_pu_assigned.
Qed.

(** C7 as stated fails for [get_thread_occupancy]: two states of a machine
    of four PUs, both before [configure_pools], in which
    [get_thread_occupancy(2)] differs; the value comes from the affinity
    map and not from the argument alone. *)
Lemma get_thread_occupancy_before_initialization :
  let s1 := started 4 0 mode_default_ "4" in
  let s2 := first_pu_bound_and_shifted 4 0 2 "4" in
  reachable 4 false 0 s1 ∧ reachable 4 false 0 s2
  ∧ is_initialized_ s1 = false ∧ is_initialized_ s2 = false
  ∧ get_thread_occupancy 2 s1 = 0
  ∧ get_thread_occupancy 2 s2 = 1
  ∧ get_thread_occupancy 2 s1 ≠ get_thread_occupancy 2 s2.
Proof.
  split_and!; try by vm_compute.
  - apply reachable_started.
  - apply reachable_first_pu_bound_and_shifted.
Qed.

(** C5 as stated fails: a machine of four PUs, [hpx.os_threads = 2], PU 0
    and PU 1 bound to the default pool.  [add_resource] for PU 2, whose
    counter is 0, throws a [std::runtime_error], a [Runtime] error: the one
    of the thread budget.  A [Runtime] error is thrown although the
    occupancy of the PU is not used up. *)
Lemma add_resource_runtime_error_with_free_pu :
  let s := two_pus_bound 4 0 "2" in
  let p := mk_pu 2 1 0 in
  let r := add_resource 4 p "default" true 1 s in
  reachable 4 false 0 s
  ∧ mirror_lookup 0 2 0 (numa_domains_ s) = Some p
  ∧ oversubscription_allowed s = false
  ∧ get_pool_data "default" s = Return (0%nat, pool_at 0 s)
  ∧ thread_occupancy_count_ p = 0
  ∧ ¬ 0 < thread_occupancy_count_ p
  ∧ r.2 = Throw (more_threads_than_os_threads 3 2)
  ∧ class_of (more_threads_than_os_threads 3 2) = std_runtime_error
  ∧ kind_of (more_threads_than_os_threads 3 2) = Runtime
  ∧ (∃ e, r.2 = Throw e ∧ kind_of e = Runtime).
Proof.
  split_and!; try by vm_compute.
  - do 2 (eapply reachable_step; [|apply step_add_resource_mirror]).
    apply reachable_started.
  - eexists. split; by vm_compute.
Qed.

(** *** The theorems at concrete inputs *)


(** Four PUs and four threads: the loops of [setup_pools] return and no
    PU is free after them. *)
Lemma setup_pools_binds_free_pus_witness :
  let s := started 4 0 mode_default_ "4" in
  initial_thread_pools_ s = [pool_at 0 s]
  ∧ Forall (λ p, id_ p < 4) (free_pus s)
  ∧ num_threads_overall s + N.of_nat (length (free_pus s)) ≤ num_os_threads s
  ∧ (setup_pools_fill 4 s).2 = Return ()
  ∧ free_pus (setup_pools_fill 4 s).1 = [].
Proof.
  intros s.
  assert (initial_thread_pools_ s = [pool_at 0 s]) as H1
    by (vm_compute; reflexivity).
  assert (Forall (λ p, id_ p < 4) (free_pus s)) as H2
    by (vm_compute; repeat (constructor; [reflexivity|]); constructor).
  assert (num_threads_overall s + N.of_nat (length (free_pus s))
          ≤ num_os_threads s) as H3
    by (vm_compute; intros H; discriminate H).
  destruct (setup_pools_binds_free_pus 4 s (pool_at 0 s) [] H1 H2
              (or_intror H3)) as (Hr & _ & _ & _ & _ & _ & Hfree).
  split_and!; [exact H1|exact H2|exact H3|exact Hr|exact Hfree].
Defined.

(** Six PUs with dynamic pools and one assigned non-exclusive entry. *)
Lemma shrink_pool_calls_virtual_cores_witness :
  let s := dynamic_pu_assigned 6 0 5 "6" in
  dynamic_pools_allowed s = true
  ∧ get_pool_data "default" s = Return (0%nat, pool_at 0 s)
  ∧ pool_consistent (pool_at 0 s)
  ∧ has_non_exclusive_entry (pool_at 0 s)
  ∧ ∃ calls, shrink_pool "default" s = (calls, Return (N.of_nat (length calls)))
             ∧ NoDup calls.
Proof.
  intros s.
  assert (dynamic_pools_allowed s = true) as H1 by (vm_compute; reflexivity).
  assert (get_pool_data "default" s = Return (0%nat, pool_at 0 s)) as H2
    by (vm_compute; reflexivity).
  assert (pool_consistent (pool_at 0 s)) as H3
    by (vm_compute; split; reflexivity).
  assert (has_non_exclusive_entry (pool_at 0 s)) as H4.
  { exists (5, false, true). split; [|reflexivity].
    apply list_elem_of_In. vm_compute. left. reflexivity. }
  destruct (shrink_pool_calls_virtual_cores "default" s) as [_ Hshrink].
  destruct (Hshrink 0%nat (pool_at 0 s) H1 H2 H3) as [_ Hsome].
  destruct (Hsome H4) as (calls & Hcalls & _ & _ & Hnodup & _).
  split_and!; [exact H1|exact H2|exact H3|exact H4|].
  exists calls. split; assumption.
Defined.

(** The first PU of the core, counter 0, within the budget of one
    thread: the pool afterwards, as the lookup finds it; and the same PU
    once more, its counter now 1. *)
Lemma add_resource_occupancy_witness :
  let s := started_one_worker 4 0 in
  let p := mk_pu 0 1 0 in
  let r := add_resource 4 p "default" true 1 s in
  let q := mk_pu 0 1 1 in
  oversubscription_allowed s = false
  ∧ get_pool_data "default" s = Return (0%nat, pool_at 0 s)
  ∧ r.2 = Return ()
  ∧ r.1.1 = q
  ∧ (∃ d', get_pool_data "default" r.1.2 = Return (0%nat, d')
           ∧ assigned_pu_nums_ d' = [(0, true, false)]
           ∧ assigned_pus_ d' = [[true; false; false; false]]
           ∧ num_threads_ d' = 1)
  ∧ num_threads_overall r.1.2 = 1
  ∧ (add_resource 4 q "default" true 1 r.1.2).2
    = Throw (pu_occupancy_exhausted 0 1)
  ∧ (add_resource 4 q "default" true 1 r.1.2).1 = (q, r.1.2).
Proof.
  intros s p r q.
  assert (oversubscription_allowed s = false) as H1
    by (vm_compute; reflexivity).
  assert (get_pool_data "default" s = Return (0%nat, pool_at 0 s)) as H2
    by (vm_compute; reflexivity).
  destruct (add_resource_occupancy 4 p "default" s 0%nat (pool_at 0 s) H1 H2)
    as (_ & _ & _ & _ & Hzero).
  assert (id_ p < 4) as H3 by reflexivity.
  destruct (Hzero eq_refl H3)
    as (Hstate & Hget & Hnums & Hmasks & _ & _ & Hnum & _ & _ & Hoverall
        & Hreturn & _).
  assert (oversubscription_allowed r.1.2 = false) as H4
    by (vm_compute; reflexivity).
  destruct (add_resource_occupancy 4 q "default" r.1.2 0%nat _ H4 Hget)
    as (Hthrow & Hsame & _).
  assert (0 < thread_occupancy_count_ q) as H5 by reflexivity.
  split_and!; [exact H1|exact H2| | | |exact Hoverall| |].
  - apply Hreturn. vm_compute. intros H; discriminate H.
  - unfold r. rewrite Hstate. reflexivity.
  - eexists. split; [exact Hget|]. rewrite Hnums, Hmasks, Hnum.
    split_and!; vm_compute; reflexivity.
  - apply Hthrow. exact H5.
  - apply Hsame. exact H5.
Defined.

(** Four PUs before and after [configure_pools]. *)
Lemma queries_before_and_after_initialization_witness :
  let s := started 4 0 mode_default_ "4" in
  let s' := configured 4 false 0 "4" in
  is_initialized_ s = false
  ∧ get_pu_num 1 s = 1
  ∧ get_pu_mask 4 1 s = one_hot_mask 4 1
  ∧ is_initialized_ s' = true
  ∧ get_pu_num 1 s' = affinity_get_pu_num (affinity_data_ s') 1.
Proof.
  intros s s'.
  assert (is_initialized_ s = false) as H1 by (vm_compute; reflexivity).
  assert (is_initialized_ s' = true) as H2 by (vm_compute; reflexivity).
  destruct (queries_before_and_after_initialization 4 s 1 2)
    as (Hbefore & _ & _).
  destruct (queries_before_and_after_initialization 4 s' 1 2)
    as (_ & Hafter & _).
  destruct (Hbefore H1) as (Hnum & Hmask & _).
  destruct (Hafter H2) as (Hnum' & _).
  split_and!; [exact H1|exact Hnum|exact Hmask|exact H2|exact Hnum'].
Defined.

(** Six PUs after [configure_pools]: virtual core 2 of the default pool. *)
Lemma assign_pu_unassign_pu_round_trip_witness :
  let s := configured 6 false 0 "6" in
  get_pool_data "default" s = Return (0%nat, pool_at 0 s)
  ∧ pool_consistent (pool_at 0 s)
  ∧ 2 < num_threads_ (pool_at 0 s)
  ∧ entry_assigned (assigned_pu_nums_ (pool_at 0 s) !!! N.to_nat 2) = false
  ∧ (unassign_pu true "default" 2 (assign_pu "default" 2 s).1).1 = s.
Proof.
  intros s.
  assert (get_pool_data "default" s = Return (0%nat, pool_at 0 s)) as H1
    by (vm_compute; reflexivity).
  assert (pool_consistent (pool_at 0 s)) as H2
    by (vm_compute; split; reflexivity).
  assert (2 < num_threads_ (pool_at 0 s)) as H3 by (vm_compute; reflexivity).
  assert (entry_assigned (assigned_pu_nums_ (pool_at 0 s) !!! N.to_nat 2)
          = false) as H4 by (vm_compute; reflexivity).
  pose proof (assign_pu_unassign_pu_round_trip "default" 2 s 0%nat (pool_at 0 s)
                H1 H2 H3 H4) as Hround.
  destruct (assign_pu "default" 2 s) as [s1 r1]. cbn [fst].
  destruct (unassign_pu true "default" 2 s1) as [s2 r2]. cbn [fst].
  destruct Hround as (_ & _ & _ & Hback).
  split_and!; [exact H1|exact H2|exact H3|exact H4|exact Hback].
Defined.


(** *** The scenarios of the design document *)

(** S1: four PUs, [hpx.os_threads = 4], no user pools: one pool with four
    workers bound exclusively to PUs 0 to 3. *)
Example scenario_1 :
  let s := configured 4 false 0 "4" in
  pool_names s = ["default"]
  ∧ assigned_pu_nums_ (pool_at 0 s)
    = [(0, true, false); (1, true, false); (2, true, false); (3, true, false)]
  ∧ num_threads_ (pool_at 0 s) = 4.
Proof. by vm_compute. Qed.

(** S2: the default pool has three workers on PUs 1 to 3, "io" one on PU
    0; the workers are numbered with the default pool first. *)
Example scenario_2 :
  let s := with_io_pool 4 false 0 "4" in
  pool_names s = ["default"; "io"]
  ∧ pu_ids s = [[1; 2; 3]; [0]]
  ∧ (λ worker, get_pu_num worker s) <$> [0; 1; 2; 3] = [1; 2; 3; 0].
Proof. by vm_compute. Qed.

(** S3, as the code runs it: PU 3 is bound to "bg" and no longer free, so
    the default pool is filled with PUs 0 to 2, PU 0 exclusively and PUs 1
    and 2 non-exclusively; once the workers run, [shrink_pool] on the
    default pool calls [remove_pu(1)] and [remove_pu(2)] and returns 2. *)
Example scenario_3 :
  let s := with_bg_pool 4 false 0 "4" in
  let s' := with_bg_pool_running 4 false 0 "4" in
  assigned_pu_nums_ <$> initial_thread_pools_ s
  = [[(0, true, false); (1, false, false); (2, false, false)];
     [(3, false, false)]]
  ∧ shrink_pool "default" s = ([], Return 0)
  ∧ shrink_pool "default" s' = ([1; 2], Return 2).
Proof. by vm_compute. Qed.

(** S5: two PUs, [hpx.os_threads = 2], PU 0 and PU 1 bound to the default
    pool; binding PU 0 again throws the runtime error of the exhausted
    occupancy. *)
Example scenario_5 :
  let s := two_pus_bound 2 0 "2" in
  pu_ids s = [[0; 1]]
  ∧ (add_resource_mirror 2 0 0 0 "default" true 1 s).2
    = Throw (pu_occupancy_exhausted 0 1)
  ∧ kind_of (pu_occupancy_exhausted 0 1) = Runtime.
Proof. by vm_compute. Qed.

(** *** Further properties at concrete inputs *)

(** The default pool of four PUs after [configure_pools]. *)
Lemma reachable_pools_well_formed_witness :
  let s := configured 4 false 0 "4" in
  reachable 4 false 0 s
  ∧ initial_thread_pools_ s !! 0%nat = Some (pool_at 0 s)
  ∧ length (assigned_pus_ (pool_at 0 s)) = length (assigned_pu_nums_ (pool_at 0 s))
  ∧ num_threads_ (pool_at 0 s) = 4.
Proof.
  intros s.
  pose proof (reachable_configured 4 false 0 "4") as H1.
  assert (initial_thread_pools_ s !! 0%nat = Some (pool_at 0 s)) as H2
    by (vm_compute; reflexivity).
  destruct (reachable_pools_well_formed 4 false 0 s 0 (pool_at 0 s) H1 H2)
    as (Hlen & Hnum & _).
  split_and!; [exact H1|exact H2|exact Hlen|].
  rewrite Hnum. vm_compute. reflexivity.
Defined.

(** Moving the first core of the configured partitioner of four PUs. *)
Lemma reachable_calls_are_defined_witness :
  let s := configured 4 false 0 "4" in
  reachable 4 false 0 s
  ∧ (∃ n, (assign_cores 4 2 s).2 = Return n)
  ∧ (shrink_pool "default" s).2 ≠ Undefined.
Proof.
  intros s.
  pose proof (reachable_configured 4 false 0 "4") as H1.
  destruct (reachable_calls_are_defined 4 false 0 s H1)
    as (Hcores & Hscan & _).
  split_and!; [exact H1|exact (Hcores 2)|exact (proj1 (Hscan "default"))].
Defined.


(** The pools "default" and "io" of the second scenario. *)
Lemma reachable_pool_names_unique_witness :
  let s := with_io_pool 4 false 0 "4" in
  reachable 4 false 0 s ∧ NoDup (pool_names s).
Proof.
  intros s.
  assert (reachable 4 false 0 s) as H1.
  { do 3 (eapply reachable_step; [|constructor]). apply reachable_started. }
  destruct (reachable_pool_names_unique 4 false 0 s H1) as (Hnodup & _).
  split; [exact H1|exact Hnodup].
Defined.

(** The default pool renamed to "main", followed by the pools "io" and
    "default". *)
Lemma get_pool_name_get_pool_index_witness :
  let pool name := mk_init_pool_data name local [] [] 0 0 None None in
  let s := set_initial_thread_pools_ [pool "main"; pool "io"; pool "default"]
             (partitioner_ctor 0 (machine 4)) in
  NoDup (pool_names s)
  ∧ get_default_pool_name s = "main"%string
  ∧ get_pool_name 0 s = Found "main"%string
  ∧ get_pool_index "main" s = Return 0
  ∧ get_pool_index "default" s = Return 0
  ∧ get_pool_name 0 s ≠ Found "default"%string
  ∧ get_pool_name 1 s = Found "io"%string
  ∧ get_pool_index "io" s = Return 1
  ∧ get_pool_name 2 s = Found "default"%string
  ∧ get_pool_index "default" s ≠ Return 2.
Proof.
  intros pool s.
  assert (NoDup (pool_names s)) as H1
    by (apply (bool_decide_unpack _); vm_compute; exact I).
  assert (get_pool_name 1 s = Found "io"%string) as H2
    by (vm_compute; reflexivity).
  assert (get_pool_name 2 s = Found "default"%string) as H3
    by (vm_compute; reflexivity).
  assert ("io"%string ≠ "default"%string) as H4 by discriminate.
  assert (pool_name_ (pool "main") ≠ "default"%string) as H5 by discriminate.
  destruct (get_pool_name_get_pool_index s H1)
    as (Hother & Hdefault & Hfirst & _).
  destruct (Hfirst (pool "main") [pool "io"; pool "default"] eq_refl)
    as (Hname & Hname0 & Hindex0 & _ & Hrenamed).
  destruct (Hrenamed H5) as [Hnot0 Hlater].
  split_and!;
    [exact H1|exact Hname|exact Hname0|exact Hindex0|exact Hdefault|exact Hnot0
    |exact H2|exact (proj1 (Hother 1 "io"%string H4) H2)
    |exact H3|exact (proj2 (Hlater 2 H3))].
Defined.

Lemma get_num_threads_counts_entries_witness :
  let s := with_io_pool 4 false 0 "4" in
  reachable 4 false 0 s ∧ get_num_threads s = Found 4.
Proof.
  intros s.
  assert (reachable 4 false 0 s) as H1.
  { do 3 (eapply reachable_step; [|constructor]). apply reachable_started. }
  destruct (get_num_threads_counts_entries 4 false 0 s) as [_ Hcount].
  split; [exact H1|]. rewrite (Hcount H1). vm_compute. reflexivity.
Defined.


(** A PU whose index is not a PU of the machine of four PUs. *)
Lemma add_resource_error_leaves_state_witness :
  let s := started 4 0 mode_default_ "4" in
  let p := mk_pu 7 1 0 in
  (add_resource 4 p "default" true 1 s).2 = Throw pu_index_out_of_bounds
  ∧ (add_resource 4 p "default" true 1 s).1 = (p, s).
Proof.
  intros s p.
  assert ((add_resource 4 p "default" true 1 s).2 = Throw pu_index_out_of_bounds)
    as H1 by (vm_compute; reflexivity).
  assert (∀ requested provided,
            pu_index_out_of_bounds
            ≠ more_threads_than_os_threads requested provided) as H2
    by (intros requested provided H; discriminate H).
  destruct (add_resource_error_leaves_state 4 p "default" true 1 s _ H1 H2)
    as [Hstate _].
  split; [exact H1|exact Hstate].
Defined.

(** The PUs 0 and 1 of the machine of four PUs, bound in one call. *)
Lemma add_resource_pus_binds_in_order_witness :
  let s := started 4 0 mode_default_ "4" in
  let pv := [mk_pu 0 1 0; mk_pu 1 1 0] in
  get_pool_data "default" s = Return (0%nat, pool_at 0 s)
  ∧ Forall (λ p, id_ p < 4) pv
  ∧ Forall (λ p, thread_occupancy_count_ p = 0) pv
  ∧ num_threads_overall s + N.of_nat (length pv) ≤ num_os_threads s
  ∧ (add_resource_pus 4 pv "default" true s).2 = Return ()
  ∧ (add_resource_pus 4 pv "default" true s).1.1 = [mk_pu 0 1 1; mk_pu 1 1 1].
Proof.
  intros s pv.
  assert (get_pool_data "default" s = Return (0%nat, pool_at 0 s)) as H1
    by (vm_compute; reflexivity).
  assert (Forall (λ p, id_ p < 4) pv) as H2
    by (repeat (constructor; [vm_compute; reflexivity|]); constructor).
  assert (Forall (λ p, thread_occupancy_count_ p = 0) pv) as H3
    by (repeat (constructor; [vm_compute; reflexivity|]); constructor).
  assert (num_threads_overall s + N.of_nat (length pv) ≤ num_os_threads s) as H4
    by (vm_compute; intros H; discriminate H).
  destruct (add_resource_pus_binds_in_order 4 pv "default" true s)
    as [Hbind _].
  destruct (Hbind 0%nat (pool_at 0 s) H1 (or_introl eq_refl) H2
              (or_intror (conj H3 H4))) as (Hcall & _).
  split_and!; [exact H1|exact H2|exact H3|exact H4|..]; rewrite Hcall.
  - reflexivity.
  - vm_compute. reflexivity.
Defined.


(** A pool "io" for the partitioner of four PUs. *)
Lemma create_thread_pool_fresh_witness :
  let s := started 4 0 mode_default_ "4" in
  reachable 4 false 0 s
  ∧ "io"%string ≠ ""%string
  ∧ ("io"%string ∉ pool_names s)
  ∧ get_pool_index "io"
      (create_thread_pool "io" local_priority_fifo 0 None s).1 = Return 1.
Proof.
  intros s.
  pose proof (reachable_started 4 false 0 mode_default_ "4") as H1.
  assert ("io"%string ≠ ""%string) as H2 by (intros H; discriminate H).
  assert ("io"%string ∉ pool_names s) as H3
    by (apply (bool_decide_unpack _); vm_compute; exact I).
  destruct (create_thread_pool_fresh 4 false 0 "io" local_priority_fifo 0 None
              s H1 H2 H3) as (Hcreate & _ & Hindex & _).
  split_and!; [exact H1|exact H2|exact H3|].
  rewrite Hcreate. exact Hindex.
Defined.

Lemma set_scheduler_which_scheduler_witness :
  let s := started 4 0 mode_default_ "4" in
  "default"%string ∈ pool_names s
  ∧ which_scheduler "default" (set_scheduler static_ "default" s).1
    = Return static_.
Proof.
  intros s.
  assert ("default"%string ∈ pool_names s) as H1
    by (apply (bool_decide_unpack _); vm_compute; exact I).
  destruct (set_scheduler_which_scheduler static_ "default" s) as [Hset _].
  destruct (Hset H1) as (_ & Hwhich & _).
  split; [exact H1|exact Hwhich].
Defined.

(** The partitioner of four PUs, configured. *)
Lemma configure_pools_postconditions_witness :
  let s := started 4 0 mode_default_ "4" in
  (configure_pools 4 false s).2 = Return ()
  ∧ is_initialized_ (configure_pools 4 false s).1 = true
  ∧ free_pus (configure_pools 4 false s).1 = [].
Proof.
  intros s.
  assert ((configure_pools 4 false s).2 = Return ()) as H1
    by (vm_compute; reflexivity).
  destruct (configure_pools_postconditions 4 false s H1)
    as (Hinit & _ & Hfree & _).
  split_and!; [exact H1|exact Hinit|exact Hfree].
Defined.


(** The second scenario: the worker of the pool "io" comes after the three
    workers of the default pool. *)
Lemma configure_pools_numbers_workers_witness :
  let s := (add_resource_mirror 4 0 0 0 "io" true 1
              (create_thread_pool "io" local_priority_fifo 0 None
                 (started 4 0 mode_default_ "4")).1).1 in
  let s' := (configure_pools 4 false s).1 in
  reachable 4 false 0 s
  ∧ (configure_pools 4 false s).2 = Return ()
  ∧ initial_thread_pools_ s' !! 1%nat = Some (pool_at 1 s')
  ∧ assigned_pu_nums_ (pool_at 1 s') !! 0%nat = Some (0, true, false)
  ∧ get_pu_num 3 s' = 0.
Proof.
  intros s s'.
  assert (reachable 4 false 0 s) as H1.
  { do 2 (eapply reachable_step; [|constructor]). apply reachable_started. }
  assert ((configure_pools 4 false s).2 = Return ()) as H2
    by (vm_compute; reflexivity).
  assert (initial_thread_pools_ s' !! 1%nat = Some (pool_at 1 s')) as H3
    by (vm_compute; reflexivity).
  assert (assigned_pu_nums_ (pool_at 1 s') !! 0%nat = Some (0, true, false))
    as H4 by (vm_compute; reflexivity).
  destruct (configure_pools_numbers_workers 4 false 0 s 1 0 (pool_at 1 s')
              (0, true, false) H1 H2 H3 H4) as (Hnum & _).
  split_and!; [exact H1|exact H2|exact H3|exact H4|exact Hnum].
Defined.

Lemma configure_pools_thread_occupancy_witness :
  let s := started 4 0 mode_default_ "4" in
  reachable 4 false 0 s
  ∧ (configure_pools 4 false s).2 = Return ()
  ∧ get_thread_occupancy 2 (configure_pools 4 false s).1 = 1.
Proof.
  intros s.
  pose proof (reachable_started 4 false 0 mode_default_ "4") as H1.
  assert ((configure_pools 4 false s).2 = Return ()) as H2
    by (vm_compute; reflexivity).
  split_and!; [exact H1|exact H2|].
  rewrite (configure_pools_thread_occupancy 4 false 0 s 2 H1 H2).
  vm_compute. reflexivity.
Defined.

(** A pool "io" that was created and given no PU. *)
Lemma configure_pools_empty_pool_witness :
  let s := (create_thread_pool "io" local_priority_fifo 0 None
              (started 4 0 mode_default_ "4")).1 in
  initial_thread_pools_ s !! 1%nat = Some (pool_at 1 s)
  ∧ assigned_pus_ (pool_at 1 s) = []
  ∧ (configure_pools 4 false s).2 ≠ Return ().
Proof.
  intros s.
  assert (initial_thread_pools_ s !! 1%nat = Some (pool_at 1 s)) as H1
    by (vm_compute; reflexivity).
  assert (assigned_pus_ (pool_at 1 s) = []) as H2 by (vm_compute; reflexivity).
  destruct (configure_pools_empty_pool 4 false s 0 (pool_at 1 s) H1 H2)
    as (Hr & _).
  split_and!; [exact H1|exact H2|exact Hr].
Defined.

(** Moving the first core to 1, twice. *)
Lemma assign_cores_twice_witness :
  let s := first_pu_bound 4 0 "4" in
  (assign_cores 4 1 s).2 = Return 4
  ∧ assign_cores 4 1 (assign_cores 4 1 s).1
    = ((assign_cores 4 1 s).1, Return 4).
Proof.
  intros s.
  assert ((assign_cores 4 1 s).2 = Return 4) as H1 by (vm_compute; reflexivity).
  destruct (assign_cores_twice 4 1 s 4 H1) as [_ Hagain].
  split; [exact H1|exact Hagain].
Defined.

(** Six PUs with dynamic pools: PU 4 and PU 5 bound to the default pool
    non-exclusively, then virtual core 0 assigned and virtual core 1 not;
    and PU 5 alone, with its virtual core assigned. *)
Lemma expand_pool_mirrors_shrink_pool_witness :
  let s := (assign_pu "default" 0
              (add_resource_mirror 6 0 5 0 "default" false 1
                 (add_resource_mirror 6 0 4 0 "default" false 1
                    (started 6 0 allow_dynamic_pools "6")).1).1).1 in
  let s' := dynamic_pu_assigned 6 0 5 "6" in
  (dynamic_pools_allowed s = true
   ∧ get_pool_data "default" s = Return (0%nat, pool_at 0 s)
   ∧ pool_consistent (pool_at 0 s)
   ∧ has_non_exclusive_entry (pool_at 0 s)
   ∧ assigned_pu_nums_ (pool_at 0 s) = [(4, false, true); (5, false, false)]
   ∧ 1 ∈ (expand_pool "default" s).1
   ∧ (0 ∉ (expand_pool "default" s).1)
   ∧ (expand_pool "default" s).2
     = Return (N.of_nat (length (expand_pool "default" s).1))
   ∧ expand_pool_debug "default" s = AssertionFailed
   ∧ shrink_pool_debug "default" s = AssertionFailed)
  ∧ (dynamic_pools_allowed s' = true
     ∧ get_pool_data "default" s' = Return (0%nat, pool_at 0 s')
     ∧ pool_consistent (pool_at 0 s')
     ∧ has_non_exclusive_entry (pool_at 0 s')
     ∧ assigned_pu_nums_ (pool_at 0 s') = [(5, false, true)]
     ∧ (expand_pool "default" s').1 = []
     ∧ expand_pool_debug "default" s' = Passed ([], Return 0)
     ∧ shrink_pool_debug "default" s' = Passed (shrink_pool "default" s')).
Proof.
  intros s s'. split.
  - assert (dynamic_pools_allowed s = true) as H1 by (vm_compute; reflexivity).
    assert (get_pool_data "default" s = Return (0%nat, pool_at 0 s)) as H2
      by (vm_compute; reflexivity).
    assert (pool_consistent (pool_at 0 s)) as H3
      by (vm_compute; split; reflexivity).
    assert (assigned_pu_nums_ (pool_at 0 s)
            = [(4, false, true); (5, false, false)]) as H5
      by (vm_compute; reflexivity).
    assert (has_non_exclusive_entry (pool_at 0 s)) as H4.
    { exists (5, false, false). split; [|reflexivity].
      rewrite H5. right. left. }
    assert (forallb entry_assigned (assigned_pu_nums_ (pool_at 0 s)) = false)
      as H6 by (vm_compute; reflexivity).
    assert (0 ∈ (shrink_pool "default" s).1) as H7 by (vm_compute; left).
    assert (assigned_pu_nums_ (pool_at 0 s) !! N.to_nat 1
            = Some (5, false, false)) as H8 by (vm_compute; reflexivity).
    destruct (expand_pool_mirrors_shrink_pool "default" s 0 (pool_at 0 s)
                H1 H2 H3 H4) as (Hr & Hin & _ & Hdisjoint & _ & Hfail & _).
    destruct (Hfail H6) as [Hexpand Hshrink].
    split_and!;
      [exact H1|exact H2|exact H3|exact H4|exact H5
      |exact (proj2 (Hin 1) (ex_intro _ (5, false, false)
                               (conj H8 (conj eq_refl eq_refl))))
      |exact (Hdisjoint 0 H7)|exact Hr|exact Hexpand|exact Hshrink].
  - assert (dynamic_pools_allowed s' = true) as H1
      by (vm_compute; reflexivity).
    assert (get_pool_data "default" s' = Return (0%nat, pool_at 0 s')) as H2
      by (vm_compute; reflexivity).
    assert (pool_consistent (pool_at 0 s')) as H3
      by (vm_compute; split; reflexivity).
    assert (assigned_pu_nums_ (pool_at 0 s') = [(5, false, true)]) as H5
      by (vm_compute; reflexivity).
    assert (has_non_exclusive_entry (pool_at 0 s')) as H4.
    { exists (5, false, true). split; [|reflexivity]. rewrite H5. left. }
    assert (forallb entry_assigned (assigned_pu_nums_ (pool_at 0 s')) = true)
      as H6 by (vm_compute; reflexivity).
    destruct (expand_pool_mirrors_shrink_pool "default" s' 0 (pool_at 0 s')
                H1 H2 H3 H4) as (_ & _ & _ & _ & _ & _ & _ & Hall & _).
    destruct (Hall H6) as (Hnone & Hexpand & Hshrink).
    split_and!;
      [exact H1|exact H2|exact H3|exact H4|exact H5
      |exact Hnone|exact Hexpand|exact Hshrink].
Defined.

(** Six PUs with dynamic pools: PU 5 bound non-exclusively; virtual core 0
    is assigned, and then unassigned again. *)
Lemma assign_pu_moves_virtual_core_witness :
  let s := (add_resource_mirror 6 0 5 0 "default" false 1
              (started 6 0 allow_dynamic_pools "6")).1 in
  let s1 := (assign_pu "default" 0 s).1 in
  let s0 := (unassign_pu true "default" 0 s1).1 in
  (dynamic_pools_allowed s = true
   ∧ get_pool_data "default" s = Return (0%nat, pool_at 0 s)
   ∧ pool_consistent (pool_at 0 s)
   ∧ assigned_pu_nums_ (pool_at 0 s) !! N.to_nat 0 = Some (5, false, false)
   ∧ assign_pu_debug "default" 0 s = Passed (assign_pu "default" 0 s)
   ∧ unassign_pu_debug true "default" 0 s = AssertionFailed
   ∧ (assign_pu "default" 0 s).2 = Return ()
   ∧ 0 ∈ (expand_pool "default" s).1
   ∧ 0 ∈ (shrink_pool "default" s1).1
   ∧ (0 ∉ (expand_pool "default" s1).1)
   ∧ expand_pool_debug "default" s = AssertionFailed
   ∧ shrink_pool_debug "default" s1 = Passed (shrink_pool "default" s1)
   ∧ expand_pool_debug "default" s1 = Passed ([], Return 0))
  ∧ (dynamic_pools_allowed s1 = true
     ∧ get_pool_data "default" s1 = Return (0%nat, pool_at 0 s1)
     ∧ pool_consistent (pool_at 0 s1)
     ∧ assigned_pu_nums_ (pool_at 0 s1) !! N.to_nat 0 = Some (5, false, true)
     ∧ unassign_pu_debug true "default" 0 s1
       = Passed (unassign_pu true "default" 0 s1)
     ∧ assign_pu_debug "default" 0 s1 = AssertionFailed
     ∧ (unassign_pu true "default" 0 s1).2 = Return ()
     ∧ 0 ∈ (expand_pool "default" s0).1
     ∧ (0 ∉ (shrink_pool "default" s0).1)
     ∧ shrink_pool_debug "default" s0 = AssertionFailed
     ∧ expand_pool_debug "default" s0 = AssertionFailed).
Proof.
  intros s s1 s0. split.
  - assert (dynamic_pools_allowed s = true) as H1 by (vm_compute; reflexivity).
    assert (get_pool_data "default" s = Return (0%nat, pool_at 0 s)) as H2
      by (vm_compute; reflexivity).
    assert (pool_consistent (pool_at 0 s)) as H3
      by (vm_compute; split; reflexivity).
    assert (assigned_pu_nums_ (pool_at 0 s) !! N.to_nat 0
            = Some (5, false, false)) as H4 by (vm_compute; reflexivity).
    assert (forallb entry_assigned
              (<[N.to_nat 0 := set_assigned true (5, false, false)]>
                 (assigned_pu_nums_ (pool_at 0 s))) = true) as H5
      by (vm_compute; reflexivity).
    destruct (assign_pu_moves_virtual_core "default" 0 s 0 (pool_at 0 s)
                (5, false, false) H1 H2 H3 H4 eq_refl)
      as ([Hassign Hunassign] & Hhalf & _).
    destruct (Hhalf eq_refl)
      as (Hreturn & [Hbefore _] & [Hin Hnotin] & _ & [_ Hfail] & Hafter & _).
    destruct (Hafter H5) as [Hshrink Hexpand].
    split_and!;
      [exact H1|exact H2|exact H3|exact H4|exact Hassign|exact Hunassign
      |exact Hreturn|exact Hbefore|exact Hin|exact Hnotin|exact Hfail
      |exact Hshrink|exact Hexpand].
  - assert (dynamic_pools_allowed s1 = true) as H1
      by (vm_compute; reflexivity).
    assert (get_pool_data "default" s1 = Return (0%nat, pool_at 0 s1)) as H2
      by (vm_compute; reflexivity).
    assert (pool_consistent (pool_at 0 s1)) as H3
      by (vm_compute; split; reflexivity).
    assert (assigned_pu_nums_ (pool_at 0 s1) !! N.to_nat 0
            = Some (5, false, true)) as H4 by (vm_compute; reflexivity).
    destruct (assign_pu_moves_virtual_core "default" 0 s1 0 (pool_at 0 s1)
                (5, false, true) H1 H2 H3 H4 eq_refl)
      as ([Hassign Hunassign] & _ & Hhalf & _).
    destruct (Hhalf eq_refl)
      as (Hreturn & _ & [Hin Hnotin] & _ & [Hshrink Hexpand]).
    split_and!;
      [exact H1|exact H2|exact H3|exact H4|exact Hunassign|exact Hassign
      |exact Hreturn|exact Hin|exact Hnotin|exact Hshrink|exact Hexpand].
Defined.


(** The machine of four PUs, each exposed to one worker. *)
Lemma init_state_witness :
  let r := init 4 mode_default_ default_entries (exposing 4 4)
             (partitioner_ctor 0 (machine 4)) in
  r.2 = Return ()
  ∧ first_core_ r.1 = 0
  ∧ free_pus r.1 = mirror_pus (numa_domains_ r.1).
Proof.
  intros r.
  assert (r.2 = Return ()) as H1 by (vm_compute; reflexivity).
  destruct (init_state 4 0 (machine 4) mode_default_ default_entries
              (exposing 4 4)) as (_ & _ & _ & _ & _ & _ & Hreturn).
  destruct (Hreturn H1) as (Hfirst & _ & _ & Hfree & _).
  split_and!; [exact H1|exact Hfirst|exact Hfree].
Defined.

(** The pool "io" of the second scenario, by index and by name. *)
Lemma getters_by_index_witness :
  let s := with_io_pool 4 false 0 "4" in
  initial_thread_pools_ s !! N.to_nat 1 = Some (pool_at 1 s)
  ∧ reachable 4 false 0 s
  ∧ get_num_threads_of_index 1 s = Found 1
  ∧ get_num_threads_of_name "io" s = Return 1
  ∧ get_num_pools s ≤ 2
  ∧ get_pool_creator 2 s = OutOfBounds pool_creator_out_of_bounds.
Proof.
  intros s.
  assert (initial_thread_pools_ s !! N.to_nat 1 = Some (pool_at 1 s)) as H1
    by (vm_compute; reflexivity).
  assert (reachable 4 false 0 s) as H2.
  { do 3 (eapply reachable_step; [|constructor]). apply reachable_started. }
  assert (get_num_pools s ≤ 2) as H3 by (vm_compute; intros H; discriminate H).
  destruct (getters_by_index 4 false 0 s 1) as [Hin _].
  destruct (Hin (pool_at 1 s) H1) as (_ & Hindex & _ & _ & _ & _ & Hname).
  destruct (getters_by_index 4 false 0 s 2) as [_ Hout].
  destruct (Hout H3) as (_ & _ & _ & _ & Hcreator & _).
  split_and!; [exact H1|exact H2|exact Hindex|exact (Hname H2)|exact H3
              |exact Hcreator].
Defined.

Lemma setup_schedulers_twice_witness :
  let s := started 4 0 mode_default_ "4" in
  (setup_schedulers false s).2 = Return ()
  ∧ setup_schedulers false (setup_schedulers false s).1
    = ((setup_schedulers false s).1, Return ()).
Proof.
  intros s.
  assert ((setup_schedulers false s).2 = Return ()) as H1
    by (vm_compute; reflexivity).
  destruct (setup_schedulers_twice false s H1) as [_ Hagain].
  split; [exact H1|exact Hagain].
Defined.


(** PU 0 of the machine of four PUs, bound to the default pool. *)
Lemma add_resource_mirror_once_witness :
  let s := started 4 0 mode_default_ "4" in
  let s1 := (add_resource_mirror 4 0 0 0 "default" true 1 s).1 in
  oversubscription_allowed s = false
  ∧ (add_resource_mirror 4 0 0 0 "default" true 1 s).2 = Return ()
  ∧ ∃ e, add_resource_mirror 4 0 0 0 "default" true 1 s1 = (s1, Throw e).
Proof.
  intros s s1.
  assert (oversubscription_allowed s = false) as H1 by (vm_compute; reflexivity).
  assert ((add_resource_mirror 4 0 0 0 "default" true 1 s).2 = Return ()) as H2
    by (vm_compute; reflexivity).
  destruct (add_resource_mirror_once 4 0 0 0 "default" true 1 s H1 H2)
    as (p & _ & _ & Hagain).
  destruct (Hagain "default"%string true 1 (or_introl eq_refl)) as [Hthrow _].
  split_and!; [exact H1|exact H2|].
  eexists. exact Hthrow.
Defined.


(** The name "io" twice. *)
Lemma create_thread_pool_errors_witness :
  let s := (create_thread_pool "io" local_priority_fifo 0 None
              (started 4 0 mode_default_ "4")).1 in
  (create_thread_pool "io" static_ 0 None s).2
  = Throw (pool_already_exists "io")
  ∧ (create_thread_pool "io" static_ 0 None s).1 = s.
Proof.
  intros s.
  assert ((create_thread_pool "io" static_ 0 None s).2
          = Throw (pool_already_exists "io")) as H1
    by (vm_compute; reflexivity).
  destruct (create_thread_pool_errors "io" s (pool_already_exists "io"))
    as [Hcreate _].
  destruct (Hcreate static_ 0 None H1) as (Hstate & _).
  split; [exact H1|exact Hstate].
Defined.
